(** * Domain Research Dashboard: the logic core

    A shallow embedding of the two places of the dashboard that hold logic:
    the domain normalizer of the header component ([sanitizeDomain],
    [validateDomain]) and the link generator of the tool card and of the
    dashboard's batch-open handler, together with the favorites loader of the
    application shell.

    JavaScript strings are sequences of UTF-16 code units; they are modelled
    as lists of numbers, one per code unit, and the string built-ins the
    code calls are defined over them. *)

From Stdlib Require Import Ascii String DecimalString.
From Stdlib Require Import List NArith ZArith Bool Arith Lia.
Import ListNotations.

Set Implicit Arguments.

(* ================================================================== *)
(** * JavaScript strings *)
(* ================================================================== *)

Module JS.

Local Open Scope N_scope.

(** A code unit; a string is a list of them. *)
Definition jsstring := list N.

(** The code unit of an ASCII character, and the string of an ASCII literal. *)
Definition ch (a : ascii) : N := N_of_ascii a.
Arguments ch a%_char.

Definition str (s : string) : jsstring := map N_of_ascii (list_ascii_of_string s).
Arguments str s%_string.

(** The double quote, U+0022. *)
Definition dquote : N := 34.

Definition in_range (lo hi c : N) : bool := (lo <=? c) && (c <=? hi).

Definition is_digit (c : N) : bool := in_range (ch "0") (ch "9") c.
Definition is_upper (c : N) : bool := in_range (ch "A") (ch "Z") c.
Definition is_lower (c : N) : bool := in_range (ch "a") (ch "z") c.
Definition is_alpha (c : N) : bool := is_upper c || is_lower c.
Definition is_alnum (c : N) : bool := is_alpha c || is_digit c.

(** Equality of strings, code unit by code unit ([===] on strings). *)
Fixpoint eqb (a b : jsstring) : bool :=
  match a, b with
  | [], [] => true
  | x :: a', y :: b' => (x =? y) && eqb a' b'
  | _, _ => false
  end.

(** [!s] on a string: only the empty string is falsy. *)
Definition is_empty (s : jsstring) : bool :=
  match s with [] => true | _ :: _ => false end.

(** [s.startsWith(p)]. *)
Fixpoint startsWith (p s : jsstring) : bool :=
  match p, s with
  | [], _ => true
  | x :: p', y :: s' => (x =? y) && startsWith p' s'
  | _ :: _, [] => false
  end.

(** [s.endsWith(p)]. *)
Definition endsWith (p s : jsstring) : bool := startsWith (rev p) (rev s).

(** [s.indexOf(p)], the position of the first occurrence of [p], or [-1].
    [indexOf_from p s i] searches [s], whose first code unit has index [i]. *)
Fixpoint indexOf_from (p s : jsstring) (i : Z) : Z :=
  if startsWith p s then i
  else match s with
       | [] => (-1)%Z
       | _ :: s' => indexOf_from p s' (i + 1)%Z
       end.

Definition indexOf (p s : jsstring) : Z := indexOf_from p s 0%Z.

(** [s.includes(p)]. *)
Definition includes (p s : jsstring) : bool := (0 <=? indexOf p s)%Z.

(** [s.substring(0, n)] for [0 <= n]. *)
Definition substring0 (n : Z) (s : jsstring) : jsstring := firstn (Z.to_nat n) s.

(** White space and line terminators, the code units [trim] removes. *)
Definition is_whitespace (c : N) : bool :=
  in_range 9 13 c || (c =? 32) || (c =? 160) || (c =? 5760)
  || in_range 8192 8202 c || (c =? 8232) || (c =? 8233) || (c =? 8239)
  || (c =? 8287) || (c =? 12288) || (c =? 65279).

Fixpoint trimStart (s : jsstring) : jsstring :=
  match s with
  | [] => []
  | c :: s' => if is_whitespace c then trimStart s' else s
  end.

Definition trimEnd (s : jsstring) : jsstring :=
  fold_right (fun c acc =>
                match acc with
                | [] => if is_whitespace c then [] else [c]
                | _ :: _ => c :: acc
                end) [] s.

(** [s.trim()]. *)
Definition trim (s : jsstring) : jsstring := trimEnd (trimStart s).

(** [s.split(sep)] for a separator of one code unit; the result is never
    empty: the empty string splits into one empty piece. *)
Fixpoint split (sep : N) (s : jsstring) : list jsstring :=
  match s with
  | [] => [[]]
  | c :: s' =>
      if c =? sep then [] :: split sep s'
      else match split sep s' with
           | l :: ls => (c :: l) :: ls
           | [] => [[c]]
           end
  end.

(** [pieces.join(sep)] for a separator of one code unit. *)
Fixpoint join (sep : N) (pieces : list jsstring) : jsstring :=
  match pieces with
  | [] => []
  | [p] => p
  | p :: ps => p ++ sep :: join sep ps
  end.

(** [s.toLowerCase()]. Upper-case ASCII letters map to lower case. Two code
    points outside ASCII have a lower case with an ASCII letter in it:
    U+212A (Kelvin sign) maps to [k] and U+0130 to [i] followed by U+0307.
    Every other code unit outside ASCII is left as it is: its lower case has
    no ASCII code unit in it, and the code of this repository looks only at
    ASCII code units of a lower-cased string. *)
Definition lower_unit (c : N) : jsstring :=
  if is_upper c then [c + 32]
  else if c =? 8490 then [ch "k"]
  else if c =? 304 then [ch "i"; 775]
  else [c].

Definition toLowerCase (s : jsstring) : jsstring := flat_map lower_unit s.

(** ** [String.prototype.replace] with a string pattern

    The replacement text of [replace] is a template: [$$] stands for a
    dollar sign, [$&] for the matched text, [$`] for the text before the
    match and [$'] for the text after it. With a string pattern there are
    no capture groups, so every other use of [$] stands for itself. *)
Fixpoint GetSubstitution (matched before after replacement : jsstring) : jsstring :=
  match replacement with
  | [] => []
  | c :: r =>
      if c =? ch "$" then
        match r with
        | d :: r' =>
            if d =? ch "$" then ch "$" :: GetSubstitution matched before after r'
            else if d =? ch "&" then matched ++ GetSubstitution matched before after r'
            else if d =? ch "`" then before ++ GetSubstitution matched before after r'
            else if d =? ch "'" then after ++ GetSubstitution matched before after r'
            else c :: GetSubstitution matched before after r
        | [] => [c]
        end
      else c :: GetSubstitution matched before after r
  end.

(** [s.replace(searchValue, replaceValue)], both strings: the first
    occurrence of [searchValue] is replaced, or [s] is returned unchanged. *)
Definition replace (searchValue replaceValue s : jsstring) : jsstring :=
  let pos := indexOf searchValue s in
  if (pos <? 0)%Z then s
  else
    let preceding := firstn (Z.to_nat pos) s in
    let following := skipn (Z.to_nat pos + length searchValue) s in
    preceding ++ GetSubstitution searchValue preceding following replaceValue ++ following.

(** ** Regular expressions

    The anchored patterns of the code ([/^...$/]) are kept as syntax trees
    and tested with Brzozowski derivatives; [test] decides whether the whole
    string is in the language, which is what an anchored pattern without
    back-references asks. *)
Inductive regex : Type :=
| Never : regex
| Epsilon : regex
| Class : (N -> bool) -> regex
| Seq : regex -> regex -> regex
| Alt : regex -> regex -> regex
| Star : regex -> regex.

(** [r?], [r+] and [r{0,n}]. *)
Definition Opt (r : regex) : regex := Alt Epsilon r.
Definition Plus (r : regex) : regex := Seq r (Star r).
Fixpoint UpTo (n : nat) (r : regex) : regex :=
  match n with
  | O => Epsilon
  | S n' => Opt (Seq r (UpTo n' r))
  end.

Fixpoint nullable (r : regex) : bool :=
  match r with
  | Never => false
  | Epsilon => true
  | Class _ => false
  | Seq a b => nullable a && nullable b
  | Alt a b => nullable a || nullable b
  | Star _ => true
  end.

(** Constructors that keep derivatives small. *)
Definition seq' (a b : regex) : regex :=
  match a, b with
  | Never, _ => Never
  | _, Never => Never
  | Epsilon, _ => b
  | _, _ => Seq a b
  end.

Definition alt' (a b : regex) : regex :=
  match a, b with
  | Never, _ => b
  | _, Never => a
  | _, _ => Alt a b
  end.

Fixpoint deriv (c : N) (r : regex) : regex :=
  match r with
  | Never => Never
  | Epsilon => Never
  | Class p => if p c then Epsilon else Never
  | Seq a b =>
      if nullable a then alt' (seq' (deriv c a) b) (deriv c b)
      else seq' (deriv c a) b
  | Alt a b => alt' (deriv c a) (deriv c b)
  | Star a => seq' (deriv c a) (Star a)
  end.

(** [/^r$/.test(s)]. *)
Fixpoint test (r : regex) (s : jsstring) : bool :=
  match s with
  | [] => nullable r
  | c :: s' => test (deriv c r) s'
  end.

(** The strings of the language of a pattern. *)
Inductive matches : regex -> jsstring -> Prop :=
| matches_epsilon : matches Epsilon []
| matches_class : forall (p : N -> bool) (c : N), p c = true -> matches (Class p) [c]
| matches_seq : forall a b s t, matches a s -> matches b t -> matches (Seq a b) (s ++ t)
| matches_alt_l : forall a b s, matches a s -> matches (Alt a b) s
| matches_alt_r : forall a b s, matches b s -> matches (Alt a b) s
| matches_star_nil : forall a, matches (Star a) []
| matches_star_app : forall a s t, matches a s -> matches (Star a) t -> matches (Star a) (s ++ t).

End JS.

(* ================================================================== *)
(** * Exceptions *)
(* ================================================================== *)

(** A computation either returns a value or throws; [try_catch] is the
    [try { ... } catch (e) { ... }] statement. *)
Module Exn.

Inductive result (A : Type) : Type :=
| Returns : A -> result A
| Throws : result A.
Arguments Returns {A} _.
Arguments Throws {A}.

Definition bind {A B : Type} (m : result A) (k : A -> result B) : result B :=
  match m with
  | Returns a => k a
  | Throws => Throws
  end.

Definition try_catch {A : Type} (body : result A) (handler : result A) : result A :=
  match body with
  | Returns a => Returns a
  | Throws => handler
  end.

End Exn.

Import Exn.

Notation "x <- m ;; k" := (Exn.bind m (fun x => k))
  (at level 61, m at next level, right associativity).

(* ================================================================== *)
(** * The header component: sanitizing and validating a domain *)
(* ================================================================== *)

Module Header.

Import JS.
Local Open Scope N_scope.

(** What the code reads of a [URL] object. *)
Record URL_object : Type := { hostname : jsstring }.

(** ** The messages [validateDomain] returns *)

Definition msg_missing : jsstring := str "Please enter a domain name.".
Definition msg_too_long : jsstring := str "Domain is too long (maximum 253 characters).".
Definition msg_invalid_chars : jsstring :=
  str "Domain contains invalid characters. Use only letters, numbers, hyphens, and periods.".
Definition msg_missing_tld : jsstring :=
  str "Invalid format. A domain must include a TLD (e.g., " ++ [dquote]
    ++ str ".com" ++ [dquote] ++ str ").".
Definition msg_periods : jsstring :=
  str "Invalid format. Found consecutive or trailing periods.".
Definition msg_label_too_long (label : jsstring) : jsstring :=
  str "A part of the domain (" ++ [dquote] ++ label ++ [dquote]
    ++ str ") is too long (maximum 63 characters).".
Definition msg_hyphen : jsstring := str "Domain parts cannot start or end with a hyphen.".
Definition msg_numeric_tld : jsstring :=
  str "The Top-Level Domain (TLD) cannot be composed entirely of numbers.".
Definition msg_invalid_format : jsstring :=
  str "Invalid domain format. Please use a format like " ++ [dquote]
    ++ str "example.com" ++ [dquote] ++ str ".".

(** ** The patterns of [validateDomain] *)

(** The class [[a-zA-Z0-9.-]]; [/[^a-zA-Z0-9.-]/.test(s)] asks for a code
    unit outside it. *)
Definition domain_char (c : N) : bool := is_alnum c || (c =? ch ".") || (c =? ch "-").

Definition has_invalid_char (s : jsstring) : bool :=
  existsb (fun c => negb (domain_char c)) s.

(** [/^[0-9]+$/]. *)
Definition numericRegex : regex := Plus (Class is_digit).

(** [/^([a-zA-Z0-9]([a-zA-Z0-9-]{0,61}[a-zA-Z0-9])?\.)+[a-zA-Z][a-zA-Z0-9-]{1,}$/]. *)
Definition alnum_or_hyphen (c : N) : bool := is_alnum c || (c =? ch "-").

Definition domainRegex : regex :=
  Seq (Plus (Seq (Class is_alnum)
               (Seq (Opt (Seq (UpTo 61 (Class alnum_or_hyphen)) (Class is_alnum)))
                    (Class (N.eqb (ch "."))))))
      (Seq (Class is_alpha) (Plus (Class alnum_or_hyphen))).

(** ** [validateDomain] *)

(** The loop over the labels: each label is checked for its length and then
    for its hyphens before the next label is looked at, and the first check
    that fails returns. *)
Fixpoint check_labels (labels : list jsstring) : option jsstring :=
  match labels with
  | [] => None
  | label :: rest =>
      if (63 <? length label)%nat then Some (msg_label_too_long label)
      else if startsWith (str "-") label || endsWith (str "-") label then Some msg_hyphen
      else check_labels rest
  end.

Definition validateDomain (domain : jsstring) : option jsstring :=
  let trimmedDomain := trim domain in
  if is_empty trimmedDomain then Some msg_missing
  else if (253 <? length trimmedDomain)%nat then Some msg_too_long
  else if has_invalid_char trimmedDomain then Some msg_invalid_chars
  else if negb (includes (str ".") trimmedDomain) then Some msg_missing_tld
  else
    let labels := split (ch ".") trimmedDomain in
    if existsb (fun label => (length label =? 0)%nat) labels then Some msg_periods
    else
      match check_labels labels with
      | Some message => Some message
      | None =>
          let tld := last labels [] in
          if test numericRegex tld then Some msg_numeric_tld
          else if negb (test domainRegex trimmedDomain) then Some msg_invalid_format
          else None
      end.

(** ** [sanitizeDomain] *)

(** [s.replace(/^www\./, '')]. *)
Definition strip_www (s : jsstring) : jsstring :=
  if startsWith (str "www.") s then skipn 4 s else s.

(** [s.replace(/^https?:\/\//, '')]. *)
Definition strip_http (s : jsstring) : jsstring :=
  if startsWith (str "http://") s then skipn 7 s
  else if startsWith (str "https://") s then skipn 8 s
  else s.

(** [s.replace(/[^a-z0-9.\-]/g, '')]. *)
Definition keep_char (c : N) : bool :=
  is_lower c || is_digit c || (c =? ch ".") || (c =? ch "-").

Definition drop_invalid (s : jsstring) : jsstring := filter keep_char s.

(** The body of the [catch] block. *)
Definition manual_sanitize (domain : jsstring) : jsstring :=
  let sanitized := toLowerCase (trim domain) in
  let sanitized := strip_http sanitized in
  let sanitized := strip_www sanitized in
  let pathIndex := indexOf (str "/") sanitized in
  let sanitized :=
    if (-1 <? pathIndex)%Z then substring0 pathIndex sanitized else sanitized in
  drop_invalid sanitized.

Section Sanitize.

(** The platform's [new URL(input)]: it returns a URL object or throws a
    [TypeError]. *)
Variable new_URL : jsstring -> result URL_object.

Definition sanitizeDomain (domain : jsstring) : result jsstring :=
  if is_empty domain then Returns []
  else
    try_catch
      (url <- new_URL (if includes (str "://") domain then domain
                       else str "https://" ++ domain) ;;
       Returns (strip_www (hostname url)))
      (Returns (manual_sanitize domain)).

End Sanitize.

End Header.

(* ================================================================== *)
(** * The platform's URL parser *)
(* ================================================================== *)

(** The code calls the platform's [new URL(input)] and [window.open(url)];
    the specification names them "standard URL-parsing rules". This module
    models them from the URL Standard: it follows the basic URL parser as far
    as it decides whether parsing fails and what the host of the result is.
    The path, the query and the fragment never make parsing fail and are not
    kept. Two parts of host parsing are left to the platform record below:
    the Unicode processing of a domain that is not plain ASCII, and IPv6
    literals. *)
Module WHATWG.

Import JS.
Local Open Scope N_scope.

Record Platform : Type := {
  (** Unicode ToASCII of a percent-decoded domain (given as bytes) that has
      a byte outside ASCII or a label starting with [xn--]. *)
  unicode_ToASCII : list N -> option jsstring;
  (** Parsing and serializing what stands between the brackets of an IPv6
      literal. *)
  ipv6_literal : jsstring -> option jsstring
}.

(** A platform that rejects every host of the two kinds. *)
Definition ascii_platform : Platform :=
  {| unicode_ToASCII := fun _ => None; ipv6_literal := fun _ => None |}.

(** What parsing reads of a base URL. *)
Record BaseURL : Type := {
  base_scheme : jsstring;
  base_hostname : jsstring;
  base_has_opaque_path : bool
}.

(** The longest prefix whose code units satisfy [p], and the rest. *)
Fixpoint span (p : N -> bool) (s : jsstring) : jsstring * jsstring :=
  match s with
  | [] => ([], [])
  | c :: s' =>
      if p c then let (a, b) := span p s' in (c :: a, b)
      else ([], s)
  end.

(** ** Preprocessing *)

Definition is_c0_or_space (c : N) : bool := c <=? 32.
Definition is_tab_or_newline (c : N) : bool := (c =? 9) || (c =? 10) || (c =? 13).

Fixpoint strip_leading (s : jsstring) : jsstring :=
  match s with
  | [] => []
  | c :: s' => if is_c0_or_space c then strip_leading s' else s
  end.

Definition strip_trailing (s : jsstring) : jsstring :=
  fold_right (fun c acc =>
                match acc with
                | [] => if is_c0_or_space c then [] else [c]
                | _ :: _ => c :: acc
                end) [] s.

Definition preprocess (input : jsstring) : jsstring :=
  filter (fun c => negb (is_tab_or_newline c)) (strip_trailing (strip_leading input)).

(** ** Schemes *)

Definition ascii_lower (c : N) : N := if is_upper c then c + 32 else c.

Definition is_scheme_char (c : N) : bool :=
  is_alnum c || (c =? ch "+") || (c =? ch "-") || (c =? ch ".").

Definition is_special (scheme : jsstring) : bool :=
  existsb (JS.eqb scheme)
    [str "ftp"; str "file"; str "http"; str "https"; str "ws"; str "wss"].

(** Scheme start state and scheme state: the scheme, lower-cased, and what
    follows its colon; [None] sends the parser to the no scheme state. *)
Definition parse_scheme (input : jsstring) : option (jsstring * jsstring) :=
  match input with
  | [] => None
  | c :: _ =>
      if is_alpha c then
        let (buffer, rest) := span is_scheme_char input in
        match rest with
        | d :: remaining =>
            if d =? ch ":" then Some (map ascii_lower buffer, remaining) else None
        | [] => None
        end
      else None
  end.

(** ** Percent-encoding and UTF-8 *)

Definition is_lead_surrogate (c : N) : bool := in_range 55296 56319 c.
Definition is_trail_surrogate (c : N) : bool := in_range 56320 57343 c.

(** The code points of a string; a surrogate with no partner reads as
    U+FFFD. *)
Fixpoint code_points (s : jsstring) : list N :=
  match s with
  | [] => []
  | c :: s' =>
      if is_lead_surrogate c then
        match s' with
        | d :: s'' =>
            if is_trail_surrogate d
            then (65536 + (c - 55296) * 1024 + (d - 56320)) :: code_points s''
            else 65533 :: code_points s'
        | [] => [65533]
        end
      else if is_trail_surrogate c then 65533 :: code_points s'
      else c :: code_points s'
  end.

Definition utf8_bytes (cp : N) : list N :=
  if cp <? 128 then [cp]
  else if cp <? 2048 then [192 + cp / 64; 128 + cp mod 64]
  else if cp <? 65536 then [224 + cp / 4096; 128 + (cp / 64) mod 64; 128 + cp mod 64]
  else [240 + cp / 262144; 128 + (cp / 4096) mod 64; 128 + (cp / 64) mod 64;
        128 + cp mod 64].

Definition utf8_encode (s : jsstring) : list N := flat_map utf8_bytes (code_points s).

Definition hex_digit (n : N) : N := if n <? 10 then 48 + n else 55 + n.

Definition percent_encode_byte (b : N) : jsstring :=
  [ch "%"; hex_digit (b / 16); hex_digit (b mod 16)].

Definition hex_value (c : N) : option N :=
  if is_digit c then Some (c - 48)
  else if in_range (ch "A") (ch "F") c then Some (c - 55)
  else if in_range (ch "a") (ch "f") c then Some (c - 87)
  else None.

Fixpoint percent_decode (bytes : list N) : list N :=
  match bytes with
  | [] => []
  | b :: r =>
      if b =? ch "%" then
        match r with
        | h1 :: h2 :: r' =>
            match hex_value h1, hex_value h2 with
            | Some x, Some y => (x * 16 + y) :: percent_decode r'
            | _, _ => b :: percent_decode r
            end
        | _ => b :: percent_decode r
        end
      else b :: percent_decode r
  end.

(** ** Hosts *)

Definition is_forbidden_host (c : N) : bool :=
  existsb (N.eqb c)
    [0; 9; 10; 13; 32; ch "#"; ch "/"; ch ":"; ch "<"; ch ">"; ch "?"; ch "@";
     ch "["; ch "\"; ch "]"; ch "^"; ch "|"].

Definition is_forbidden_domain (c : N) : bool :=
  is_forbidden_host c || (c <=? 31) || (c =? ch "%") || (c =? 127).

(** The C0 control percent-encode set. *)
Definition in_c0_control_set (cp : N) : bool := (cp <=? 31) || (126 <? cp).

Definition opaque_encode (cp : N) : jsstring :=
  if in_c0_control_set cp then flat_map percent_encode_byte (utf8_bytes cp) else [cp].

(** The opaque-host parser, for the host of a scheme that is not special. *)
Definition opaque_host_parse (input : jsstring) : option jsstring :=
  if existsb is_forbidden_host input then None
  else Some (flat_map opaque_encode (code_points input)).

(** The IPv4 number parser: decimal, or hexadecimal after [0x], or octal
    after a leading [0]. *)
Definition digit_value (radix c : N) : option N :=
  match hex_value c with
  | Some v => if v <? radix then Some v else None
  | None => None
  end.

Fixpoint parse_radix (radix : N) (acc : N) (s : jsstring) : option N :=
  match s with
  | [] => Some acc
  | c :: s' =>
      match digit_value radix c with
      | Some v => parse_radix radix (acc * radix + v) s'
      | None => None
      end
  end.

Definition ipv4_number (input : jsstring) : option N :=
  match input with
  | [] => None
  | c :: r =>
      match r with
      | d :: r' =>
          if (c =? ch "0") && ((d =? ch "x") || (d =? ch "X")) then parse_radix 16 0 r'
          else if c =? ch "0" then parse_radix 8 0 r
          else parse_radix 10 0 input
      | [] => parse_radix 10 0 input
      end
  end.

(** The parts of a host the IPv4 checks look at: a last empty part is
    dropped when it is not the only one. *)
Definition ipv4_parts (input : jsstring) : list jsstring :=
  let parts := split (ch ".") input in
  if is_empty (last parts []) && (1 <? length parts)%nat then removelast parts
  else parts.

(** The ends-in-a-number checker. *)
Definition ends_in_number (input : jsstring) : bool :=
  let parts := split (ch ".") input in
  if is_empty (last parts []) && (length parts =? 1)%nat then false
  else
    let lastPart := last (ipv4_parts input) [] in
    (negb (is_empty lastPart) && forallb is_digit lastPart)
    || match ipv4_number lastPart with Some _ => true | None => false end.

Fixpoint all_some (l : list (option N)) : option (list N) :=
  match l with
  | [] => Some []
  | Some n :: l' => option_map (cons n) (all_some l')
  | None :: _ => None
  end.

Definition decimal (n : N) : jsstring := str (NilEmpty.string_of_uint (N.to_uint n)).

Definition serialize_ipv4 (address : N) : jsstring :=
  decimal (address / 16777216) ++ str "." ++ decimal ((address / 65536) mod 256)
    ++ str "." ++ decimal ((address / 256) mod 256) ++ str "." ++ decimal (address mod 256).

(** The IPv4 parser, followed by the serializer. *)
Definition ipv4_parse (input : jsstring) : option jsstring :=
  let parts := ipv4_parts input in
  if (4 <? length parts)%nat then None
  else
    match all_some (map ipv4_number parts) with
    | None => None
    | Some numbers =>
        let front := removelast numbers in
        let lastNumber := last numbers 0 in
        if existsb (fun n => 255 <? n) front then None
        else if 256 ^ (5 - N.of_nat (length numbers)) <=? lastNumber then None
        else
          Some (serialize_ipv4
                  (fst (fold_left (fun st n => (fst st + n * 256 ^ (3 - snd st), snd st + 1))
                                  front (lastNumber, 0))))
    end.

(** Domain to ASCII. On a domain of ASCII bytes with no label starting with
    [xn--] it is ASCII lower-casing. *)
Definition has_punycode_label (domain : list N) : bool :=
  existsb (fun label => startsWith (str "xn--") (map ascii_lower label))
          (split (ch ".") domain).

Definition domain_to_ASCII (P : Platform) (domain : list N) : option jsstring :=
  let result :=
    if forallb (fun b => b <? 128) domain && negb (has_punycode_label domain)
    then Some (map ascii_lower domain)
    else unicode_ToASCII P domain in
  match result with
  | Some [] => None
  | _ => result
  end.

(** The host parser; the result is the serialized host. *)
Definition host_parse (P : Platform) (isOpaque : bool) (input : jsstring) : option jsstring :=
  if startsWith (str "[") input then
    if endsWith (str "]") input then
      option_map (fun a => str "[" ++ a ++ str "]")
                 (ipv6_literal P (removelast (skipn 1 input)))
    else None
  else if isOpaque then opaque_host_parse input
  else
    match domain_to_ASCII P (percent_decode (utf8_encode input)) with
    | None => None
    | Some asciiDomain =>
        if existsb is_forbidden_domain asciiDomain then None
        else if ends_in_number asciiDomain then ipv4_parse asciiDomain
        else Some asciiDomain
    end.

(** ** Authorities *)

Definition is_slash (c : N) : bool := (c =? ch "/") || (c =? ch "\").

(** The code units that end an authority. *)
Definition is_authority_end (special : bool) (c : N) : bool :=
  (c =? ch "/") || (c =? ch "?") || (c =? ch "#") || (special && (c =? ch "\")).

(** What follows the last [@], when there is one. *)
Fixpoint after_last_at (s : jsstring) : option jsstring :=
  match s with
  | [] => None
  | c :: s' =>
      match after_last_at s' with
      | Some t => Some t
      | None => if c =? ch "@" then Some s' else None
      end
  end.

(** The host state: the buffer up to the first colon outside brackets, and
    what follows that colon. *)
Fixpoint split_port (insideBrackets : bool) (s : jsstring) : jsstring * option jsstring :=
  match s with
  | [] => ([], None)
  | c :: s' =>
      if (c =? ch ":") && negb insideBrackets then ([], Some s')
      else
        let inside := if c =? ch "[" then true
                      else if c =? ch "]" then false
                      else insideBrackets in
        let (buffer, port) := split_port inside s' in
        (c :: buffer, port)
  end.

Definition decimal_value (s : jsstring) : N :=
  fold_left (fun acc c => acc * 10 + (c - 48)) s 0.

(** The port state: digits only, and at most 65535. *)
Definition port_ok (port : jsstring) : bool :=
  forallb is_digit port && (decimal_value port <=? 65535).

(** Authority state, host state and port state, from the first code unit of
    the authority: the serialized host, or failure. *)
Definition parse_authority (P : Platform) (special : bool) (input : jsstring) : option jsstring :=
  let authority := fst (span (fun c => negb (is_authority_end special c)) input) in
  let hostport :=
    match after_last_at authority with
    | Some t => if is_empty t then None else Some t
    | None => Some authority
    end in
  match hostport with
  | None => None
  | Some hp =>
      match split_port false hp with
      | (buffer, Some port) =>
          if is_empty buffer then None
          else
            match host_parse P (negb special) buffer with
            | None => None
            | Some host => if port_ok port then Some host else None
            end
      | (buffer, None) =>
          if special && is_empty buffer then None
          else host_parse P (negb special) buffer
      end
  end.

(** The special authority ignore slashes state. *)
Fixpoint skip_slashes (s : jsstring) : jsstring :=
  match s with
  | [] => []
  | c :: s' => if is_slash c then skip_slashes s' else s
  end.

(** ** The file scheme *)

Definition is_windows_drive_letter (s : jsstring) : bool :=
  match s with
  | [a; b] => is_alpha a && ((b =? ch ":") || (b =? ch "|"))
  | _ => false
  end.

Definition is_file_host_end (c : N) : bool :=
  is_slash c || (c =? ch "?") || (c =? ch "#").

(** The file host state. *)
Definition file_host (P : Platform) (input : jsstring) : option jsstring :=
  let buffer := fst (span (fun c => negb (is_file_host_end c)) input) in
  if is_windows_drive_letter buffer then Some []
  else if is_empty buffer then Some []
  else
    match host_parse P false buffer with
    | None => None
    | Some host => if JS.eqb host (str "localhost") then Some [] else Some host
    end.

(** The host a file URL takes from its base, when the base is a file URL. *)
Definition file_base_host (base : option BaseURL) : jsstring :=
  match base with
  | Some b => if JS.eqb (base_scheme b) (str "file") then base_hostname b else []
  | None => []
  end.

(** The file state and the file slash state. *)
Definition file_state (P : Platform) (base : option BaseURL) (input : jsstring) : option jsstring :=
  match input with
  | c :: r =>
      if is_slash c then
        match r with
        | d :: r' => if is_slash d then file_host P r' else Some (file_base_host base)
        | [] => Some (file_base_host base)
        end
      else Some (file_base_host base)
  | [] => Some (file_base_host base)
  end.

(** ** The parser *)

(** The relative state and the relative slash state: the URL takes the
    scheme of the base, which is not a file URL. *)
Definition relative_state (P : Platform) (b : BaseURL) (input : jsstring) : option jsstring :=
  let special := is_special (base_scheme b) in
  match input with
  | c :: r =>
      if (c =? ch "/") || (special && (c =? ch "\")) then
        match r with
        | d :: r' =>
            if special && is_slash d then parse_authority P true (skip_slashes r')
            else if d =? ch "/" then parse_authority P false r'
            else Some (base_hostname b)
        | [] => Some (base_hostname b)
        end
      else Some (base_hostname b)
  | [] => Some (base_hostname b)
  end.

(** The no scheme state. *)
Definition no_scheme_state (P : Platform) (base : option BaseURL) (input : jsstring) : option jsstring :=
  match base with
  | None => None
  | Some b =>
      if base_has_opaque_path b then
        if startsWith (str "#") input then Some (base_hostname b) else None
      else if JS.eqb (base_scheme b) (str "file") then file_state P base input
      else relative_state P b input
  end.

(** The basic URL parser: the host of the parsed URL as the [hostname]
    getter returns it (the empty string for a URL with no host), or
    failure. *)
Definition basic_URL_parse (P : Platform) (base : option BaseURL) (input : jsstring) : option jsstring :=
  let input := preprocess input in
  match parse_scheme input with
  | None => no_scheme_state P base input
  | Some (scheme, remaining) =>
      if JS.eqb scheme (str "file") then file_state P base remaining
      else if is_special scheme then
        match base with
        | Some b =>
            if JS.eqb (base_scheme b) scheme then
              if startsWith (str "//") remaining
              then parse_authority P true (skip_slashes (skipn 2 remaining))
              else relative_state P b remaining
            else parse_authority P true (skip_slashes remaining)
        | None => parse_authority P true (skip_slashes remaining)
        end
      else
        match remaining with
        | c :: r =>
            if c =? ch "/" then
              match r with
              | d :: r' => if d =? ch "/" then parse_authority P false r' else Some []
              | [] => Some []
              end
            else Some []
        | [] => Some []
        end
  end.

(** [new URL(input)]: a URL object, or a [TypeError]. *)
Definition new_URL (P : Platform) (input : jsstring) : result Header.URL_object :=
  match basic_URL_parse P None input with
  | Some host => Returns {| Header.hostname := host |}
  | None => Throws
  end.

End WHATWG.

(* ================================================================== *)
(** * Tool descriptors *)
(* ================================================================== *)

Module Types.

Import JS.

Inductive ToolCategory : Type :=
| Favorites | Appraisal | Spam | WHOIS | SocialMedia | Google | DNSHistory
| ExtraTools | Trademark | DomainGenerator.

(** The two values of [urlType]; the field is optional. *)
Inductive UrlType : Type := domain | domain_name.

(** A tool of the catalog (its icon, a component, is left out). *)
Record Tool : Type := {
  id : jsstring;
  title : jsstring;
  description : jsstring;
  urlTemplate : jsstring;
  urlType : option UrlType;
  category : ToolCategory
}.

End Types.

(* ================================================================== *)
(** * The tool card: generating the link of one tool *)
(* ================================================================== *)

Module ToolCard.

Import JS Types.

Inductive Status : Type := idle | loading | error.

(** The state of a card the effect writes. *)
Record CardState : Type := { status : Status; finalUrl : jsstring }.

(** [fullDomain.split('.')[0] || fullDomain] when the type is
    [domain_name], the full domain otherwise. *)
Definition getDomainPart (fullDomain : jsstring) (type : option UrlType) : jsstring :=
  match type with
  | Some domain_name =>
      let first := hd [] (split (ch ".") fullDomain) in
      if is_empty first then fullDomain else first
  | _ => fullDomain
  end.

(** The template with its two tokens replaced. *)
Definition card_url (tool : Tool) (domain : jsstring) : jsstring :=
  let domainPart := getDomainPart domain (urlType tool) in
  replace (str "{{DOMAIN_NAME}}") domainPart
    (replace (str "{{DOMAIN}}") domain (urlTemplate tool)).

Section Effect.

Variable new_URL : jsstring -> result Header.URL_object.

(** The effect that runs when the tool or the domain changes. *)
Definition generate (tool : Tool) (domain : jsstring) : result CardState :=
  try_catch
    (let url := card_url tool domain in
     _ <- new_URL url ;;
     Returns {| status := idle; finalUrl := url |})
    (Returns {| status := error; finalUrl := str "#" |}).

End Effect.

End ToolCard.

(* ================================================================== *)
(** * The dashboard: opening the selected tools *)
(* ================================================================== *)

Module Dashboard.

Import JS Types.

(** What the handler does to the outside: the URLs handed to [window.open]
    that it opened, and the titles of the tools it logged an error for, both
    in the order of the calls. *)
Record Effects : Type := { opened : list jsstring; logged : list jsstring }.

Definition no_effects : Effects := {| opened := []; logged := [] |}.

(** The URL the loop builds for a tool: the domain part is chosen with a
    conditional expression written in the loop itself. *)
Definition batch_url (tool : Tool) (domain : jsstring) : jsstring :=
  let domainPart :=
    match urlType tool with
    | Some domain_name =>
        let first := hd [] (split (ch ".") domain) in
        if is_empty first then domain else first
    | _ => domain
    end in
  replace (str "{{DOMAIN_NAME}}") domainPart
    (replace (str "{{DOMAIN}}") domain (urlTemplate tool)).

Section OpenSelected.

(** The catalog (the constant [TOOLS] of the constants module, taken as a
    parameter), and the platform's [window.open(url, '_blank', ...)]: it
    throws a [SyntaxError] when the URL cannot be parsed. *)
Variable TOOLS : list Tool.
Variable window_open : jsstring -> result unit.

(** [TOOLS.find(t => t.id === toolId)]. *)
Definition find_tool (toolId : jsstring) : option Tool :=
  find (fun t => JS.eqb (id t) toolId) TOOLS.

(** The body of the [forEach] callback. *)
Definition open_one (domain : jsstring) (w : Effects) (toolId : jsstring) : Effects :=
  match find_tool toolId with
  | None => w
  | Some tool =>
      let url := batch_url tool domain in
      match window_open url with
      | Returns _ => {| opened := opened w ++ [url]; logged := logged w |}
      | Throws => {| opened := opened w; logged := logged w ++ [title tool] |}
      end
  end.

Definition handleOpenSelected (selectedTools : list jsstring) (domain : jsstring) : Effects :=
  fold_left (open_one domain) selectedTools no_effects.

End OpenSelected.

(** [window.open] in a document whose base URL is [base]: the URL is parsed
    against the base, and the call throws when parsing fails; the empty
    string opens a blank page. *)
Definition window_open_in (P : WHATWG.Platform) (base : WHATWG.BaseURL) (url : jsstring) : result unit :=
  if is_empty url then Returns tt
  else
    match WHATWG.basic_URL_parse P (Some base) url with
    | Some _ => Returns tt
    | None => Throws
    end.

End Dashboard.

(* ================================================================== *)
(** * The application shell: loading the favorites *)
(* ================================================================== *)

Module App.

Import JS.
Local Open Scope N_scope.

(** ** JSON values and [JSON.parse]

    [JSON.parse] is the platform's; it is modelled from the JSON grammar.
    A number keeps the text of its literal. *)
#[warnings="-register-all"]
Inductive json : Type :=
| JNull : json
| JBool : bool -> json
| JNumber : jsstring -> json
| JString : jsstring -> json
| JArray : list json -> json
| JObject : list (jsstring * json) -> json.

Definition is_json_ws (c : N) : bool := (c =? 32) || (c =? 9) || (c =? 10) || (c =? 13).

Fixpoint skip_ws (s : jsstring) : jsstring :=
  match s with
  | [] => []
  | c :: s' => if is_json_ws c then skip_ws s' else s
  end.

Definition cons_fst {A B : Type} (a : A) (r : option (list A * B)) : option (list A * B) :=
  match r with
  | Some (l, b) => Some (a :: l, b)
  | None => None
  end.

Definition escape_char (e : N) : option N :=
  if (e =? dquote) || (e =? ch "\") || (e =? ch "/") then Some e
  else if e =? ch "b" then Some 8
  else if e =? ch "f" then Some 12
  else if e =? ch "n" then Some 10
  else if e =? ch "r" then Some 13
  else if e =? ch "t" then Some 9
  else None.

Definition hex4 (a b c d : N) : option N :=
  match WHATWG.hex_value a, WHATWG.hex_value b, WHATWG.hex_value c, WHATWG.hex_value d with
  | Some w, Some x, Some y, Some z => Some (((w * 16 + x) * 16 + y) * 16 + z)
  | _, _, _, _ => None
  end.

(** The code units of a string literal after its opening quote, and what
    follows the closing quote. *)
Fixpoint parse_string_chars (s : jsstring) : option (jsstring * jsstring) :=
  match s with
  | [] => None
  | c :: r =>
      if c =? dquote then Some ([], r)
      else if c =? ch "\" then
        match r with
        | e :: r' =>
            if e =? ch "u" then
              match r' with
              | h1 :: h2 :: h3 :: h4 :: r'' =>
                  match hex4 h1 h2 h3 h4 with
                  | Some u => cons_fst u (parse_string_chars r'')
                  | None => None
                  end
              | _ => None
              end
            else
              match escape_char e with
              | Some x => cons_fst x (parse_string_chars r')
              | None => None
              end
        | [] => None
        end
      else if c <? 32 then None
      else cons_fst c (parse_string_chars r)
  end.

(** A number literal: sign, integer part, fraction, exponent. *)
Definition parse_digits1 (s : jsstring) : option (jsstring * jsstring) :=
  let (ds, r) := WHATWG.span is_digit s in
  if is_empty ds then None else Some (ds, r).

Definition parse_number (s : jsstring) : option (jsstring * jsstring) :=
  let (sign, s1) :=
    match s with
    | c :: r => if c =? ch "-" then ([c], r) else ([], s)
    | [] => ([], s)
    end in
  let int :=
    match s1 with
    | c :: r => if c =? ch "0" then Some ([c], r) else parse_digits1 s1
    | [] => None
    end in
  match int with
  | None => None
  | Some (i, s2) =>
      let frac :=
        match s2 with
        | c :: r =>
            if c =? ch "." then option_map (fun p => (c :: fst p, snd p)) (parse_digits1 r)
            else Some ([], s2)
        | [] => Some ([], s2)
        end in
      match frac with
      | None => None
      | Some (f, s3) =>
          let exp :=
            match s3 with
            | c :: r =>
                if (c =? ch "e") || (c =? ch "E") then
                  let (sg, r') :=
                    match r with
                    | d :: t => if (d =? ch "+") || (d =? ch "-") then ([d], t) else ([], r)
                    | [] => ([], r)
                    end in
                  option_map (fun p => (c :: sg ++ fst p, snd p)) (parse_digits1 r')
                else Some ([], s3)
            | [] => Some ([], s3)
            end in
          option_map (fun p => (sign ++ i ++ f ++ fst p, snd p)) exp
      end
  end.

(** Values, the elements of an array after its bracket or a comma, and the
    members of an object after its brace or a comma. The fuel bounds the
    number of nested calls; [JSON_parse] gives two per code unit, and each
    call after the first follows a code unit of the text. *)
Fixpoint parse_value (fuel : nat) (s : jsstring) : option (json * jsstring) :=
  match fuel with
  | O => None
  | S fuel' =>
      match skip_ws s with
      | [] => None
      | c :: r =>
          if c =? ch "{" then
            match skip_ws r with
            | d :: r' =>
                if d =? ch "}" then Some (JObject [], r')
                else option_map (fun p => (JObject (fst p), snd p)) (parse_members fuel' r)
            | [] => None
            end
          else if c =? ch "[" then
            match skip_ws r with
            | d :: r' =>
                if d =? ch "]" then Some (JArray [], r')
                else option_map (fun p => (JArray (fst p), snd p)) (parse_elements fuel' r)
            | [] => None
            end
          else if c =? dquote then
            option_map (fun p => (JString (fst p), snd p)) (parse_string_chars r)
          else if startsWith (str "true") (c :: r) then Some (JBool true, skipn 4 (c :: r))
          else if startsWith (str "false") (c :: r) then Some (JBool false, skipn 5 (c :: r))
          else if startsWith (str "null") (c :: r) then Some (JNull, skipn 4 (c :: r))
          else option_map (fun p => (JNumber (fst p), snd p)) (parse_number (c :: r))
      end
  end
with parse_elements (fuel : nat) (s : jsstring) : option (list json * jsstring) :=
  match fuel with
  | O => None
  | S fuel' =>
      match parse_value fuel' s with
      | None => None
      | Some (v, r) =>
          match skip_ws r with
          | c :: r' =>
              if c =? ch "," then cons_fst v (parse_elements fuel' r')
              else if c =? ch "]" then Some ([v], r')
              else None
          | [] => None
          end
      end
  end
with parse_members (fuel : nat) (s : jsstring) : option (list (jsstring * json) * jsstring) :=
  match fuel with
  | O => None
  | S fuel' =>
      match skip_ws s with
      | q :: r0 =>
          if q =? dquote then
            match parse_string_chars r0 with
            | None => None
            | Some (key, r1) =>
                match skip_ws r1 with
                | colon :: r2 =>
                    if colon =? ch ":" then
                      match parse_value fuel' r2 with
                      | None => None
                      | Some (v, r3) =>
                          match skip_ws r3 with
                          | c :: r4 =>
                              if c =? ch "," then cons_fst (key, v) (parse_members fuel' r4)
                              else if c =? ch "}" then Some ([(key, v)], r4)
                              else None
                          | [] => None
                          end
                      end
                    else None
                | [] => None
                end
            end
          else None
      | [] => None
      end
  end.

(** [JSON.parse(text)]: the value, or a [SyntaxError]. *)
Definition JSON_parse (text : jsstring) : result json :=
  match parse_value (2 * length text + 2) text with
  | Some (v, r) => if is_empty (skip_ws r) then Returns v else Throws
  | None => Throws
  end.

(** ** The effect that loads the favorites

    [stored] is what [localStorage.getItem('domainToolFavorites')] does:
    it returns the stored text, or [null] for an absent entry, or throws
    when the storage cannot be read. The state starts as the empty array. *)
Definition initial_favorites : json := JArray [].

Definition load_favorites (stored : result (option jsstring)) : json :=
  let loaded :=
    try_catch
      (storedFavorites <- stored ;;
       match storedFavorites with
       | Some text =>
           if is_empty text then Returns initial_favorites
           else (v <- JSON_parse text ;; Returns v)
       | None => Returns initial_favorites
       end)
      (Returns (JArray [])) in
  match loaded with
  | Returns favorites => favorites
  | Throws => initial_favorites
  end.

End App.

(* ================================================================== *)
(** * The documented behaviour *)
(* ================================================================== *)

(** Definitions that follow the words of the specification, to compare the
    code with. *)
Module Documented.

Import JS Header.
Local Open Scope N_scope.

Definition too_long (label : jsstring) : bool := (63 <? length label)%nat.

Definition hyphen_edge (label : jsstring) : bool :=
  startsWith (str "-") label || endsWith (str "-") label.

(** The ten rules of [validate] in the documented order: rule 6 looks at
    every label before rule 7 looks at any. *)
Definition validate_documented (domain : jsstring) : option jsstring :=
  let t := trim domain in
  if is_empty t then Some msg_missing
  else if (253 <? length t)%nat then Some msg_too_long
  else if has_invalid_char t then Some msg_invalid_chars
  else if negb (includes (str ".") t) then Some msg_missing_tld
  else
    let labels := split (ch ".") t in
    if existsb (fun label => (length label =? 0)%nat) labels then Some msg_periods
    else
      match find too_long labels with
      | Some label => Some (msg_label_too_long label)
      | None =>
          if existsb hyphen_edge labels then Some msg_hyphen
          else if test numericRegex (last labels []) then Some msg_numeric_tld
          else if negb (test domainRegex t) then Some msg_invalid_format
          else None
      end.

(** The labels that stand before the first label of more than 63 code
    units; all of them when no label is that long. *)
Fixpoint before_too_long (labels : list jsstring) : list jsstring :=
  match labels with
  | [] => []
  | label :: rest => if too_long label then [] else label :: before_too_long rest
  end.

(** Replacing the first occurrence of a token by a text, the text taken as
    it is. *)
Fixpoint replace_first (token text s : jsstring) : jsstring :=
  if startsWith token s then text ++ skipn (length token) s
  else match s with
       | [] => []
       | c :: s' => c :: replace_first token text s'
       end.

(** What stands before the first period of a string. *)
Definition before_first_period (s : jsstring) : jsstring :=
  fst (WHATWG.span (fun c => negb (c =? ch ".")) s).

(** The domain part as documented: for [domain_name], what stands before
    the first period, or the full domain when there is no period or nothing
    stands before it; the full domain otherwise. *)
Definition domainPart_documented (type : option Types.UrlType) (domain : jsstring) : jsstring :=
  match type with
  | Some Types.domain_name =>
      if negb (includes (str ".") domain) then domain
      else if is_empty (before_first_period domain) then domain
      else before_first_period domain
  | _ => domain
  end.

(** The substitution as documented. *)
Definition substitute_documented (tool : Types.Tool) (domain : jsstring) : jsstring :=
  replace_first (str "{{DOMAIN_NAME}}") (domainPart_documented (Types.urlType tool) domain)
    (replace_first (str "{{DOMAIN}}") domain (Types.urlTemplate tool)).

(** ** Inputs of the sanitizer with a plain host

    An input is read as a scheme, a [www.] prefix, a host and a suffix. *)

(** The last label starts with a letter. *)
Definition last_label_alpha (h : jsstring) : bool :=
  match last (split (ch ".") h) [] with
  | c :: _ => is_alpha c
  | [] => false
  end.

(** A plain host: code units of [[a-zA-Z0-9.-]] only, a last label that
    starts with a letter, no label that starts with [xn--], and no [www.]
    at its start. *)
Definition plain_host (h : jsstring) : bool :=
  forallb domain_char h
  && last_label_alpha h
  && negb (WHATWG.has_punycode_label h)
  && negb (startsWith (str "www.") (map WHATWG.ascii_lower h)).

(** The special schemes that name a host on the network. *)
Definition web_schemes : list jsstring :=
  [str "http"; str "https"; str "ftp"; str "ws"; str "wss"].

(** No scheme, or one of these schemes in any case, followed by [://]. *)
Definition is_scheme_prefix (s : jsstring) : bool :=
  is_empty s
  || existsb (fun name => JS.eqb (map WHATWG.ascii_lower s) (name ++ str "://"))
             web_schemes.

(** No prefix, or [www.] in any case. *)
Definition is_www_prefix (w : jsstring) : bool :=
  is_empty w || JS.eqb (map WHATWG.ascii_lower w) (str "www.").

(** No suffix, or a path, or a query or fragment; a query or fragment
    after an input with no scheme must not hold [://]. *)
Definition suffix_ok (scheme suffix : jsstring) : bool :=
  match suffix with
  | [] => true
  | c :: _ =>
      (c =? ch "/")
      || (((c =? ch "?") || (c =? ch "#"))
          && (negb (is_empty scheme) || negb (includes (str "://") suffix)))
  end.

End Documented.

(* ================================================================== *)
(** * Vocabulary of the proofs about the parser *)
(* ================================================================== *)

Module Scan.

Import JS Header WHATWG Documented.
Local Open Scope N_scope.

(** A string stops a scan when it is empty or starts with a code unit the
    scan does not take. *)
Definition stops (q : N -> bool) (b : jsstring) : Prop :=
  match b with
  | [] => True
  | c :: _ => q c = false
  end.

(** What preprocessing leaves of the text after a clean prefix. *)
Definition cleaned (f : jsstring) : jsstring :=
  filter (fun c => negb (is_tab_or_newline c)) (strip_trailing f).

(** The three conditions under which the host parser is followed here. *)
Definition parsable (d : jsstring) : Prop :=
  Forall (fun c => domain_char c = true) d
  /\ last_label_alpha d = true
  /\ has_punycode_label d = false.

(** The scan that stops at a colon or a slash. *)
Definition before_colon_or_slash (c : N) : bool :=
  negb ((c =? ch ":") || (c =? ch "/")).

End Scan.

(* ================================================================== *)
(** * The header: the search form *)
(* ================================================================== *)

Module HeaderForm.

Import JS Header.

(** The state of the component. A handler returns the new state and the
    domains it hands to [onDomainSubmit], in the order of the calls. *)
Record FormState : Type := { inputValue : jsstring; error : jsstring }.

Definition initial : FormState := {| inputValue := []; error := [] |}.

Section Handlers.

Variable new_URL : jsstring -> result URL_object.

(** [if (errorMessage)] takes a message that is a non-empty string. *)
Definition handleSearchClick (st : FormState) : result (FormState * list jsstring) :=
  sanitizedDomain <- sanitizeDomain new_URL (inputValue st) ;;
  let submit :=
    Returns ({| inputValue := inputValue st; error := [] |}, [sanitizedDomain]) in
  match validateDomain sanitizedDomain with
  | Some errorMessage =>
      if is_empty errorMessage then submit
      else Returns ({| inputValue := inputValue st; error := errorMessage |}, [])
  | None => submit
  end.

Definition handleFormSubmit (st : FormState) : result (FormState * list jsstring) :=
  handleSearchClick st.

Definition handleInputChange (newValue : jsstring) (st : FormState)
  : FormState * list jsstring :=
  ({| inputValue := newValue;
      error := if is_empty (error st) then error st else [] |},
   if is_empty newValue then [[]] else []).

Definition handleClearInput (st : FormState) : FormState * list jsstring :=
  ({| inputValue := []; error := [] |}, [[]]).

(** What the user does to the form. The button that clears the input is
    rendered when the input is not empty. *)
Inductive Event : Type :=
| Typed (newValue : jsstring)
| Submitted
| Cleared.

Definition handle (e : Event) (st : FormState) : result (FormState * list jsstring) :=
  match e with
  | Typed newValue => Returns (handleInputChange newValue st)
  | Submitted => handleFormSubmit st
  | Cleared =>
      if is_empty (inputValue st) then Returns (st, []) else Returns (handleClearInput st)
  end.

Fixpoint run (events : list Event) (st : FormState) : result (FormState * list jsstring) :=
  match events with
  | [] => Returns (st, [])
  | e :: rest =>
      r <- handle e st ;;
      r' <- run rest (fst r) ;;
      Returns (fst r', snd r ++ snd r')
  end.

End Handlers.

End HeaderForm.

(* ================================================================== *)
(** * The shell: the researched domain and the favorites *)
(* ================================================================== *)

Module Shell.

Import JS.
Local Open Scope N_scope.

(** The state [handleDomainSubmit] writes, with the path it navigates to. *)
Record ShellState : Type := {
  researchedDomain : jsstring;
  activeTab : jsstring;
  path : jsstring
}.

Definition initial : ShellState :=
  {| researchedDomain := []; activeTab := str "All"; path := str "/" |}.

Definition handleDomainSubmit (st : ShellState) (domain : jsstring) : ShellState :=
  {| researchedDomain := domain; activeTab := str "All"; path := str "/" |}.

(** [prev.includes(x)] on an array of strings. *)
Definition array_includes (l : list jsstring) (x : jsstring) : bool :=
  existsb (fun y => JS.eqb y x) l.

Definition handleToggleFavorite (toolId : jsstring) (prevFavorites : list jsstring)
  : list jsstring :=
  if array_includes prevFavorites toolId
  then filter (fun id => negb (JS.eqb id toolId)) prevFavorites
  else prevFavorites ++ [toolId].

(** ** [JSON.stringify] of an array of strings

    The platform's, modelled from the language standard (QuoteJSONString
    and SerializeJSONArray with no indentation): seven code units have a
    short escape, the other code units below U+0020 and the surrogates
    without a partner are written as [\u] and four lower-case hexadecimal
    digits, every other code unit stands for itself. *)
Definition lower_hex (d : N) : N := if d <? 10 then 48 + d else 87 + d.

Definition UnicodeEscape (c : N) : jsstring :=
  str "\u" ++ [lower_hex (c / 4096); lower_hex ((c / 256) mod 16);
               lower_hex ((c / 16) mod 16); lower_hex (c mod 16)].

Definition short_escape (c : N) : option N :=
  if c =? 8 then Some (ch "b")
  else if c =? 9 then Some (ch "t")
  else if c =? 10 then Some (ch "n")
  else if c =? 12 then Some (ch "f")
  else if c =? 13 then Some (ch "r")
  else if c =? dquote then Some dquote
  else if c =? ch "\" then Some (ch "\")
  else None.

Fixpoint quote_units (s : jsstring) : jsstring :=
  match s with
  | [] => []
  | c :: r =>
      match short_escape c with
      | Some e => ch "\" :: e :: quote_units r
      | None =>
          if c <? 32 then UnicodeEscape c ++ quote_units r
          else if WHATWG.is_lead_surrogate c then
            match r with
            | d :: r' =>
                if WHATWG.is_trail_surrogate d then c :: d :: quote_units r'
                else UnicodeEscape c ++ quote_units r
            | [] => UnicodeEscape c
            end
          else if WHATWG.is_trail_surrogate c then UnicodeEscape c ++ quote_units r
          else c :: quote_units r
      end
  end.

Definition QuoteJSONString (s : jsstring) : jsstring :=
  dquote :: quote_units s ++ [dquote].

Definition JSON_stringify (favorites : list jsstring) : jsstring :=
  str "[" ++ join (ch ",") (map QuoteJSONString favorites) ++ str "]".

(** The effect that saves the favorites: the text it writes under the key
    [domainToolFavorites]. *)
Definition save_favorites (favorites : list jsstring) : jsstring :=
  JSON_stringify favorites.

End Shell.

(* ================================================================== *)
(** * The dashboard: the view and the selection *)
(* ================================================================== *)

Module Selection.

Import JS Types.

(** The strings of [ToolCategory]. *)
Definition category_name (c : ToolCategory) : jsstring :=
  match c with
  | Favorites => str "Favorites"
  | Appraisal => str "Appraisal"
  | Spam => str "Spam"
  | WHOIS => str "WHOIS"
  | SocialMedia => str "Social Media"
  | Google => str "Google"
  | DNSHistory => str "DNS History"
  | ExtraTools => str "Extra Tools"
  | Trademark => str "Trademark"
  | DomainGenerator => str "Domain Generator"
  end.

(** A [Set] of strings keeps its elements in the order they were first
    added; [Array.from] and the spread read them in that order. *)
Definition Set_has (s : list jsstring) (x : jsstring) : bool :=
  existsb (fun y => JS.eqb y x) s.

Definition Set_add (s : list jsstring) (x : jsstring) : list jsstring :=
  if Set_has s x then s else s ++ [x].

Definition new_Set (elements : list jsstring) : list jsstring :=
  fold_left Set_add elements [].

(** The state of the dashboard. *)
Record DashboardState : Type := {
  isMultiOpen : bool;
  selectedTools : list jsstring
}.

Definition initial : DashboardState := {| isMultiOpen := false; selectedTools := [] |}.

Definition handleToggleMultiOpen (st : DashboardState) : DashboardState :=
  {| isMultiOpen := negb (isMultiOpen st);
     selectedTools := if isMultiOpen st then [] else selectedTools st |}.

Definition handleSelectTool (toolId : jsstring) (st : DashboardState) : DashboardState :=
  {| isMultiOpen := isMultiOpen st;
     selectedTools :=
       if Shell.array_includes (selectedTools st) toolId
       then filter (fun id => negb (JS.eqb id toolId)) (selectedTools st)
       else selectedTools st ++ [toolId] |}.

Section View.

(** The catalog, and the properties of the dashboard that choose the
    view. *)
Variable TOOLS : list Tool.
Variable activeTab : jsstring.
Variable favorites : list jsstring.

Definition filteredTools : list Tool :=
  if JS.eqb activeTab (str "All") then TOOLS
  else if JS.eqb activeTab (str "Favorites")
  then filter (fun tool => Shell.array_includes favorites (id tool)) TOOLS
  else filter (fun tool => JS.eqb (category_name (category tool)) activeTab) TOOLS.

Definition handleSelectAll (st : DashboardState) : DashboardState :=
  let currentToolIds := map id filteredTools in
  {| isMultiOpen := isMultiOpen st;
     selectedTools := new_Set (selectedTools st ++ currentToolIds) |}.

Definition handleDeselectAll (st : DashboardState) : DashboardState :=
  let currentToolIds := new_Set (map id filteredTools) in
  {| isMultiOpen := isMultiOpen st;
     selectedTools := filter (fun id => negb (Set_has currentToolIds id)) (selectedTools st) |}.

Definition areAllSelected (st : DashboardState) : bool :=
  let currentToolIds := map id filteredTools in
  let selectedToolsSet := new_Set (selectedTools st) in
  (0 <? length currentToolIds)%nat
  && forallb (fun id => Set_has selectedToolsSet id) currentToolIds.

Definition handleToggleSelectAll (st : DashboardState) : DashboardState :=
  if areAllSelected st then handleDeselectAll st else handleSelectAll st.

End View.

End Selection.

(* ================================================================== *)
(** * The tool card: clicks *)
(* ================================================================== *)

Module CardEvents.

Import JS Types ToolCard.

(** What a click does: whether the default action of the link (opening
    [finalUrl] in a new tab) is prevented, the calls of [onSelectTool], the
    status the card is left in, and whether the timer that sets the status
    back to idle is started. *)
Record Outcome : Type := {
  prevented : bool;
  selected : list jsstring;
  next_status : Status;
  timer_started : bool
}.

Definition is_error (s : Status) : bool :=
  match s with error => true | _ => false end.

(** [onSelectTool?.(tool.id)]: the property is optional. *)
Definition call_onSelectTool (given : bool) (tool : Tool) : list jsstring :=
  if given then [id tool] else [].

Definition handleCardClick (tool : Tool) (isMultiOpen onSelectTool : bool) (st : CardState)
  : Outcome :=
  if is_error (status st) then
    {| prevented := true; selected := []; next_status := status st; timer_started := false |}
  else if isMultiOpen then
    {| prevented := true; selected := call_onSelectTool onSelectTool tool;
       next_status := status st; timer_started := false |}
  else if is_empty (finalUrl st) || JS.eqb (finalUrl st) (str "#") then
    {| prevented := true; selected := []; next_status := status st; timer_started := false |}
  else
    {| prevented := false; selected := []; next_status := loading; timer_started := true |}.

Definition handleCheckboxChange (tool : Tool) (onSelectTool : bool) (st : CardState)
  : list jsstring :=
  if negb (is_error (status st)) then call_onSelectTool onSelectTool tool else [].

End CardEvents.

(* ================================================================== *)
(** * The dashboard: what the user can do to the selection *)
(* ================================================================== *)

Module DashboardEvents.

Import JS Types Selection.

(** The calls of [onSelectTool] a card makes reach [handleSelectTool]. *)
Definition select_calls (calls : list jsstring) (st : DashboardState) : DashboardState :=
  fold_left (fun s toolId => handleSelectTool toolId s) calls st.

Section Steps.

Variable TOOLS : list Tool.

(** One event of the dashboard. The switch is always there; a card is
    rendered for each tool of the view, whatever the tab and the favorites
    are at the time, and its state is its own; the checkbox of a card and
    the button that selects all are rendered in multi-open mode, the button
    for a view that is not empty. *)
Inductive step : DashboardState -> DashboardState -> Prop :=
| step_switch (st : DashboardState) :
    step st (handleToggleMultiOpen st)
| step_card_click (st : DashboardState) (activeTab : jsstring) (favorites : list jsstring)
    (tool : Tool) (card : ToolCard.CardState) :
    In tool (filteredTools TOOLS activeTab favorites) ->
    step st
      (select_calls
         (CardEvents.selected (CardEvents.handleCardClick tool (isMultiOpen st) true card))
         st)
| step_checkbox (st : DashboardState) (activeTab : jsstring) (favorites : list jsstring)
    (tool : Tool) (card : ToolCard.CardState) :
    isMultiOpen st = true ->
    In tool (filteredTools TOOLS activeTab favorites) ->
    step st (select_calls (CardEvents.handleCheckboxChange tool true card) st)
| step_select_all (st : DashboardState) (activeTab : jsstring) (favorites : list jsstring) :
    isMultiOpen st = true ->
    filteredTools TOOLS activeTab favorites <> [] ->
    step st (handleToggleSelectAll TOOLS activeTab favorites st).

Inductive reachable : DashboardState -> Prop :=
| reachable_initial : reachable initial
| reachable_step (st st' : DashboardState) :
    reachable st -> step st st' -> reachable st'.

End Steps.

(** What holds of the selection in every state that can be reached. *)
Definition selection_ok (TOOLS : list Tool) (st : DashboardState) : Prop :=
  (isMultiOpen st = false -> selectedTools st = [])
  /\ NoDup (selectedTools st)
  /\ forall x,
       In x (selectedTools st) ->
       exists tool,
         Dashboard.find_tool TOOLS x = Some tool /\ id tool = x /\ In tool TOOLS.

End DashboardEvents.

(* ================================================================== *)
(** * The navigation bar: how many tabs are shown *)
(* ================================================================== *)

Module Navbar.

Local Open Scope Z_scope.

Definition moreButtonWidth : Z := 85.

(** [tabRefs.current[i]]: the width of the measured tab, when there is
    one. *)
Definition tab_at (tabRefs : list (option Z)) (i : nat) : option Z :=
  match nth_error tabRefs i with
  | Some (Some tabWidth) => Some tabWidth
  | _ => None
  end.

(** The loop from index [i] on, with [steps] indices left. *)
Fixpoint visible_loop (containerWidth : Z) (categories_length : nat)
    (tabRefs : list (option Z)) (steps i : nat) (currentWidth : Z) (newVisibleCount : nat)
  : nat :=
  match steps with
  | O => newVisibleCount
  | S steps' =>
      match tab_at tabRefs i with
      | Some tabWidth =>
          let requiresMoreButton := Z.of_nat i <? Z.of_nat categories_length - 1 in
          let spaceNeeded :=
            currentWidth + tabWidth + (if requiresMoreButton then moreButtonWidth else 0) in
          if spaceNeeded <=? containerWidth then
            visible_loop containerWidth categories_length tabRefs steps' (S i)
              (currentWidth + tabWidth) (S i)
          else newVisibleCount
      | None =>
          visible_loop containerWidth categories_length tabRefs steps' (S i)
            currentWidth newVisibleCount
      end
  end.

(** The count [calculateVisibleTabs] sets; the container may not be
    mounted, and then the count is left as it was. *)
Definition calculateVisibleTabs (container : option Z) (categories_length : nat)
    (tabRefs : list (option Z)) (prevCount : nat) : nat :=
  match container with
  | None => prevCount
  | Some containerWidth =>
      visible_loop containerWidth categories_length tabRefs categories_length 0 0 0
  end.

(** The tabs shown and the tabs of the dropdown. *)
Definition visible_tabs {A : Type} (categories : list A) (visibleCount : nat) : list A :=
  firstn visibleCount categories.

Definition dropdownCategories {A : Type} (categories : list A) (visibleCount : nat) : list A :=
  skipn visibleCount categories.

(** The width the measured tabs before index [k] take. *)
Definition width_before (tabRefs : list (option Z)) (k : nat) : Z :=
  fold_right (fun i acc => match tab_at tabRefs i with
                           | Some w => w + acc
                           | None => acc
                           end) 0 (seq 0 k).

End Navbar.

(* ================================================================== *)
(** * The shape of the domains the validator accepts *)
(* ================================================================== *)

Module Shape.

Import JS Header.
Local Open Scope N_scope.

(** A label of a host name: one to sixty-three letters, digits and
    hyphens, with no hyphen at either end. *)
Definition label_ok (l : jsstring) : Prop :=
  l <> [] /\ (length l <= 63)%nat
  /\ Forall (fun c => alnum_or_hyphen c = true) l
  /\ hd 0 l <> ch "-" /\ last l 0 <> ch "-".

(** A top-level label: a letter, then at least one more code unit. *)
Definition tld_ok (l : jsstring) : Prop :=
  exists c r, l = c :: r /\ is_alpha c = true /\ r <> [].

(** A domain name: at most 253 code units, two labels or more, the last
    one a top-level label. *)
Definition domain_ok (t : jsstring) : Prop :=
  (length t <= 253)%nat
  /\ (2 <= length (split (ch ".") t))%nat
  /\ Forall label_ok (split (ch ".") t)
  /\ tld_ok (last (split (ch ".") t) []).

End Shape.

(* ================================================================== *)
(** * Facts about the string built-ins *)
(* ================================================================== *)

Section StringFacts.

Import JS.
Local Open Scope N_scope.

Lemma startsWith_app (p s : jsstring) : startsWith p (p ++ s) = true.
Proof.
  induction p as [|x p IH]; simpl; [reflexivity|].
  now rewrite N.eqb_refl, IH.
Qed.

Lemma startsWith_inv (p s : jsstring) :
  startsWith p s = true -> s = p ++ skipn (length p) s.
Proof.
  revert s; induction p as [|x p IH]; intros s H; simpl in *; [reflexivity|].
  destruct s as [|y s]; [discriminate|].
  apply andb_true_iff in H as [Hxy Hp].
  apply N.eqb_eq in Hxy; subst y.
  simpl. f_equal. now apply IH.
Qed.

(** Searching for one code unit. *)
Lemma indexOf_from_unit (c : N) (s : jsstring) (i : Z) :
  (0 <= i)%Z ->
  (0 <=? indexOf_from [c] s i)%Z = existsb (N.eqb c) s.
Proof.
  revert i; induction s as [|x s IH]; intros i Hi; simpl.
  - reflexivity.
  - destruct (c =? x) eqn:E; simpl.
    + now apply Z.leb_le.
    + apply IH; lia.
Qed.

Lemma includes_unit (c : N) (s : jsstring) :
  includes [c] s = true <-> In c s.
Proof.
  unfold includes, indexOf. rewrite indexOf_from_unit by lia.
  rewrite existsb_exists. split.
  - intros [x [Hin Hx]]. apply N.eqb_eq in Hx. now subst.
  - intros Hin. exists c. split; [assumption | apply N.eqb_refl].
Qed.

(** [split] gives at least one piece. *)
Lemma split_nonempty (sep : N) (s : jsstring) : split sep s <> [].
Proof.
  destruct s as [|c s]; simpl; [discriminate|].
  destruct (c =? sep); [discriminate|].
  destruct (split sep s); discriminate.
Qed.

(** The pieces of [split] joined with the separator give the string back. *)
Lemma join_split (sep : N) (s : jsstring) : join sep (split sep s) = s.
Proof.
  induction s as [|c s IH]; [reflexivity|].
  simpl. destruct (c =? sep) eqn:E.
  - apply N.eqb_eq in E. subst c.
    pose proof (split_nonempty sep s) as Hne.
    destruct (split sep s) as [|l ls]; [contradiction|].
    simpl in *. now rewrite IH.
  - pose proof (split_nonempty sep s) as Hne.
    destruct (split sep s) as [|l ls]; [contradiction|].
    destruct ls; simpl in *; now rewrite <- IH.
Qed.

(** Splitting a string that continues after a separator. *)
Lemma split_app_sep (sep : N) (a b : jsstring) :
  ~ In sep a -> split sep (a ++ sep :: b) = a :: split sep b.
Proof.
  induction a as [|c a IH]; intros H; simpl.
  - now rewrite N.eqb_refl.
  - destruct (c =? sep) eqn:E.
    + apply N.eqb_eq in E. subst. exfalso. apply H. now left.
    + rewrite IH; [reflexivity|]. intros Hin. apply H. now right.
Qed.

(** One step of [trimEnd]. *)
Lemma trimEnd_cons (c : N) (s : jsstring) :
  trimEnd (c :: s) = match trimEnd s with
                     | [] => if is_whitespace c then [] else [c]
                     | _ :: _ => c :: trimEnd s
                     end.
Proof. reflexivity. Qed.

End StringFacts.

(* ================================================================== *)
(** * The validator *)
(* ================================================================== *)

Section RegexFacts.

Import JS.
Local Open Scope N_scope.

(** Taking a match of a sequence apart. *)
Lemma matches_seq_inv (a b : regex) (w : jsstring) :
  matches (Seq a b) w -> exists s t, w = s ++ t /\ matches a s /\ matches b t.
Proof.
  intros H. inversion H; subst. eexists _, _. now repeat split.
Qed.

Lemma matches_never (w : jsstring) : ~ matches Never w.
Proof. intros H. inversion H. Qed.

Lemma matches_epsilon_inv (w : jsstring) : matches Epsilon w -> w = [].
Proof. intros H. now inversion H. Qed.

Lemma matches_class_inv (p : N -> bool) (w : jsstring) :
  matches (Class p) w -> exists c, w = [c] /\ p c = true.
Proof. intros H. inversion H; subst. eexists. now split. Qed.

Lemma matches_alt_inv (a b : regex) (w : jsstring) :
  matches (Alt a b) w -> matches a w \/ matches b w.
Proof. intros H. inversion H; subst; [now left | now right]. Qed.

Lemma nullable_matches (r : regex) : nullable r = true <-> matches r [].
Proof.
  induction r as [| |p|a IHa b IHb|a IHa b IHb|a IHa]; cbn [nullable].
  - split; [discriminate | intros H; now apply matches_never in H].
  - split; [intros _; constructor | reflexivity].
  - split; [discriminate|]. intros H.
    apply matches_class_inv in H as [c [E _]]. discriminate.
  - rewrite andb_true_iff, IHa, IHb. split.
    + intros [Ha Hb]. apply (matches_seq Ha Hb).
    + intros H. apply matches_seq_inv in H as [s [t [E [Ha Hb]]]].
      symmetry in E. apply app_eq_nil in E as [-> ->]. now split.
  - rewrite orb_true_iff, IHa, IHb. split.
    + intros [H|H]; [now apply matches_alt_l | now apply matches_alt_r].
    + apply matches_alt_inv.
  - split; [intros _; constructor | reflexivity].
Qed.

Lemma seq'_matches (a b : regex) (s : jsstring) :
  matches (seq' a b) s <-> matches (Seq a b) s.
Proof.
  assert (matches (Seq Epsilon b) s <-> matches b s) as Heps.
  { split.
    - intros H. apply matches_seq_inv in H as [s1 [t1 [-> [Ha Hb]]]].
      apply matches_epsilon_inv in Ha. now subst.
    - intros H. apply (matches_seq matches_epsilon H). }
  assert (forall x, matches (Seq Never x) s <-> matches Never s) as Hl.
  { intros x. split; intros H; [|now apply matches_never in H].
    apply matches_seq_inv in H as [s1 [t1 [-> [Ha Hb]]]]. now apply matches_never in Ha. }
  assert (forall x, matches (Seq x Never) s <-> matches Never s) as Hr.
  { intros x. split; intros H; [|now apply matches_never in H].
    apply matches_seq_inv in H as [s1 [t1 [-> [Ha Hb]]]]. now apply matches_never in Hb. }
  destruct a, b; cbn [seq']; rewrite ?Hl, ?Hr, ?Heps; reflexivity.
Qed.

Lemma alt'_matches (a b : regex) (s : jsstring) :
  matches (alt' a b) s <-> matches a s \/ matches b s.
Proof.
  assert (matches (Alt a b) s <-> matches a s \/ matches b s) as Halt.
  { split; [apply matches_alt_inv|].
    intros [H|H]; [now apply matches_alt_l | now apply matches_alt_r]. }
  pose proof (@matches_never s) as Hnever.
  destruct a, b; cbn [alt']; try exact Halt; tauto.
Qed.

(** A match of a starred pattern that starts with a code unit starts with a
    match of the pattern that starts with it. *)
Lemma matches_star_cons (a : regex) (c : N) (s : jsstring) :
  matches (Star a) (c :: s) ->
  exists s1 s2, s = s1 ++ s2 /\ matches a (c :: s1) /\ matches (Star a) s2.
Proof.
  intros H. remember (Star a) as r eqn:Er. remember (c :: s) as w eqn:Ew.
  revert s Ew.
  induction H as [| | | | | |a' s1 t1 H1 _ H2 IH2]; intros rest Ew; try discriminate.
  injection Er as ->.
  destruct s1 as [|x s1]; cbn [app] in Ew.
  - now apply IH2.
  - injection Ew as -> <-. exists s1, t1. now repeat split.
Qed.

(** The derivative by a code unit holds what follows the code unit. *)
Lemma deriv_matches (c : N) (r : regex) (s : jsstring) :
  matches (deriv c r) s <-> matches r (c :: s).
Proof.
  revert s. induction r as [| |p|a IHa b IHb|a IHa b IHb|a IHa]; intros s; cbn [deriv].
  - split; intros H; now apply matches_never in H.
  - split; intros H; [now apply matches_never in H|].
    apply matches_epsilon_inv in H. discriminate.
  - destruct (p c) eqn:Hp; split; intros H.
    + apply matches_epsilon_inv in H. subst. now constructor.
    + apply matches_class_inv in H as [x [E _]]. injection E as <- ->. constructor.
    + now apply matches_never in H.
    + apply matches_class_inv in H as [x [E Hx]]. injection E as <- ->. congruence.
  - assert (matches (Seq (deriv c a) b) s
            <-> exists s1 s2, s = s1 ++ s2 /\ matches a (c :: s1) /\ matches b s2) as Hfront.
    { split.
      - intros H. apply matches_seq_inv in H as [s1 [t1 [-> [Ha Hb]]]].
        exists s1, t1. repeat split; [now apply IHa | assumption].
      - intros [s1 [s2 [-> [Ha Hb]]]]. apply matches_seq; [now apply IHa | assumption]. }
    destruct (nullable a) eqn:Hn.
    + rewrite alt'_matches, seq'_matches, Hfront, IHb. split.
      * intros [[s1 [s2 [-> [Ha Hb]]]]|Hb].
        -- apply (matches_seq Ha Hb).
        -- apply nullable_matches in Hn. apply (matches_seq Hn Hb).
      * intros H. apply matches_seq_inv in H as [s1 [t1 [E [Ha Hb]]]].
        destruct s1 as [|x s1]; cbn [app] in E.
        -- right. now subst.
        -- injection E as <- ->. left. exists s1, t1. now repeat split.
    + rewrite seq'_matches, Hfront. split.
      * intros [s1 [s2 [-> [Ha Hb]]]]. apply (matches_seq Ha Hb).
      * intros H. apply matches_seq_inv in H as [s1 [t1 [E [Ha Hb]]]].
        destruct s1 as [|x s1]; cbn [app] in E.
        -- apply nullable_matches in Ha. congruence.
        -- injection E as <- ->. exists s1, t1. now repeat split.
  - rewrite alt'_matches, IHa, IHb. split.
    + intros [H|H]; [now apply matches_alt_l | now apply matches_alt_r].
    + apply matches_alt_inv.
  - rewrite seq'_matches. split.
    + intros H. apply matches_seq_inv in H as [s1 [t1 [-> [Ha Hb]]]].
      apply IHa in Ha. apply (matches_star_app Ha Hb).
    + intros H. apply matches_star_cons in H as [s1 [s2 [-> [Ha Hb]]]].
      apply matches_seq; [now apply IHa | assumption].
Qed.

(** [test] decides the language of the pattern. *)
Theorem test_matches (r : regex) (s : jsstring) : test r s = true <-> matches r s.
Proof.
  revert r. induction s as [|c s IH]; intros r; cbn [test].
  - apply nullable_matches.
  - rewrite IH. apply deriv_matches.
Qed.

End RegexFacts.

Section ValidatorFacts.

Import JS Header.
Local Open Scope N_scope.

(** A run of code units of one class matches the starred class. *)
Lemma test_star_class (p : N -> bool) (s : jsstring) :
  forallb p s = true -> test (Star (Class p)) s = true.
Proof.
  induction s as [|c s IH]; intros H; [reflexivity|].
  simpl in H. apply andb_true_iff in H as [Hc Hs].
  simpl. rewrite Hc. simpl. now apply IH.
Qed.

Lemma test_plus_class (p : N -> bool) (s : jsstring) :
  s <> [] -> forallb p s = true -> test (Plus (Class p)) s = true.
Proof.
  destruct s as [|c s]; intros Hne H; [contradiction|].
  simpl in H. apply andb_true_iff in H as [Hc Hs].
  unfold Plus. simpl. rewrite Hc. simpl. now apply test_star_class.
Qed.

(** A string that [/^[0-9]+$/] rejects is empty or has a code unit that is
    no digit. *)
Lemma numericRegex_rejects (s : jsstring) :
  s <> [] -> test numericRegex s = false ->
  exists c, In c s /\ is_digit c = false.
Proof.
  intros Hne Ht. unfold numericRegex in Ht.
  destruct (forallb is_digit s) eqn:E.
  - rewrite (test_plus_class is_digit Hne E) in Ht. discriminate.
  - assert (existsb (fun c => negb (is_digit c)) s = true) as Hex.
    { clear Hne Ht. induction s as [|c s IH]; simpl in *; [discriminate|].
      destruct (is_digit c); simpl in *; [now apply IH | reflexivity]. }
    apply existsb_exists in Hex as [c [Hin Hc]].
    exists c. split; [assumption|]. now apply negb_true_iff.
Qed.

(** The loop passes only labels of at most 63 code units with no hyphen at
    either end. *)
Lemma check_labels_None (labels : list jsstring) :
  check_labels labels = None ->
  Forall (fun label => (length label <= 63)%nat
                       /\ startsWith (str "-") label = false
                       /\ endsWith (str "-") label = false) labels.
Proof.
  induction labels as [|l ls IH]; intros H; [constructor|].
  cbn [check_labels] in H.
  destruct (63 <? length l)%nat eqn:Hlen; [discriminate|].
  destruct (startsWith (str "-") l || endsWith (str "-") l) eqn:Hh; [discriminate|].
  apply orb_false_iff in Hh as [Hs He].
  apply Nat.ltb_ge in Hlen.
  constructor; [now repeat split | now apply IH].
Qed.

Lemma has_invalid_char_false (s : jsstring) :
  has_invalid_char s = false -> Forall (fun c => domain_char c = true) s.
Proof.
  unfold has_invalid_char. induction s as [|c s IH]; intros H; [constructor|].
  simpl in H. apply orb_false_iff in H as [Hc Hs].
  constructor; [now apply negb_false_iff | now apply IH].
Qed.

Lemma no_empty_label (labels : list jsstring) :
  existsb (fun label => (length label =? 0)%nat) labels = false ->
  Forall (fun label => label <> []) labels.
Proof.
  induction labels as [|l ls IH]; intros H; [constructor|].
  simpl in H. apply orb_false_iff in H as [Hl Hls].
  constructor; [|now apply IH].
  intros ->. discriminate.
Qed.

(** A string [validateDomain] accepts holds, once trimmed, only code units
    of [[a-zA-Z0-9.-]]. *)
Lemma validateDomain_None_units (d : jsstring) :
  validateDomain d = None -> Forall (fun c => domain_char c = true) (trim d).
Proof.
  unfold validateDomain.
  destruct (is_empty (trim d)); [discriminate|].
  destruct (253 <? length (trim d))%nat; [discriminate|].
  destruct (has_invalid_char (trim d)) eqn:H; [discriminate|].
  intros _. now apply has_invalid_char_false.
Qed.

(** C1, as amended. When [validateDomain] returns no message for a string,
    the string with the white space around it trimmed off holds only code
    units of [[a-zA-Z0-9.-]], has a period, has at most 253 code units, has
    no empty label, no label longer than 63 code units and no label with
    a hyphen at either end, and its last label has a code unit that is no
    digit. *)
Theorem validateDomain_None_trimmed (d : jsstring) :
  validateDomain d = None ->
  Forall (fun c => domain_char c = true) (trim d)
  /\ In (ch ".") (trim d)
  /\ (length (trim d) <= 253)%nat
  /\ Forall (fun label => label <> []
                          /\ (length label <= 63)%nat
                          /\ startsWith (str "-") label = false
                          /\ endsWith (str "-") label = false)
            (split (ch ".") (trim d))
  /\ exists c, In c (last (split (ch ".") (trim d)) []) /\ is_digit c = false.
Proof.
  unfold validateDomain.
  set (t := trim d). set (labels := split (ch ".") t).
  destruct (is_empty t) eqn:H1; [discriminate|].
  destruct (253 <? length t)%nat eqn:H2; [discriminate|].
  destruct (has_invalid_char t) eqn:H3; [discriminate|].
  destruct (includes (str ".") t) eqn:H4; [|discriminate]. cbn [negb].
  destruct (existsb (fun label => (length label =? 0)%nat) labels) eqn:H5; [discriminate|].
  destruct (check_labels labels) eqn:H6; [discriminate|].
  destruct (test numericRegex (last labels [])) eqn:H8; [discriminate|].
  intros _.
  apply Nat.ltb_ge in H2.
  apply has_invalid_char_false in H3.
  apply (includes_unit (ch ".") t) in H4.
  apply no_empty_label in H5.
  apply check_labels_None in H6.
  repeat split; try assumption.
  - rewrite Forall_forall in *. intros l Hl.
    specialize (H5 l Hl). specialize (H6 l Hl). tauto.
  - apply numericRegex_rejects; [|assumption].
    rewrite Forall_forall in H5. apply H5.
    destruct (exists_last (@split_nonempty (ch ".") t)) as [front [x Hx]].
    unfold labels. rewrite Hx, last_last. apply in_or_app. right. now left.
Qed.

End ValidatorFacts.

Section ValidatorOrder.

Import JS Header Documented.
Local Open Scope N_scope.

(** C1, an instance: a string with white space around a domain. *)
Lemma validateDomain_None_trimmed_witness :
  validateDomain (str " example.com ") = None
  /\ In (ch ".") (trim (str " example.com "))
  /\ (length (trim (str " example.com ")) <= 253)%nat.
Proof.
  pose proof (@validateDomain_None_trimmed (str " example.com ") eq_refl) as [_ [Hdot [Hlen _]]].
  split; [reflexivity|]. split; assumption.
Defined.

(** C1 as stated fails: [validateDomain] accepts a string that starts with
    a space, which is no code unit of [[a-zA-Z0-9.-]]. *)
Lemma validateDomain_accepts_untrimmed :
  validateDomain (str " example.com") = None
  /\ In 32 (str " example.com")
  /\ domain_char 32 = false.
Proof.
  split; [reflexivity|]. split; [now left | reflexivity].
Qed.

(** What the loop over the labels returns. *)
Lemma check_labels_order (labels : list jsstring) :
  check_labels labels =
    if existsb hyphen_edge (before_too_long labels) then Some msg_hyphen
    else match find too_long labels with
         | Some label => Some (msg_label_too_long label)
         | None => None
         end.
Proof.
  induction labels as [|l ls IH]; [reflexivity|].
  cbn [check_labels before_too_long find].
  fold (too_long l). fold (hyphen_edge l).
  destruct (too_long l) eqn:Hl; [reflexivity|].
  cbn [existsb]. destruct (hyphen_edge l); [reflexivity|]. exact IH.
Qed.

Lemma before_too_long_all (labels : list jsstring) :
  find too_long labels = None -> before_too_long labels = labels.
Proof.
  induction labels as [|l ls IH]; intros H; [reflexivity|].
  cbn [find before_too_long] in *.
  destruct (too_long l); [discriminate|]. now rewrite IH.
Qed.

(** Only the message of rule 6 starts with the letter A. *)
Lemma msg_label_too_long_head (label : jsstring) :
  hd 0 (msg_label_too_long label) = ch "A".
Proof. reflexivity. Qed.

Ltac other_message H :=
  exfalso; apply (f_equal (option_map (hd 0))) in H; cbn [option_map] in H;
  rewrite msg_label_too_long_head in H; vm_compute in H; discriminate.

(** C2, as amended. Rules 6 and 7 are checked together, label by label from
    the left. When the documented order gives the error of rule 6,
    [validateDomain] gives the error of rule 7 instead if a label with a
    hyphen at either end stands before the first label of more than 63 code
    units, and the error of rule 6 otherwise. Whenever the documented order
    gives anything else, [validateDomain] gives the same. *)
Theorem validateDomain_label_order (d : jsstring) :
  (forall label,
      validate_documented d = Some (msg_label_too_long label) ->
      validateDomain d =
        if existsb hyphen_edge (before_too_long (split (ch ".") (trim d)))
        then Some msg_hyphen
        else Some (msg_label_too_long label))
  /\ ((forall label, validate_documented d <> Some (msg_label_too_long label)) ->
      validateDomain d = validate_documented d).
Proof.
  unfold validate_documented, validateDomain.
  set (t := trim d). set (labels := split (ch ".") t).
  destruct (is_empty t); [split; [intros l H; other_message H | reflexivity]|].
  destruct (253 <? length t)%nat; [split; [intros l H; other_message H | reflexivity]|].
  destruct (has_invalid_char t); [split; [intros l H; other_message H | reflexivity]|].
  destruct (negb (includes (str ".") t)); [split; [intros l H; other_message H | reflexivity]|].
  destruct (existsb (fun label => (length label =? 0)%nat) labels);
    [split; [intros l H; other_message H | reflexivity]|].
  rewrite check_labels_order.
  destruct (find too_long labels) as [l0|] eqn:Hfind.
  - split.
    + intros l H. rewrite H.
      destruct (existsb hyphen_edge (before_too_long labels)); reflexivity.
    + intros H. exfalso. now apply (H l0).
  - rewrite (before_too_long_all labels Hfind).
    destruct (existsb hyphen_edge labels); [split; [intros l H; other_message H | reflexivity]|].
    destruct (test numericRegex (last labels [])); [split; [intros l H; other_message H | reflexivity]|].
    destruct (negb (test domainRegex t)); split; try reflexivity; intros l H;
      [other_message H | discriminate].
Qed.

End ValidatorOrder.

Section ValidatorExamples.

Import JS Header Documented.
Local Open Scope N_scope.

(** C2 as stated fails: a label with a leading hyphen stands before a label
    of 64 code units, and [validateDomain] returns the error of rule 7,
    where the documented order gives the error of rule 6. *)
Lemma validateDomain_hyphen_before_long :
  split (ch ".") (str "-a." ++ repeat (ch "x") 64 ++ str ".com")
    = [str "-a"; repeat (ch "x") 64; str "com"]
  /\ validateDomain (str "-a." ++ repeat (ch "x") 64 ++ str ".com") = Some msg_hyphen
  /\ validate_documented (str "-a." ++ repeat (ch "x") 64 ++ str ".com")
     = Some (msg_label_too_long (repeat (ch "x") 64)).
Proof.
  split; [reflexivity|]. split; vm_compute; reflexivity.
Qed.

(** C2, an instance: the label of 64 code units stands first, and the
    error of rule 6 is returned. *)
Lemma validateDomain_label_order_witness :
  validateDomain (repeat (ch "x") 64 ++ str ".-a.com")
  = Some (msg_label_too_long (repeat (ch "x") 64)).
Proof.
  exact (proj1 (validateDomain_label_order (repeat (ch "x") 64 ++ str ".-a.com"))
               (repeat (ch "x") 64) eq_refl).
Defined.

(** The documented examples of [validate]. *)
Lemma validateDomain_examples :
  validateDomain (str "example.com") = None
  /\ validateDomain (str "example") = Some msg_missing_tld
  /\ validateDomain (str "-bad.com") = Some msg_hyphen
  /\ validateDomain (str "example.123") = Some msg_numeric_tld
  /\ validateDomain [] = Some msg_missing.
Proof. repeat split; vm_compute; reflexivity. Qed.

End ValidatorExamples.

(* ================================================================== *)
(** * The link generator *)
(* ================================================================== *)

Section GeneratorFacts.

Import JS Types ToolCard Documented.
Local Open Scope N_scope.

(** A replacement text with no dollar sign stands for itself. *)
Lemma GetSubstitution_plain (matched before after text : jsstring) :
  ~ In (ch "$") text -> GetSubstitution matched before after text = text.
Proof.
  induction text as [|c r IH]; intros H; [reflexivity|].
  cbn [GetSubstitution].
  destruct (c =? ch "$") eqn:E.
  - apply N.eqb_eq in E. exfalso. apply H. now left.
  - f_equal. apply IH. intros Hin. apply H. now right.
Qed.

(** The first occurrence found by [indexOf] is the one [replace_first]
    rewrites. *)
Lemma replace_first_indexOf (token text s : jsstring) (i : Z) :
  (0 <= i)%Z ->
  let pos := indexOf_from token s i in
  if (pos <? 0)%Z then replace_first token text s = s
  else (i <= pos)%Z
       /\ replace_first token text s
          = firstn (Z.to_nat (pos - i)) s ++ text
              ++ skipn (Z.to_nat (pos - i) + length token) s.
Proof.
  revert i. induction s as [|c s IH]; intros i Hi; cbn zeta.
  - cbn [indexOf_from replace_first].
    destruct (startsWith token []) eqn:E.
    + assert ((i <? 0)%Z = false) as -> by lia.
      split; [lia|]. rewrite Z.sub_diag. reflexivity.
    + reflexivity.
  - cbn [indexOf_from replace_first].
    destruct (startsWith token (c :: s)) eqn:E.
    + assert ((i <? 0)%Z = false) as -> by lia.
      split; [lia|]. rewrite Z.sub_diag. reflexivity.
    + specialize (IH (i + 1)%Z ltac:(lia)). cbn zeta in IH.
      destruct (indexOf_from token s (i + 1) <? 0)%Z eqn:Hneg.
      * now rewrite IH.
      * destruct IH as [Hle IH]. split; [lia|].
        rewrite IH.
        replace (Z.to_nat (indexOf_from token s (i + 1) - i))
          with (S (Z.to_nat (indexOf_from token s (i + 1) - (i + 1)))) by lia.
        reflexivity.
Qed.

(** With no dollar sign in the text, [replace] is the documented
    replacement of the first occurrence. *)
Lemma replace_plain (token text s : jsstring) :
  ~ In (ch "$") text -> replace token text s = replace_first token text s.
Proof.
  intros H. unfold replace, indexOf.
  pose proof (@replace_first_indexOf token text s 0%Z ltac:(lia)) as R.
  cbn zeta in R.
  destruct (indexOf_from token s 0 <? 0)%Z.
  - now rewrite R.
  - destruct R as [_ R]. rewrite R, Z.sub_0_r.
    now rewrite GetSubstitution_plain.
Qed.

(** The first piece of [split] is what stands before the first period. *)
Lemma hd_split_period (s : jsstring) :
  hd [] (split (ch ".") s) = before_first_period s.
Proof.
  unfold before_first_period.
  induction s as [|c s IH]; [reflexivity|].
  cbn [split WHATWG.span].
  destruct (c =? ch "."); [reflexivity|]. cbn [negb].
  pose proof (split_nonempty (ch ".") s) as Hne.
  destruct (split (ch ".") s) as [|l ls]; [contradiction|].
  cbn [hd] in *. rewrite IH.
  now destruct (WHATWG.span (fun c0 => negb (c0 =? ch ".")) s).
Qed.

Lemma before_first_period_whole (s : jsstring) :
  includes (str ".") s = false -> before_first_period s = s.
Proof.
  intros H. unfold before_first_period.
  assert (~ In (ch ".") s) as Hn.
  { intros Hin. apply (includes_unit (ch ".") s) in Hin.
    change (str ".") with [ch "."] in H. congruence. }
  clear H. induction s as [|c s IH]; [reflexivity|].
  cbn [WHATWG.span].
  destruct (c =? ch ".") eqn:E.
  - apply N.eqb_eq in E. exfalso. apply Hn. now left.
  - cbn [negb].
    destruct (WHATWG.span (fun c0 => negb (c0 =? ch ".")) s) eqn:Es.
    cbn [fst] in *. f_equal. apply IH. intros Hin. apply Hn. now right.
Qed.

(** [getDomainPart] computes the documented domain part. *)
Lemma getDomainPart_documented (domain : jsstring) (type : option UrlType) :
  getDomainPart domain type = domainPart_documented type domain.
Proof.
  destruct type as [[|]|]; try reflexivity.
  unfold getDomainPart, domainPart_documented.
  rewrite hd_split_period.
  destruct (includes (str ".") domain) eqn:E; cbn [negb]; [reflexivity|].
  rewrite (before_first_period_whole domain E).
  now destruct domain.
Qed.

(** What stands before the first period is a part of the string. *)
Lemma before_first_period_incl (s : jsstring) (c : N) :
  In c (before_first_period s) -> In c s.
Proof.
  unfold before_first_period.
  induction s as [|x s IH]; [easy|].
  cbn [WHATWG.span]. destruct (negb (x =? ch ".")); [|easy].
  destruct (WHATWG.span (fun c0 => negb (c0 =? ch ".")) s) eqn:Es.
  cbn [fst] in *. intros [H|H]; [now left | right; now apply IH].
Qed.

Lemma domainPart_documented_incl (type : option UrlType) (domain : jsstring) (c : N) :
  In c (domainPart_documented type domain) -> In c domain.
Proof.
  destruct type as [[|]|]; try easy.
  unfold domainPart_documented.
  destruct (negb (includes (str ".") domain)); [easy|].
  destruct (is_empty (before_first_period domain)); [easy|].
  apply before_first_period_incl.
Qed.

End GeneratorFacts.

Section GeneratorClaims.

Import JS Types ToolCard Documented.
Local Open Scope N_scope.

(** White space apart, [trim] keeps every code unit. *)
Lemma trimStart_keeps (c : N) (s : jsstring) :
  is_whitespace c = false -> In c s -> In c (trimStart s).
Proof.
  intros Hc. induction s as [|x s IH]; [easy|].
  intros Hin. cbn [trimStart].
  destruct (is_whitespace x) eqn:Hx; [|assumption].
  destruct Hin as [->|Hin]; [congruence | now apply IH].
Qed.

Lemma trimEnd_keeps (c : N) (s : jsstring) :
  is_whitespace c = false -> In c s -> In c (trimEnd s).
Proof.
  intros Hc. induction s as [|x s IH]; [easy|].
  intros Hin. rewrite trimEnd_cons.
  destruct Hin as [->|Hin].
  - destruct (trimEnd s); [rewrite Hc|]; now left.
  - specialize (IH Hin). destruct (trimEnd s); [easy | now right].
Qed.

(** A string [validateDomain] accepts has no dollar sign. *)
Lemma validated_no_dollar (d : jsstring) :
  Header.validateDomain d = None -> ~ In (ch "$") d.
Proof.
  intros Hv Hin.
  pose proof (validateDomain_None_units d Hv) as Hchars.
  rewrite Forall_forall in Hchars.
  assert (In (ch "$") (trim d)) as Ht
    by (apply trimEnd_keeps, trimStart_keeps; [reflexivity | reflexivity | assumption]).
  specialize (Hchars _ Ht). discriminate.
Qed.

(** C3, as amended. For a domain with no dollar sign, and so for every
    domain [validateDomain] accepts, the card computes the documented
    substitution: the domain part is what stands before the first period
    for [domain_name] (the full domain when there is no period or nothing
    before it) and the domain otherwise, and the first [{{DOMAIN}}] and then
    the first [{{DOMAIN_NAME}}] are replaced. The documented example yields
    [https://x.test/sub]. *)
Theorem card_url_documented :
  (forall tool domain,
      ~ In (ch "$") domain -> card_url tool domain = substitute_documented tool domain)
  /\ (forall tool domain,
         Header.validateDomain domain = None ->
         card_url tool domain = substitute_documented tool domain)
  /\ (forall P i t d c,
         generate (WHATWG.new_URL P)
           {| id := i; title := t; description := d;
              urlTemplate := str "https://x.test/{{DOMAIN_NAME}}";
              urlType := Some domain_name; category := c |}
           (str "sub.example.com")
         = Returns {| status := idle; finalUrl := str "https://x.test/sub" |}).
Proof.
  assert (forall tool domain,
             ~ In (ch "$") domain -> card_url tool domain = substitute_documented tool domain)
    as Hplain.
  { intros tool domain H. unfold card_url, substitute_documented.
    rewrite getDomainPart_documented.
    rewrite (@replace_plain (str "{{DOMAIN}}") domain _ H).
    apply replace_plain.
    intros Hin. apply H. now apply domainPart_documented_incl in Hin. }
  split; [exact Hplain|]. split.
  - intros tool domain Hv. apply Hplain. now apply validated_no_dollar.
  - intros P i t d c. vm_compute. reflexivity.
Qed.

(** C3, an instance of the first part. *)
Lemma card_url_documented_witness :
  card_url {| id := str "whois"; title := str "Who.is"; description := [];
              urlTemplate := str "https://who.is/whois/{{DOMAIN}}";
              urlType := Some domain; category := WHOIS |}
           (str "example.com")
  = str "https://who.is/whois/example.com".
Proof.
  rewrite (proj1 card_url_documented).
  - reflexivity.
  - vm_compute. intuition discriminate.
Defined.

(** C3 as stated fails for a domain with a dollar sign: [$&] in the
    replacement text stands for the token itself, so the token stays where
    the documented substitution puts the domain. *)
Lemma card_url_dollar :
  card_url {| id := str "whois"; title := str "Who.is"; description := [];
              urlTemplate := str "https://who.is/whois/{{DOMAIN}}";
              urlType := Some domain; category := WHOIS |}
           (str "$&.com")
  = str "https://who.is/whois/{{DOMAIN}}.com"
  /\ substitute_documented
       {| id := str "whois"; title := str "Who.is"; description := [];
          urlTemplate := str "https://who.is/whois/{{DOMAIN}}";
          urlType := Some domain; category := WHOIS |}
       (str "$&.com")
     = str "https://who.is/whois/$&.com".
Proof. split; reflexivity. Qed.

(** The documented example of a [domain] tool. *)
Lemma generate_whois_example (P : WHATWG.Platform) :
  generate (WHATWG.new_URL P)
    {| id := str "whois"; title := str "Who.is"; description := [];
       urlTemplate := str "https://who.is/whois/{{DOMAIN}}";
       urlType := Some domain; category := WHOIS |}
    (str "example.com")
  = Returns {| status := idle; finalUrl := str "https://who.is/whois/example.com" |}.
Proof. vm_compute. reflexivity. Qed.

(** C9. The card and the batch loop build the same URL. *)
Theorem card_url_batch_url (tool : Tool) (domain : jsstring) :
  card_url tool domain = Dashboard.batch_url tool domain.
Proof.
  unfold card_url, Dashboard.batch_url, getDomainPart.
  destruct (urlType tool) as [[|]|]; reflexivity.
Qed.

(** C5. The effect never throws: whatever the platform's parser does, it
    returns a card state; and when the parser rejects the substituted
    template, that state is the error state. *)
Theorem generate_error_state
  (new_URL : jsstring -> result Header.URL_object) (tool : Tool) (domain : jsstring) :
  (exists state, generate new_URL tool domain = Returns state)
  /\ (new_URL (card_url tool domain) = Throws ->
      generate new_URL tool domain = Returns {| status := error; finalUrl := str "#" |}).
Proof.
  unfold generate. cbn zeta.
  destruct (new_URL (card_url tool domain)) as [u|]; cbn [bind try_catch].
  - split; [eexists; reflexivity | discriminate].
  - split; [eexists; reflexivity | reflexivity].
Qed.

(** C5, an instance: a template with no scheme. *)
Lemma generate_error_state_witness :
  generate (WHATWG.new_URL WHATWG.ascii_platform)
    {| id := str "bare"; title := str "Bare"; description := [];
       urlTemplate := str "{{DOMAIN}}/whois"; urlType := None; category := WHOIS |}
    (str "example.com")
  = Returns {| status := error; finalUrl := str "#" |}.
Proof.
  apply generate_error_state. vm_compute. reflexivity.
Defined.

End GeneratorClaims.

(* ================================================================== *)
(** * The batch-open handler and the favorites loader *)
(* ================================================================== *)

Section ShellFacts.

Import JS Types.
Local Open Scope N_scope.

(** C4 fails on the code. The catalog holds a tool whose template has no
    scheme: its card is in the error state, yet the handler hands the
    substituted template to [window.open], which resolves it against the
    page and opens it. Both selected tools are opened, not one. *)
Lemma handleOpenSelected_opens_rejected :
  ToolCard.generate (WHATWG.new_URL WHATWG.ascii_platform)
    {| id := str "bare"; title := str "Bare"; description := [];
       urlTemplate := str "{{DOMAIN}}/whois"; urlType := None; category := WHOIS |}
    (str "example.com")
  = Returns {| ToolCard.status := ToolCard.error; ToolCard.finalUrl := str "#" |}
  /\ Dashboard.handleOpenSelected
       [ {| id := str "whois"; title := str "Who.is"; description := [];
            urlTemplate := str "https://who.is/whois/{{DOMAIN}}";
            urlType := Some domain; category := WHOIS |};
         {| id := str "bare"; title := str "Bare"; description := [];
            urlTemplate := str "{{DOMAIN}}/whois"; urlType := None; category := WHOIS |} ]
       (Dashboard.window_open_in WHATWG.ascii_platform
          {| WHATWG.base_scheme := str "https";
             WHATWG.base_hostname := str "dashboard.example";
             WHATWG.base_has_opaque_path := false |})
       [str "whois"; str "bare"] (str "example.com")
     = {| Dashboard.opened := [str "https://who.is/whois/example.com";
                               str "example.com/whois"];
          Dashboard.logged := [] |}.
Proof. split; vm_compute; reflexivity. Qed.

(** What one selected tool adds to the opened URLs. *)
Lemma open_one_opened
  (TOOLS : list Tool) (window_open : jsstring -> result unit)
  (d : jsstring) (w : Dashboard.Effects) (toolId : jsstring) :
  Dashboard.opened (Dashboard.open_one TOOLS window_open d w toolId)
  = Dashboard.opened w
      ++ match Dashboard.find_tool TOOLS toolId with
         | Some tool =>
             match window_open (Dashboard.batch_url tool d) with
             | Returns _ => [Dashboard.batch_url tool d]
             | Throws => []
             end
         | None => []
         end.
Proof.
  unfold Dashboard.open_one.
  destruct (Dashboard.find_tool TOOLS toolId) as [tool|]; [|now rewrite app_nil_r].
  destruct (window_open (Dashboard.batch_url tool d)); cbn [Dashboard.opened];
    [reflexivity | now rewrite app_nil_r].
Qed.

(** The handler goes through every selected tool in order, whatever
    happens to the tools before it: the URLs it opens are those of the
    selected tools that are in the catalog and whose URL [window.open] does
    not reject. Whether [new URL] accepts the URL plays no part. *)
Theorem handleOpenSelected_opened
  (TOOLS : list Tool) (window_open : jsstring -> result unit)
  (selectedTools : list jsstring) (d : jsstring) :
  Dashboard.opened (Dashboard.handleOpenSelected TOOLS window_open selectedTools d)
  = flat_map (fun toolId =>
                match Dashboard.find_tool TOOLS toolId with
                | Some tool =>
                    match window_open (Dashboard.batch_url tool d) with
                    | Returns _ => [Dashboard.batch_url tool d]
                    | Throws => []
                    end
                | None => []
                end) selectedTools.
Proof.
  unfold Dashboard.handleOpenSelected.
  change (flat_map ?f selectedTools)
    with (Dashboard.opened Dashboard.no_effects ++ flat_map f selectedTools).
  generalize Dashboard.no_effects.
  induction selectedTools as [|toolId rest IH]; intros w; cbn [fold_left flat_map].
  - now rewrite app_nil_r.
  - rewrite IH, open_one_opened. now rewrite <- app_assoc.
Qed.

(** C10 fails on the code. A stored text that is JSON but no list is
    parsed and becomes the favorites as it is: [null], an object, a
    number. Only a text that is no JSON gives the empty list. *)
Lemma load_favorites_keeps_non_list :
  App.load_favorites (Returns (Some (str "null"))) = App.JNull
  /\ App.load_favorites (Returns (Some (str "{}"))) = App.JObject []
  /\ App.load_favorites (Returns (Some (str "42"))) = App.JNumber (str "42")
  /\ App.load_favorites (Returns (Some (str "not json"))) = App.JArray []
  /\ App.load_favorites (Returns None) = App.JArray []
  /\ App.load_favorites Throws = App.JArray [].
Proof. repeat split; vm_compute; reflexivity. Qed.

(** The loader in full: an absent entry, a storage that cannot be read and
    a text that is no JSON give the empty list; any other text gives the
    value it parses to. *)
Theorem load_favorites_cases :
  App.load_favorites (Returns None) = App.JArray []
  /\ App.load_favorites Throws = App.JArray []
  /\ (forall text,
         App.JSON_parse text = Throws ->
         App.load_favorites (Returns (Some text)) = App.JArray [])
  /\ (forall text v,
         text <> [] -> App.JSON_parse text = Returns v ->
         App.load_favorites (Returns (Some text)) = v).
Proof.
  repeat split.
  - intros text H. unfold App.load_favorites. cbn [bind].
    destruct (is_empty text); [reflexivity|]. now rewrite H.
  - intros text v Hne H. unfold App.load_favorites. cbn [bind].
    destruct text as [|c r]; [contradiction|]. cbn [is_empty]. now rewrite H.
Qed.

End ShellFacts.

(* ================================================================== *)
(** * The sanitizer *)
(* ================================================================== *)

Section SanitizerTotal.

Import JS Header.
Local Open Scope N_scope.

Variable new_URL : jsstring -> result URL_object.

(** C8. Whatever the platform's parser does, [sanitizeDomain] returns a
    string; for the empty string it returns the empty string; and when the
    parser throws on the input with its scheme, it returns what the manual
    normalization gives. *)
Theorem sanitizeDomain_total :
  (forall domain, exists s, sanitizeDomain new_URL domain = Returns s)
  /\ sanitizeDomain new_URL [] = Returns []
  /\ (forall domain,
         domain <> [] ->
         new_URL (if includes (str "://") domain then domain
                  else str "https://" ++ domain) = Throws ->
         sanitizeDomain new_URL domain = Returns (manual_sanitize domain)).
Proof.
  split; [|split].
  - intros domain. unfold sanitizeDomain.
    destruct (is_empty domain); [eexists; reflexivity|].
    destruct (new_URL _) as [u|]; eexists; reflexivity.
  - reflexivity.
  - intros domain Hne H. unfold sanitizeDomain.
    destruct domain as [|c r]; [contradiction|].
    cbn [is_empty]. now rewrite H.
Qed.

End SanitizerTotal.

(* ================================================================== *)
(** * Code units of a host *)
(* ================================================================== *)

Section HostUnits.

Import JS Header WHATWG Documented.
Local Open Scope N_scope.

Lemma eqb_eq (a b : jsstring) : JS.eqb a b = true <-> a = b.
Proof.
  revert b. induction a as [|x a IH]; intros [|y b]; simpl; try easy.
  rewrite andb_true_iff, N.eqb_eq, IH. split.
  - intros [-> ->]. reflexivity.
  - intros H. injection H as -> ->. easy.
Qed.

(** The code units of [[a-zA-Z0-9.-]]. *)
Lemma domain_char_cases (c : N) :
  domain_char c = true ->
  (48 <= c <= 57) \/ (65 <= c <= 90) \/ (97 <= c <= 122) \/ c = 45 \/ c = 46.
Proof.
  unfold domain_char, is_alnum, is_alpha, is_upper, is_lower, is_digit, in_range.
  change (ch "0") with 48; change (ch "9") with 57; change (ch "A") with 65;
    change (ch "Z") with 90; change (ch "a") with 97; change (ch "z") with 122;
    change (ch ".") with 46; change (ch "-") with 45.
  rewrite !orb_true_iff, !andb_true_iff, !N.leb_le, !N.eqb_eq. lia.
Qed.

Lemma is_alpha_cases (c : N) :
  is_alpha c = true -> (65 <= c <= 90) \/ (97 <= c <= 122).
Proof.
  unfold is_alpha, is_upper, is_lower, in_range.
  change (ch "A") with 65; change (ch "Z") with 90; change (ch "a") with 97;
    change (ch "z") with 122.
  rewrite !orb_true_iff, !andb_true_iff, !N.leb_le. lia.
Qed.

End HostUnits.

Import JS Header WHATWG Documented Scan.

(** Deciding a comparison with a known bound on the code unit. *)
Ltac decide_units :=
  cbv [domain_char keep_char is_alnum is_alpha is_upper is_lower is_digit in_range
       is_c0_or_space is_tab_or_newline is_scheme_char is_slash is_authority_end
       is_forbidden_host is_forbidden_domain is_lead_surrogate is_trail_surrogate
       is_whitespace ascii_lower lower_unit existsb is_file_host_end hex_value
       digit_value];
  change (ch "0") with 48%N; change (ch "9") with 57%N; change (ch "A") with 65%N;
  change (ch "Z") with 90%N; change (ch "a") with 97%N; change (ch "z") with 122%N;
  change (ch "F") with 70%N; change (ch "f") with 102%N;
  change (ch ".") with 46%N; change (ch "-") with 45%N; change (ch "+") with 43%N;
  change (ch ":") with 58%N; change (ch "/") with 47%N; change (ch "\") with 92%N;
  change (ch "?") with 63%N; change (ch "#") with 35%N; change (ch "@") with 64%N;
  change (ch "[") with 91%N; change (ch "]") with 93%N; change (ch "<") with 60%N;
  change (ch ">") with 62%N; change (ch "^") with 94%N; change (ch "|") with 124%N;
  change (ch "%") with 37%N; change (ch "k") with 107%N; change (ch "i") with 105%N;
  repeat (match goal with
          | |- context [N.eqb ?a ?b] => is_var a; destruct (N.eqb_spec a b); try lia
          | |- context [N.leb ?a ?b] => is_var a; destruct (N.leb_spec a b); try lia
          | |- context [N.leb ?a ?b] => is_var b; destruct (N.leb_spec a b); try lia
          | |- context [N.ltb ?a ?b] => is_var a; destruct (N.ltb_spec a b); try lia
          | |- context [N.ltb ?a ?b] => is_var b; destruct (N.ltb_spec a b); try lia
          | |- context [N.eqb ?a ?b] => destruct (N.eqb_spec a b); try lia
          | |- context [N.leb ?a ?b] => destruct (N.leb_spec a b); try lia
          | |- context [N.ltb ?a ?b] => destruct (N.ltb_spec a b); try lia
          end; cbn [andb orb negb]);
  cbn; try reflexivity; try lia.

Ltac by_cases H :=
  apply domain_char_cases in H;
  destruct H as [H|[H|[H|[H|H]]]]; decide_units.

Section HostUnitFacts.

Import JS Header WHATWG Documented.
Local Open Scope N_scope.

Lemma domain_char_clean (c : N) : domain_char c = true -> is_c0_or_space c = false.
Proof. intros H. by_cases H. Qed.

Lemma domain_char_scheme (c : N) : domain_char c = true -> is_scheme_char c = true.
Proof. intros H. by_cases H. Qed.

Lemma domain_char_no_end (special : bool) (c : N) :
  domain_char c = true -> is_authority_end special c = false.
Proof. intros H. destruct special; by_cases H. Qed.

Lemma domain_char_no_slash (c : N) : domain_char c = true -> is_slash c = false.
Proof. intros H. by_cases H. Qed.

Lemma domain_char_ascii (c : N) : domain_char c = true -> (c <? 128) = true.
Proof. intros H. by_cases H. Qed.

Lemma domain_char_lower_allowed (c : N) :
  domain_char c = true -> is_forbidden_domain (ascii_lower c) = false.
Proof. intros H. by_cases H. Qed.

Lemma domain_char_lower_kept (c : N) :
  domain_char c = true -> keep_char (ascii_lower c) = true.
Proof. intros H. by_cases H. Qed.

Lemma domain_char_lower_unit (c : N) :
  domain_char c = true -> lower_unit c = [ascii_lower c].
Proof. intros H. by_cases H. Qed.

Lemma domain_char_not_space (c : N) : domain_char c = true -> is_whitespace c = false.
Proof. intros H. by_cases H. Qed.

Lemma domain_char_neq (c x : N) :
  domain_char c = true -> domain_char x = false -> (c =? x) = false.
Proof.
  intros H Hx. destruct (N.eqb_spec c x); [subst; congruence | reflexivity].
Qed.

Lemma ascii_lower_period (c : N) : (ascii_lower c =? ch ".") = (c =? ch ".").
Proof. decide_units. Qed.

Lemma domain_char_code_point (c : N) :
  domain_char c = true -> is_lead_surrogate c = false /\ is_trail_surrogate c = false.
Proof. intros H. split; by_cases H. Qed.

Lemma is_alpha_domain_char (c : N) : is_alpha c = true -> domain_char c = true.
Proof. intros H. unfold domain_char, is_alnum. now rewrite H. Qed.

Lemma ascii_lower_alpha (c : N) : is_alpha (ascii_lower c) = true -> is_alpha c = true.
Proof.
  intros H. apply is_alpha_cases in H. revert H. decide_units.
Qed.

End HostUnitFacts.

(* ================================================================== *)
(** * The parser on a plain host *)
(* ================================================================== *)

Section ParserFacts.

Local Open Scope N_scope.

Lemma span_app_stop (q : N -> bool) (a b : jsstring) :
  Forall (fun c => q c = true) a -> stops q b -> span q (a ++ b) = (a, b).
Proof.
  intros Ha Hb. induction Ha as [|c a Hc Ha IH]; cbn [app].
  - destruct b as [|x b]; [reflexivity|]. cbn [span]. cbn in Hb. now rewrite Hb.
  - cbn [span]. now rewrite Hc, IH.
Qed.

Lemma strip_trailing_cons (c : N) (s : jsstring) :
  is_c0_or_space c = false -> strip_trailing (c :: s) = c :: strip_trailing s.
Proof.
  intros Hc. unfold strip_trailing. cbn [fold_right].
  fold (strip_trailing s). destruct (strip_trailing s); [now rewrite Hc | reflexivity].
Qed.

Lemma strip_trailing_app (a b : jsstring) :
  Forall (fun c => is_c0_or_space c = false) a ->
  strip_trailing (a ++ b) = a ++ strip_trailing b.
Proof.
  induction 1 as [|c a Hc Ha IH]; [reflexivity|].
  cbn [app]. rewrite strip_trailing_cons by assumption. now rewrite IH.
Qed.

Lemma clean_no_tab (c : N) : is_c0_or_space c = false -> is_tab_or_newline c = false.
Proof. decide_units. Qed.

Lemma preprocess_clean_prefix (c : N) (a f : jsstring) :
  Forall (fun x => is_c0_or_space x = false) (c :: a) ->
  preprocess ((c :: a) ++ f) = (c :: a) ++ cleaned f.
Proof.
  intros H. unfold preprocess, cleaned.
  assert (strip_leading ((c :: a) ++ f) = (c :: a) ++ f) as ->.
  { cbn [app strip_leading]. inversion H as [|? ? Hc ?]; subst. now rewrite Hc. }
  rewrite strip_trailing_app by assumption.
  rewrite filter_app. f_equal.
  apply forallb_filter_id. apply forallb_forall. intros x Hx.
  rewrite Forall_forall in H. apply negb_true_iff, clean_no_tab. now apply H.
Qed.

(** A first code unit that is clean survives preprocessing. *)
Lemma cleaned_cons (c : N) (r : jsstring) :
  is_c0_or_space c = false -> exists r', cleaned (c :: r) = c :: r'.
Proof.
  intros Hc. unfold cleaned. rewrite strip_trailing_cons by assumption.
  cbn [filter]. rewrite (clean_no_tab c Hc). cbn [negb]. eexists. reflexivity.
Qed.

Lemma cleaned_stops (q : N -> bool) (f : jsstring) :
  (forall c, q c = false -> is_c0_or_space c = false) ->
  stops q f -> stops q (cleaned f).
Proof.
  intros Hq Hf. destruct f as [|c r]; [exact I|].
  cbn in Hf. destruct (@cleaned_cons c r (Hq c Hf)) as [r' ->]. exact Hf.
Qed.

(** The scheme of a text that starts with letters and a colon. *)
Lemma parse_scheme_letters (c : N) (name rest : jsstring) :
  Forall (fun x => is_alpha x = true) (c :: name) ->
  parse_scheme ((c :: name) ++ ch ":" :: rest)
  = Some (map ascii_lower (c :: name), rest).
Proof.
  intros H. unfold parse_scheme.
  assert (span is_scheme_char ((c :: name) ++ ch ":" :: rest)
          = (c :: name, ch ":" :: rest)) as Hs.
  { apply span_app_stop; [|reflexivity].
    eapply Forall_impl; [|exact H].
    intros x Hx. now apply domain_char_scheme, is_alpha_domain_char. }
  rewrite Hs. cbn [app]. inversion H as [|? ? Hc ?]; subst. rewrite Hc.
  now rewrite N.eqb_refl.
Qed.

Lemma skip_slashes_host (c : N) (s : jsstring) :
  domain_char c = true -> skip_slashes (ch "/" :: ch "/" :: c :: s) = c :: s.
Proof.
  intros H. cbn [skip_slashes].
  change (is_slash (ch "/")) with true. cbn iota.
  now rewrite (domain_char_no_slash c H).
Qed.

Lemma after_last_at_host (d : jsstring) :
  Forall (fun c => domain_char c = true) d -> after_last_at d = None.
Proof.
  induction 1 as [|c d Hc Hd IH]; [reflexivity|].
  cbn [after_last_at]. rewrite IH.
  now rewrite (domain_char_neq c (ch "@") Hc eq_refl).
Qed.

Lemma split_port_host (d : jsstring) :
  Forall (fun c => domain_char c = true) d -> split_port false d = (d, None).
Proof.
  induction 1 as [|c d Hc Hd IH]; [reflexivity|].
  cbn [split_port].
  rewrite (domain_char_neq c (ch ":") Hc eq_refl).
  rewrite (domain_char_neq c (ch "[") Hc eq_refl).
  rewrite (domain_char_neq c (ch "]") Hc eq_refl).
  cbn [andb]. now rewrite IH.
Qed.

Lemma utf8_encode_host (d : jsstring) :
  Forall (fun c => domain_char c = true) d -> utf8_encode d = d.
Proof.
  unfold utf8_encode.
  induction 1 as [|c d Hc Hd IH]; [reflexivity|].
  cbn [code_points].
  destruct (domain_char_code_point c Hc) as [-> ->].
  cbn [flat_map]. rewrite IH. unfold utf8_bytes.
  now rewrite (domain_char_ascii c Hc).
Qed.

Lemma percent_decode_host (d : jsstring) :
  Forall (fun c => domain_char c = true) d -> percent_decode d = d.
Proof.
  induction 1 as [|c d Hc Hd IH]; [reflexivity|].
  cbn [percent_decode].
  rewrite (domain_char_neq c (ch "%") Hc eq_refl). now rewrite IH.
Qed.

Lemma forallb_ascii_host (d : jsstring) :
  Forall (fun c => domain_char c = true) d -> forallb (fun b => b <? 128) d = true.
Proof.
  intros H. apply forallb_forall. rewrite Forall_forall in H.
  intros x Hx. now apply domain_char_ascii, H.
Qed.

Lemma no_forbidden_lower_host (d : jsstring) :
  Forall (fun c => domain_char c = true) d ->
  existsb is_forbidden_domain (map ascii_lower d) = false.
Proof.
  induction 1 as [|c d Hc Hd IH]; [reflexivity|].
  cbn [map existsb]. now rewrite (domain_char_lower_allowed c Hc), IH.
Qed.

End ParserFacts.

Section HostParse.

Local Open Scope N_scope.

(** Lower-casing goes through [split]. *)
Lemma split_map_lower (s : jsstring) :
  split (ch ".") (map ascii_lower s) = map (map ascii_lower) (split (ch ".") s).
Proof.
  induction s as [|c s IH]; [reflexivity|].
  cbn [map split]. rewrite ascii_lower_period.
  destruct (c =? ch "."); cbn [map]; rewrite IH; [reflexivity|].
  pose proof (split_nonempty (ch ".") s) as Hne.
  destruct (split (ch ".") s) as [|l ls]; [contradiction | reflexivity].
Qed.

Lemma last_map_lower (pieces : list jsstring) :
  last (map (map ascii_lower) pieces) [] = map ascii_lower (last pieces []).
Proof.
  induction pieces as [|p ps IH]; [reflexivity|].
  destruct ps as [|p' ps]; [reflexivity|].
  cbn [map last] in *. exact IH.
Qed.

(** A label that starts with a letter is no IPv4 number. *)
Lemma ipv4_number_letter (c : N) (r : jsstring) :
  is_alpha c = true -> ipv4_number (ascii_lower c :: r) = None.
Proof.
  intros H. apply is_alpha_cases in H.
  assert ((ascii_lower c =? ch "0") = false) as H0 by (revert H; decide_units).
  assert (digit_value 10 (ascii_lower c) = None) as Hd by (revert H; decide_units).
  unfold ipv4_number. rewrite H0. cbn [andb].
  destruct r; cbn [parse_radix]; now rewrite Hd.
Qed.

Lemma lower_letter_no_digit (c : N) :
  is_alpha c = true -> is_digit (ascii_lower c) = false.
Proof. intros H. apply is_alpha_cases in H. revert H. decide_units. Qed.

(** A host whose last label starts with a letter does not end in a
    number. *)
Lemma ends_in_number_letter (d : jsstring) :
  last_label_alpha d = true -> ends_in_number (map ascii_lower d) = false.
Proof.
  unfold last_label_alpha, ends_in_number, ipv4_parts. cbv zeta.
  rewrite !split_map_lower, !last_map_lower.
  destruct (last (split (ch ".") d) []) as [|c r] eqn:E; [discriminate|].
  intros Hc. cbn [map is_empty andb].
  rewrite last_map_lower, E. cbn [map is_empty negb andb].
  rewrite (@ipv4_number_letter c (map ascii_lower r) Hc).
  cbn [forallb]. now rewrite (lower_letter_no_digit c Hc).
Qed.

Lemma parsable_nonempty (d : jsstring) : parsable d -> d <> [].
Proof. intros [_ [H _]] ->. discriminate. Qed.

(** The host parser lower-cases such a host. *)
Lemma host_parse_plain (P : Platform) (d : jsstring) :
  parsable d -> host_parse P false d = Some (map ascii_lower d).
Proof.
  intros Hp. pose proof (parsable_nonempty Hp) as Hne.
  destruct Hp as [Hchars [Hlast Hpuny]].
  unfold host_parse.
  destruct d as [|c d]; [contradiction|].
  assert (startsWith (str "[") (c :: d) = false) as ->.
  { change (startsWith (str "[") (c :: d)) with ((ch "[" =? c) && true).
    inversion Hchars as [|? ? Hc ?]; subst.
    now rewrite N.eqb_sym, (domain_char_neq c (ch "[") Hc eq_refl). }
  rewrite (utf8_encode_host Hchars), (percent_decode_host Hchars).
  unfold domain_to_ASCII.
  rewrite (forallb_ascii_host Hchars), Hpuny. cbn [negb andb map].
  rewrite <- map_cons.
  rewrite (no_forbidden_lower_host Hchars), (ends_in_number_letter _ Hlast).
  reflexivity.
Qed.

(** The authority of a special URL: a plain host followed by the end of
    the text, a path, a query or a fragment. *)
Lemma parse_authority_plain (P : Platform) (d f : jsstring) :
  parsable d ->
  stops (fun c => negb (is_authority_end true c)) f ->
  parse_authority P true (d ++ f) = Some (map ascii_lower d).
Proof.
  intros Hp Hf. pose proof (parsable_nonempty Hp) as Hne.
  pose proof Hp as [Hchars _].
  unfold parse_authority.
  rewrite span_app_stop; [| |assumption].
  - cbn [fst]. rewrite (after_last_at_host Hchars), (split_port_host Hchars).
    destruct d as [|c d]; [contradiction|]. cbn [is_empty andb].
    now apply host_parse_plain.
  - eapply Forall_impl; [|exact Hchars].
    intros c Hc. cbn beta. now rewrite (domain_char_no_end true c Hc).
Qed.

(** The parser on one of the web schemes, in any case, and [://], followed
    by a plain host and a suffix. *)
Lemma basic_URL_parse_plain (P : Platform) (name d f : jsstring) :
  In (map ascii_lower name) web_schemes ->
  parsable d ->
  stops (fun c => negb (is_authority_end true c)) f ->
  basic_URL_parse P None (name ++ str "://" ++ d ++ f) = Some (map ascii_lower d).
Proof.
  intros Hname Hp Hf. pose proof (parsable_nonempty Hp) as Hne.
  pose proof Hp as [Hchars _].
  assert (Forall (fun x => is_alpha x = true) name) as Halpha.
  { apply Forall_forall. intros x Hx. apply ascii_lower_alpha.
    apply (in_map ascii_lower) in Hx. unfold web_schemes in Hname.
    repeat (destruct Hname as [E|Hname];
            [rewrite <- E in Hx; cbn in Hx;
             repeat (destruct Hx as [<-|Hx]; [reflexivity|]); contradiction|]).
    contradiction. }
  assert (name <> []) as Hn.
  { intros ->. cbn in Hname. intuition discriminate. }
  destruct name as [|n0 name]; [contradiction|].
  destruct d as [|d0 d]; [contradiction|].
  assert (domain_char d0 = true) as Hd0 by (inversion Hchars; assumption).
  unfold basic_URL_parse.
  replace ((n0 :: name) ++ str "://" ++ (d0 :: d) ++ f)
    with ((n0 :: name ++ str "://" ++ d0 :: d) ++ f)
    by (cbn [app]; rewrite <- !app_assoc; reflexivity).
  rewrite preprocess_clean_prefix.
  2:{ rewrite app_comm_cons. apply Forall_app. split.
      - eapply Forall_impl; [|exact Halpha].
        intros x Hx. now apply domain_char_clean, is_alpha_domain_char.
      - apply Forall_app. split; [repeat constructor|].
        eapply Forall_impl; [|exact Hchars]. intros x. apply domain_char_clean. }
  replace ((n0 :: name ++ str "://" ++ d0 :: d) ++ cleaned f)
    with ((n0 :: name) ++ ch ":" :: (ch "/" :: ch "/" :: d0 :: d ++ cleaned f))
    by (cbn [app]; rewrite <- !app_assoc; reflexivity).
  rewrite (parse_scheme_letters _ Halpha).
  assert (JS.eqb (map ascii_lower (n0 :: name)) (str "file") = false
          /\ is_special (map ascii_lower (n0 :: name)) = true) as [-> ->]
    by (unfold web_schemes in Hname;
        repeat (destruct Hname as [<-|Hname]; [split; reflexivity|]); contradiction).
  rewrite (@skip_slashes_host d0 _ Hd0).
  change (d0 :: d ++ cleaned f) with ((d0 :: d) ++ cleaned f).
  apply parse_authority_plain; [assumption|].
  apply cleaned_stops; [|assumption].
  intros c. decide_units.
Qed.

End HostParse.

Section InputShape.

Local Open Scope N_scope.

(** A code unit whose lower case is no lower-case letter is its own lower
    case. *)
Lemma ascii_lower_fixed (c x : N) :
  ascii_lower c = x -> is_lower x = false -> c = x.
Proof.
  intros <-. unfold ascii_lower, is_upper, is_lower, in_range.
  change (ch "A") with 65; change (ch "Z") with 90; change (ch "a") with 97;
    change (ch "z") with 122.
  destruct (N.leb_spec 65 c), (N.leb_spec c 90); cbn [andb]; try reflexivity.
  destruct (N.leb_spec 97 (c + 32)), (N.leb_spec (c + 32) 122); cbn [andb];
    try discriminate; lia.
Qed.

Lemma domain_char_lower_inv (c : N) :
  domain_char (ascii_lower c) = true -> domain_char c = true.
Proof.
  unfold ascii_lower. destruct (is_upper c) eqn:E; [|easy].
  intros _. unfold domain_char, is_alnum, is_alpha. now rewrite E.
Qed.

Lemma domain_chars_lower_inv (s : jsstring) :
  Forall (fun c => domain_char c = true) (map ascii_lower s) ->
  Forall (fun c => domain_char c = true) s.
Proof.
  induction s as [|c s IH]; intros H; [constructor|].
  inversion H; subst. constructor; [now apply domain_char_lower_inv | now apply IH].
Qed.

(** The scheme prefix is a name and [://]. *)
Lemma scheme_prefix_name (scheme : jsstring) :
  is_scheme_prefix scheme = true ->
  scheme = []
  \/ exists name, scheme = name ++ str "://" /\ In (map ascii_lower name) web_schemes.
Proof.
  unfold is_scheme_prefix. rewrite orb_true_iff, existsb_exists.
  intros [H|[n [Hn H]]].
  - left. now destruct scheme.
  - right. apply eqb_eq in H.
    apply map_eq_app in H as [name [tail [-> [Hname Htail]]]].
    exists name. split; [|now rewrite Hname].
    f_equal.
    destruct tail as [|e [|f [|g [|]]]]; try discriminate.
    injection Htail as He Hf Hg.
    apply ascii_lower_fixed in He, Hf, Hg; try reflexivity. now subst.
Qed.

(** The [www.] prefix is three letters and a period. *)
Lemma www_prefix_shape (www : jsstring) :
  is_www_prefix www = true ->
  www = []
  \/ exists a b c, www = [a; b; c; ch "."] /\ map ascii_lower [a; b; c] = str "www".
Proof.
  unfold is_www_prefix. rewrite orb_true_iff, eqb_eq.
  intros [H|H].
  - left. now destruct www.
  - right. destruct www as [|a [|b [|c [|d [|]]]]]; try discriminate.
    injection H as Ha Hb Hc Hd.
    apply ascii_lower_fixed in Hd; [|reflexivity]. subst d.
    exists a, b, c. split; [reflexivity|]. cbn [map]. now rewrite Ha, Hb, Hc.
Qed.

Lemma plain_host_parts (host : jsstring) :
  plain_host host = true ->
  parsable host /\ startsWith (str "www.") (map ascii_lower host) = false.
Proof.
  unfold plain_host, parsable.
  rewrite !andb_true_iff, !negb_true_iff.
  intros [[[H1 H2] H3] H4]. repeat split; try assumption.
  apply Forall_forall. rewrite forallb_forall in H1. exact H1.
Qed.

(** A plain host behind a [www.] prefix is a host the parser lower-cases,
    and [strip_www] gives the plain host back. *)
Lemma www_host_parsable (www host : jsstring) :
  is_www_prefix www = true -> plain_host host = true ->
  parsable (www ++ host)
  /\ strip_www (map ascii_lower (www ++ host)) = map ascii_lower host.
Proof.
  intros Hw Hh. apply plain_host_parts in Hh as [[Hchars [Hlast Hpuny]] Hwww].
  apply www_prefix_shape in Hw as [->|[a [b [c [-> Habc]]]]].
  - cbn [app]. split; [now repeat split|]. unfold strip_www. now rewrite Hwww.
  - assert (Forall (fun x => domain_char x = true) [a; b; c]) as Hd.
    { apply domain_chars_lower_inv. rewrite Habc. repeat constructor. }
    assert (~ In (ch ".") [a; b; c]) as Hnodot.
    { intros Hin. apply (in_map ascii_lower) in Hin. rewrite Habc in Hin.
      cbn in Hin. intuition discriminate. }
    assert (split (ch ".") ([a; b; c; ch "."] ++ host)
            = [a; b; c] :: split (ch ".") host) as Hsplit
      by (apply (@split_app_sep (ch ".") [a; b; c] host Hnodot)).
    split.
    + repeat split.
      * apply Forall_app. split; [|assumption].
        inversion Hd as [|? ? Ha Hd1]; inversion Hd1 as [|? ? Hb Hd2];
          inversion Hd2 as [|? ? Hc ?]; subst. repeat constructor; assumption.
      * unfold last_label_alpha in *. rewrite Hsplit.
        pose proof (split_nonempty (ch ".") host) as Hne.
        destruct (split (ch ".") host) as [|l ls]; [contradiction|]. exact Hlast.
      * unfold has_punycode_label in *. rewrite Hsplit. cbn [existsb].
        rewrite Hpuny, Habc. reflexivity.
    + change ([a; b; c; ch "."] ++ host) with ([a; b; c] ++ ch "." :: host).
      rewrite map_app, Habc. reflexivity.
Qed.

(** [includes] finds an occurrence. *)
Lemma includes_app (p a b : jsstring) : includes p (a ++ p ++ b) = true.
Proof.
  unfold includes, indexOf.
  assert (forall i, (0 <= i)%Z -> (0 <= indexOf_from p (a ++ p ++ b) i)%Z) as H.
  { induction a as [|x a IH]; intros i Hi.
    - cbn [app]. destruct (p ++ b) eqn:E; cbn [indexOf_from]; rewrite <- E;
        now rewrite startsWith_app.
    - cbn [app indexOf_from].
      destruct (startsWith p (x :: a ++ p ++ b)); [assumption|]. apply IH. lia. }
  apply Z.leb_le, H. lia.
Qed.

(** No occurrence of a pattern starts in a prefix that lacks the first code
    unit of the pattern. *)
Lemma includes_skip (c : N) (p a s : jsstring) :
  ~ In c a -> includes (c :: p) (a ++ s) = includes (c :: p) s.
Proof.
  unfold includes, indexOf. intros Ha.
  assert (forall i j, (0 <= i)%Z -> (0 <= j)%Z ->
                      (0 <=? indexOf_from (c :: p) (a ++ s) i)%Z
                      = (0 <=? indexOf_from (c :: p) s j)%Z) as H.
  { induction a as [|x a IH]; intros i j Hi Hj.
    - cbn [app]. clear Ha. revert i j Hi Hj.
      induction s as [|y s IHs]; intros i j Hi Hj; cbn [indexOf_from startsWith].
      + reflexivity.
      + destruct ((c =? y) && startsWith p s).
        * apply Z.leb_le in Hi, Hj. now rewrite Hi, Hj.
        * apply IHs; lia.
    - cbn [app indexOf_from startsWith].
      destruct (N.eqb_spec c x) as [->|Hn]; [exfalso; apply Ha; now left|].
      cbn [andb]. apply IH; [|lia|assumption]. intros Hin. apply Ha. now right. }
  apply H; lia.
Qed.

End InputShape.

Section ManualPath.

Local Open Scope N_scope.

(** With no scheme, a host followed by a path, a query or a fragment is no
    URL: the parser fails. *)
Lemma basic_URL_parse_no_scheme (P : Platform) (d f : jsstring) :
  Forall (fun c => domain_char c = true) d -> d <> [] ->
  stops (fun c => negb (is_authority_end true c)) f ->
  basic_URL_parse P None (d ++ f) = None.
Proof.
  intros Hchars Hne Hf.
  destruct d as [|d0 d]; [contradiction|].
  unfold basic_URL_parse.
  rewrite preprocess_clean_prefix
    by (eapply Forall_impl; [|exact Hchars]; intros x; apply domain_char_clean).
  assert (stops (fun c => negb (is_authority_end true c)) (cleaned f)) as Hc
    by (apply cleaned_stops; [intros c; decide_units | assumption]).
  assert (parse_scheme ((d0 :: d) ++ cleaned f) = None) as ->; [|reflexivity].
  unfold parse_scheme. cbn [app].
  destruct (is_alpha d0); [|reflexivity].
  change (d0 :: d ++ cleaned f) with ((d0 :: d) ++ cleaned f).
  rewrite span_app_stop.
  - destruct (cleaned f) as [|c r]; [reflexivity|].
    cbn in Hc. destruct (N.eqb_spec c (ch ":")) as [->|]; [discriminate | reflexivity].
  - eapply Forall_impl; [|exact Hchars]. intros x. apply domain_char_scheme.
  - destruct (cleaned f) as [|c r]; [exact I|]. cbn in Hc |- *.
    revert Hc. decide_units.
Qed.

Lemma trimEnd_app (a b : jsstring) :
  Forall (fun c => is_whitespace c = false) a -> trimEnd (a ++ b) = a ++ trimEnd b.
Proof.
  induction 1 as [|c a Hc Ha IH]; [reflexivity|].
  cbn [app]. rewrite trimEnd_cons, IH.
  destruct (a ++ trimEnd b) eqn:E; [now rewrite Hc | reflexivity].
Qed.

Lemma trim_host_path (d r : jsstring) :
  Forall (fun c => domain_char c = true) d -> d <> [] ->
  exists r', trim (d ++ ch "/" :: r) = d ++ ch "/" :: r'.
Proof.
  intros Hchars Hne. unfold trim.
  assert (Forall (fun c => is_whitespace c = false) d) as Hws
    by (eapply Forall_impl; [|exact Hchars]; intros x; apply domain_char_not_space).
  assert (trimStart (d ++ ch "/" :: r) = d ++ ch "/" :: r) as ->.
  { destruct d as [|d0 d]; [contradiction|]. cbn [app trimStart].
    inversion Hws as [|? ? H0 ?]; subst. now rewrite H0. }
  rewrite trimEnd_app by assumption.
  rewrite trimEnd_cons. exists (trimEnd r).
  now destruct (trimEnd r).
Qed.

Lemma toLowerCase_host (d : jsstring) :
  Forall (fun c => domain_char c = true) d -> toLowerCase d = map ascii_lower d.
Proof.
  unfold toLowerCase. induction 1 as [|c d Hc Hd IH]; [reflexivity|].
  cbn [flat_map map]. now rewrite (domain_char_lower_unit c Hc), IH.
Qed.

(** A pattern that lacks a code unit cannot reach past it. *)
Lemma startsWith_app_stop (p a b : jsstring) (c : N) :
  ~ In c p -> startsWith p (a ++ c :: b) = startsWith p a.
Proof.
  revert a. induction p as [|x p IH]; intros a Hc; [reflexivity|].
  destruct a as [|y a]; cbn [app startsWith].
  - destruct (N.eqb_spec x c) as [->|]; [exfalso; apply Hc; now left | reflexivity].
  - f_equal. apply IH. intros Hin. apply Hc. now right.
Qed.

Lemma startsWith_length (p s : jsstring) :
  startsWith p s = true -> (length p <= length s)%nat.
Proof.
  revert s. induction p as [|x p IH]; intros s H; cbn [length]; [lia|].
  destruct s as [|y s]; [discriminate|].
  cbn [startsWith] in H. apply andb_true_iff in H as [_ H].
  apply IH in H. cbn [length]. lia.
Qed.

Lemma strip_www_path (l t : jsstring) :
  strip_www (l ++ ch "/" :: t) = strip_www l ++ ch "/" :: t.
Proof.
  unfold strip_www.
  rewrite startsWith_app_stop by (cbn; intuition discriminate).
  destruct (startsWith (str "www.") l) eqn:E; [|reflexivity].
  apply startsWith_length in E. change (length (str "www.")) with 4%nat in E.
  rewrite skipn_app.
  replace (4 - length l)%nat with 0%nat by lia. reflexivity.
Qed.

Lemma strip_http_path (l t : jsstring) :
  Forall (fun c => before_colon_or_slash c = true) l ->
  strip_http (l ++ ch "/" :: t) = l ++ ch "/" :: t.
Proof.
  intros Hl. unfold strip_http.
  pose proof (@span_app_stop before_colon_or_slash l (ch "/" :: t) Hl eq_refl) as Hs.
  destruct (startsWith (str "http://") (l ++ ch "/" :: t)) eqn:E1.
  { apply startsWith_inv in E1. rewrite E1 in Hs.
    change (str "http://" ++ ?x) with (str "http" ++ ch ":" :: (str "//" ++ x)) in Hs.
    rewrite span_app_stop in Hs; [|repeat constructor | reflexivity].
    discriminate. }
  destruct (startsWith (str "https://") (l ++ ch "/" :: t)) eqn:E2; [|reflexivity].
  apply startsWith_inv in E2. rewrite E2 in Hs.
  change (str "https://" ++ ?x) with (str "https" ++ ch ":" :: (str "//" ++ x)) in Hs.
  rewrite span_app_stop in Hs; [|repeat constructor | reflexivity].
  discriminate.
Qed.

Lemma indexOf_from_unit_app (c : N) (a b : jsstring) (i : Z) :
  ~ In c a -> indexOf_from [c] (a ++ c :: b) i = (i + Z.of_nat (length a))%Z.
Proof.
  revert i. induction a as [|x a IH]; intros i Ha.
  - cbn [app indexOf_from startsWith length]. rewrite N.eqb_refl. cbn. lia.
  - cbn [app indexOf_from startsWith length].
    destruct (N.eqb_spec c x) as [->|]; [exfalso; apply Ha; now left|].
    cbn [andb]. rewrite IH by (intros Hin; apply Ha; now right). lia.
Qed.

Lemma firstn_exact (a b : jsstring) : firstn (length a) (a ++ b) = a.
Proof. induction a as [|x a IH]; cbn [length firstn app]; [now destruct b | now rewrite IH]. Qed.

Lemma Forall_skipn_units (q : N -> Prop) (n : nat) (l : jsstring) :
  Forall q l -> Forall q (skipn n l).
Proof.
  intros H. rewrite <- (firstn_skipn n l) in H. now apply Forall_app in H.
Qed.

(** The manual normalization of a host followed by a path. *)
Lemma manual_sanitize_path (d r : jsstring) :
  Forall (fun c => domain_char c = true) d -> d <> [] ->
  manual_sanitize (d ++ ch "/" :: r) = strip_www (map ascii_lower d).
Proof.
  intros Hchars Hne. unfold manual_sanitize.
  destruct (trim_host_path r Hchars Hne) as [r' ->].
  unfold toLowerCase. rewrite flat_map_app. fold (toLowerCase d).
  rewrite (toLowerCase_host Hchars).
  cbn [flat_map]. change (lower_unit (ch "/")) with [ch "/"]. cbn [app].
  set (t := flat_map lower_unit r').
  assert (Forall (fun c => domain_char c = true) (map ascii_lower d)) as Hl.
  { apply Forall_forall. intros x Hx. apply in_map_iff in Hx as [y [<- Hy]].
    rewrite Forall_forall in Hchars. specialize (Hchars y Hy).
    clear - Hchars. by_cases Hchars. }
  rewrite strip_http_path.
  2:{ eapply Forall_impl; [|exact Hl]. intros x Hx. clear - Hx.
      unfold before_colon_or_slash. by_cases Hx. }
  rewrite strip_www_path.
  assert (Forall (fun c => domain_char c = true) (strip_www (map ascii_lower d))) as Hs.
  { unfold strip_www. destruct (startsWith (str "www.") (map ascii_lower d)); [|assumption].
    now apply Forall_skipn_units. }
  set (h := strip_www (map ascii_lower d)) in *.
  assert (~ In (ch "/") h) as Hno.
  { intros Hin. rewrite Forall_forall in Hs. specialize (Hs _ Hin). discriminate. }
  unfold indexOf. change (str "/") with [ch "/"].
  rewrite (@indexOf_from_unit_app (ch "/") h t 0 Hno).
  assert ((-1 <? 0 + Z.of_nat (length h))%Z = true) as -> by (apply Z.ltb_lt; lia).
  unfold substring0. rewrite Z.add_0_l, Nat2Z.id, firstn_exact.
  unfold drop_invalid. apply forallb_filter_id, forallb_forall.
  intros x Hx. subst h.
  assert (In x (map ascii_lower d)) as Hx'.
  { unfold strip_www in Hx. destruct (startsWith (str "www.") (map ascii_lower d));
      [|assumption].
    rewrite <- (firstn_skipn 4 (map ascii_lower d)). apply in_or_app. now right. }
  apply in_map_iff in Hx' as [y [<- Hy]].
  rewrite Forall_forall in Hchars. now apply domain_char_lower_kept, Hchars.
Qed.

End ManualPath.

Section SanitizerOnPlainHosts.

Local Open Scope N_scope.

Variable P : Platform.

Lemma suffix_ok_stops (scheme suffix : jsstring) :
  suffix_ok scheme suffix = true ->
  stops (fun c => negb (is_authority_end true c)) suffix.
Proof.
  destruct suffix as [|c r]; [easy|].
  cbn [suffix_ok stops]. unfold is_authority_end.
  change (ch "/") with 47; change (ch "?") with 63; change (ch "#") with 35.
  destruct (c =? 47), (c =? 63), (c =? 35); cbn; easy.
Qed.

Lemma host_no_colon (d : jsstring) :
  Forall (fun c => domain_char c = true) d -> ~ In (ch ":") d.
Proof.
  intros H Hin. rewrite Forall_forall in H. specialize (H _ Hin). discriminate.
Qed.

(** The sanitizer on an input made of a scheme, a [www.] prefix, a plain
    host and a suffix. *)
Lemma sanitizeDomain_decomposed (scheme www host suffix : jsstring) :
  is_scheme_prefix scheme = true ->
  is_www_prefix www = true ->
  plain_host host = true ->
  suffix_ok scheme suffix = true ->
  sanitizeDomain (new_URL P) (scheme ++ www ++ host ++ suffix)
  = Returns (map ascii_lower host).
Proof.
  intros Hs Hw Hh Hf.
  destruct (@www_host_parsable www host Hw Hh) as [Hp Hstrip].
  pose proof (suffix_ok_stops _ _ Hf) as Hstop.
  pose proof (parsable_nonempty Hp) as Hne.
  pose proof Hp as [Hchars _].
  rewrite (app_assoc www host suffix).
  set (d := www ++ host) in *.
  apply scheme_prefix_name in Hs as [->|[name [-> Hname]]].
  - cbn [app]. unfold sanitizeDomain.
    assert (is_empty (d ++ suffix) = false) as ->
      by (destruct d; [contradiction | reflexivity]).
    destruct (includes (str "://") (d ++ suffix)) eqn:Einc.
    + assert (exists r, suffix = ch "/" :: r) as [r ->].
      { change (str "://") with (ch ":" :: str "//") in Einc.
        rewrite (@includes_skip (ch ":") (str "//") d suffix (host_no_colon Hchars)) in Einc.
        destruct suffix as [|c r]; [discriminate|].
        cbn [suffix_ok is_empty negb orb] in Hf.
        destruct (N.eqb_spec c (ch "/")) as [->|]; [now exists r|].
        change (str "://") with (ch ":" :: str "//") in Hf.
        rewrite Einc in Hf. cbn [orb negb] in Hf.
        now rewrite andb_false_r in Hf. }
      unfold new_URL. rewrite (@basic_URL_parse_no_scheme P d _ Hchars Hne Hstop).
      cbn [bind try_catch]. rewrite (manual_sanitize_path r Hchars Hne).
      now rewrite Hstrip.
    + unfold new_URL.
      change (str "https://" ++ d ++ suffix) with (str "https" ++ str "://" ++ d ++ suffix).
      rewrite (@basic_URL_parse_plain P (str "https") d suffix
                 (or_intror (or_introl eq_refl)) Hp Hstop).
      cbn [bind try_catch hostname]. now rewrite Hstrip.
  - rewrite <- (app_assoc name (str "://") (d ++ suffix)).
    unfold sanitizeDomain.
    assert (is_empty (name ++ str "://" ++ d ++ suffix) = false) as ->
      by (destruct name; reflexivity).
    rewrite (includes_app (str "://") name (d ++ suffix)).
    unfold new_URL.
    rewrite (@basic_URL_parse_plain P name d suffix Hname Hp Hstop).
    cbn [bind try_catch hostname]. now rewrite Hstrip.
Qed.

End SanitizerOnPlainHosts.

Section SanitizerClaims.

Local Open Scope N_scope.

(** The inputs on which the normalizer gives the bare host. For an input
    made of an optional web scheme with [://], an optional [www.] prefix, a
    plain host and an optional suffix (a path, or a query or fragment that
    holds no [://] when the input has no scheme), [sanitizeDomain] returns
    the host in lower case. *)
Theorem sanitizeDomain_bare_host (P : Platform) (scheme www host suffix : jsstring) :
  is_scheme_prefix scheme = true ->
  is_www_prefix www = true ->
  plain_host host = true ->
  suffix_ok scheme suffix = true ->
  sanitizeDomain (new_URL P) (scheme ++ www ++ host ++ suffix)
  = Returns (map ascii_lower host).
Proof.
  intros Hs Hw Hh Hf. now apply sanitizeDomain_decomposed.
Qed.

(** The documented example is one of these inputs. *)
Lemma sanitizeDomain_bare_host_witness :
  sanitizeDomain (new_URL ascii_platform) (str "https://WWW.Example.com/path?x=1")
  = Returns (str "example.com").
Proof.
  exact (@sanitizeDomain_bare_host ascii_platform (str "https://") (str "WWW.")
           (str "Example.com") (str "/path?x=1") eq_refl eq_refl eq_refl eq_refl).
Defined.

(** C7 fails on the code. The line that builds the text to parse carries
    the comment that a protocol is prepended if none exists, but it looks
    for [://] anywhere in the input. An input with no scheme whose query
    holds [://] is therefore parsed as it is, and the parser rejects it; the
    manual normalization then cuts at the first slash, which stands inside
    the query, and drops every code unit that is no lower-case letter,
    digit, period or hyphen, so the letters of the query are appended to the
    host. The validator accepts the result and the form hands it on. The
    same host and query with the scheme written, and the same host with a
    query that holds no [://], both give the bare host. *)
Theorem sanitizeDomain_query_leaks :
  includes (str "://") (str "example.com?u=a://b") = true
  /\ new_URL ascii_platform (str "example.com?u=a://b") = Throws
  /\ new_URL ascii_platform (str "https://example.com?u=a://b")
     = Returns {| hostname := str "example.com" |}
  /\ manual_sanitize (str "example.com?u=a://b") = str "example.comua"
  /\ sanitizeDomain (new_URL ascii_platform) (str "example.com?u=a://b")
     = Returns (str "example.comua")
  /\ validateDomain (str "example.comua") = None
  /\ HeaderForm.handleSearchClick (new_URL ascii_platform)
       {| HeaderForm.inputValue := str "example.com?u=a://b"; HeaderForm.error := [] |}
     = Returns ({| HeaderForm.inputValue := str "example.com?u=a://b";
                   HeaderForm.error := [] |},
                [str "example.comua"])
  /\ sanitizeDomain (new_URL ascii_platform) (str "https://example.com?u=a://b")
     = Returns (str "example.com")
  /\ sanitizeDomain (new_URL ascii_platform) (str "example.com?u=ab")
     = Returns (str "example.com").
Proof. repeat split; vm_compute; reflexivity. Qed.

(** A scheme that is not special keeps the case of its host, and the
    upper-case prefix is not stripped. *)
Lemma sanitizeDomain_other_scheme :
  sanitizeDomain (new_URL ascii_platform) (str "foo://WWW.Example.com/path")
  = Returns (str "WWW.Example.com").
Proof. vm_compute. reflexivity. Qed.

(** A host that ends in a number is read as an IPv4 address. *)
Lemma sanitizeDomain_number_host :
  sanitizeDomain (new_URL ascii_platform) (str "https://1.2/path")
  = Returns (str "1.0.0.2").
Proof. vm_compute. reflexivity. Qed.

(** C6, as amended. When the result of [sanitizeDomain] is empty, or is a
    plain host in lower case, sanitizing it again gives it back. *)
Theorem sanitizeDomain_idempotent_on_plain (P : Platform) (x y : jsstring) :
  sanitizeDomain (new_URL P) x = Returns y ->
  y = [] \/ (plain_host y = true /\ map ascii_lower y = y) ->
  (z <- sanitizeDomain (new_URL P) x ;; sanitizeDomain (new_URL P) z)
  = sanitizeDomain (new_URL P) x.
Proof.
  intros Hx Hy. rewrite Hx. cbn [bind].
  destruct Hy as [->|[Hplain Hlower]]; [reflexivity|].
  pose proof (@sanitizeDomain_decomposed P [] [] y [] eq_refl eq_refl Hplain eq_refl) as H.
  cbn [app] in H. rewrite app_nil_r in H. now rewrite H, Hlower.
Qed.

(** Lower-casing a plain host gives a plain host in lower case. *)
Lemma ascii_lower_idempotent (c : N) : ascii_lower (ascii_lower c) = ascii_lower c.
Proof. decide_units. Qed.

Lemma map_lower_idempotent (s : jsstring) :
  map ascii_lower (map ascii_lower s) = map ascii_lower s.
Proof.
  rewrite map_map. apply map_ext. intros c. apply ascii_lower_idempotent.
Qed.

Lemma lower_is_alpha (c : N) : is_alpha c = true -> is_alpha (ascii_lower c) = true.
Proof. intros H. apply is_alpha_cases in H. revert H. decide_units. Qed.

Lemma plain_host_lower (h : jsstring) :
  plain_host h = true -> plain_host (map ascii_lower h) = true.
Proof.
  unfold plain_host. rewrite !andb_true_iff.
  intros [[[H1 H2] H3] H4]. repeat split.
  - apply forallb_forall. intros x Hx. apply in_map_iff in Hx as [y [<- Hy]].
    rewrite forallb_forall in H1. specialize (H1 y Hy). clear - H1. by_cases H1.
  - unfold last_label_alpha in *. rewrite split_map_lower, last_map_lower.
    destruct (last (split (ch ".") h) []) as [|c r]; [discriminate|].
    cbn [map]. now apply lower_is_alpha.
  - rewrite <- H3. f_equal. unfold has_punycode_label.
    rewrite split_map_lower.
    induction (split (ch ".") h) as [|l ls IH]; [reflexivity|].
    cbn [map existsb]. now rewrite map_lower_idempotent, IH.
  - now rewrite map_lower_idempotent.
Qed.

(** On the inputs of [sanitizeDomain_decomposed], sanitizing twice is
    sanitizing once. *)
Theorem sanitizeDomain_twice_decomposed (P : Platform) (scheme www host suffix : jsstring) :
  is_scheme_prefix scheme = true ->
  is_www_prefix www = true ->
  plain_host host = true ->
  suffix_ok scheme suffix = true ->
  (z <- sanitizeDomain (new_URL P) (scheme ++ www ++ host ++ suffix) ;;
   sanitizeDomain (new_URL P) z)
  = sanitizeDomain (new_URL P) (scheme ++ www ++ host ++ suffix).
Proof.
  intros Hs Hw Hh Hf.
  rewrite (sanitizeDomain_decomposed P scheme www host suffix Hs Hw Hh Hf).
  cbn [bind].
  pose proof (@sanitizeDomain_decomposed P [] [] (map ascii_lower host) []
                eq_refl eq_refl (plain_host_lower host Hh) eq_refl) as H.
  cbn [app] in H. rewrite app_nil_r in H. now rewrite H, map_lower_idempotent.
Qed.

Lemma sanitizeDomain_twice_decomposed_witness :
  (z <- sanitizeDomain (new_URL ascii_platform) (str "HTTP://www.Example.COM#top") ;;
   sanitizeDomain (new_URL ascii_platform) z)
  = Returns (str "example.com").
Proof.
  exact (@sanitizeDomain_twice_decomposed ascii_platform (str "HTTP://") (str "www.")
           (str "Example.COM") (str "#top") eq_refl eq_refl eq_refl eq_refl).
Defined.

(** Sanitizing twice is not sanitizing once either when the first result
    keeps an upper-case letter or ends in a number. *)
Lemma sanitizeDomain_twice_differs :
  sanitizeDomain (new_URL ascii_platform) (str "foo://Example.com") = Returns (str "Example.com")
  /\ sanitizeDomain (new_URL ascii_platform) (str "Example.com") = Returns (str "example.com")
  /\ sanitizeDomain (new_URL ascii_platform) (str "1 .2") = Returns (str "1.2")
  /\ sanitizeDomain (new_URL ascii_platform) (str "1.2") = Returns (str "1.0.0.2").
Proof. repeat split; vm_compute; reflexivity. Qed.

(** C6, an instance. *)
Lemma sanitizeDomain_idempotent_on_plain_witness :
  (z <- sanitizeDomain (new_URL ascii_platform) (str "https://WWW.Example.com/path?x=1") ;;
   sanitizeDomain (new_URL ascii_platform) z)
  = Returns (str "example.com").
Proof.
  exact (@sanitizeDomain_idempotent_on_plain ascii_platform
           (str "https://WWW.Example.com/path?x=1") (str "example.com")
           eq_refl (or_intror (conj eq_refl eq_refl))).
Defined.

(** C6 as stated fails: one [www.] is stripped each time. *)
Lemma sanitizeDomain_strips_one_www :
  sanitizeDomain (new_URL ascii_platform) (str "www.www.example.com")
  = Returns (str "www.example.com")
  /\ sanitizeDomain (new_URL ascii_platform) (str "www.example.com")
     = Returns (str "example.com").
Proof. split; vm_compute; reflexivity. Qed.

(** C8, an instance of the fallback: a space in the host makes the parser
    throw, and the manual normalization returns. *)
Lemma sanitizeDomain_total_witness :
  new_URL ascii_platform (str "https://exa mple.com/x") = Throws
  /\ sanitizeDomain (new_URL ascii_platform) (str "exa mple.com/x")
     = Returns (str "example.com").
Proof.
  split; [reflexivity|].
  rewrite (proj2 (proj2 (sanitizeDomain_total (new_URL ascii_platform)))
             (str "exa mple.com/x")); [reflexivity | discriminate | reflexivity].
Defined.

End SanitizerClaims.

(* ================================================================== *)
(** * Normalized domains and the sanitizer *)
(* ================================================================== *)

Section NormalizedDomains.

Local Open Scope N_scope.

(** The strings of a starred class. *)
Lemma matches_star_class (p : N -> bool) (w : jsstring) :
  matches (Star (Class p)) w -> Forall (fun c => p c = true) w.
Proof.
  intros H. remember (Star (Class p)) as r eqn:Er.
  induction H as [| | | | | |a s t Hs _ Ht IHt]; try discriminate; [constructor|].
  injection Er as ->.
  apply matches_class_inv in Hs as [c [-> Hc]].
  constructor; [assumption | now apply IHt].
Qed.

(** Every match of a starred pattern whose matches end with a period is
    empty or ends with a period. *)
Lemma matches_star_ends (g : regex) (w : jsstring) :
  (forall v, matches g v -> exists v', v = v' ++ [ch "."]) ->
  matches (Star g) w -> w = [] \/ exists w', w = w' ++ [ch "."].
Proof.
  intros Hg H. remember (Star g) as r eqn:Er.
  induction H as [| | | | | |a s t Hs _ Ht IHt]; try discriminate; [now left|].
  injection Er as ->. right.
  destruct (IHt eq_refl) as [->|[t' ->]].
  - rewrite app_nil_r. now apply Hg.
  - exists (s ++ t'). now rewrite app_assoc.
Qed.

(** A string [domainRegex] accepts ends with a period and a last label that
    starts with a letter and holds no period. *)
Lemma domainRegex_shape (t : jsstring) :
  test domainRegex t = true ->
  exists front c rest,
    t = front ++ ch "." :: c :: rest
    /\ is_alpha c = true
    /\ Forall (fun x => alnum_or_hyphen x = true) rest.
Proof.
  intros H. apply test_matches in H. unfold domainRegex, Plus in H.
  apply matches_seq_inv in H as [groups [tld [-> [Hg Ht]]]].
  apply matches_seq_inv in Ht as [a [rest [-> [Ha Hrest]]]].
  apply matches_class_inv in Ha as [c [-> Hc]].
  apply matches_seq_inv in Hrest as [r1 [r2 [-> [Hr1 Hr2]]]].
  apply matches_class_inv in Hr1 as [c1 [-> Hc1]].
  apply matches_star_class in Hr2.
  assert (forall v,
             matches (Seq (Class is_alnum)
                        (Seq (Opt (Seq (UpTo 61 (Class alnum_or_hyphen)) (Class is_alnum)))
                           (Class (N.eqb (ch "."))))) v ->
             exists v', v = v' ++ [ch "."]) as Hgroup.
  { intros v Hv.
    apply matches_seq_inv in Hv as [v1 [v2 [-> [_ Hv2]]]].
    apply matches_seq_inv in Hv2 as [v3 [v4 [-> [_ Hv4]]]].
    apply matches_class_inv in Hv4 as [d [-> Hd]].
    apply N.eqb_eq in Hd. subst d.
    exists (v1 ++ v3). now rewrite <- app_assoc. }
  assert (exists front, groups = front ++ [ch "."]) as [front ->].
  { apply matches_seq_inv in Hg as [g1 [g2 [-> [Hg1 Hg2]]]].
    apply Hgroup in Hg1 as [g1' ->].
    apply (matches_star_ends Hgroup) in Hg2 as [->|[g2' ->]].
    - exists g1'. now rewrite app_nil_r.
    - exists ((g1' ++ [ch "."]) ++ g2'). now rewrite app_assoc. }
  exists front, c, ([c1] ++ r2). repeat split.
  - now rewrite <- app_assoc.
  - assumption.
  - constructor; assumption.
Qed.

Lemma split_single (sep : N) (s : jsstring) : ~ In sep s -> split sep s = [s].
Proof.
  induction s as [|c s IH]; intros H; [reflexivity|].
  cbn [split]. destruct (N.eqb_spec c sep) as [->|]; [exfalso; apply H; now left|].
  rewrite IH; [reflexivity|]. intros Hin. apply H. now right.
Qed.

(** The last piece of a string is what follows its last separator. *)
Lemma last_split_app (sep : N) (a b : jsstring) :
  ~ In sep b -> last (split sep (a ++ sep :: b)) [] = b.
Proof.
  intros Hb. induction a as [|x a IH]; cbn [app split].
  - rewrite N.eqb_refl, (split_single sep b Hb). reflexivity.
  - pose proof (split_nonempty sep (a ++ sep :: b)) as Hne.
    pose proof (join_split sep (a ++ sep :: b)) as Hjoin.
    destruct (split sep (a ++ sep :: b)) as [|l ls]; [contradiction|].
    destruct (x =? sep).
    + exact IH.
    + destruct ls as [|l' ls]; [|exact IH].
      cbn [last join] in IH, Hjoin. subst l.
      exfalso. apply Hb. rewrite Hjoin. apply in_or_app. right. now left.
Qed.

(** The last label of a string [domainRegex] accepts starts with a
    letter. *)
Lemma domainRegex_last_label (t : jsstring) :
  test domainRegex t = true -> last_label_alpha t = true.
Proof.
  intros H. apply domainRegex_shape in H as [front [c [rest [-> [Hc Hrest]]]]].
  unfold last_label_alpha. rewrite last_split_app; [assumption|].
  intros [E|Hin].
  - subst c. discriminate.
  - rewrite Forall_forall in Hrest. specialize (Hrest _ Hin). discriminate.
Qed.

(** A string [validateDomain] accepts passes [domainRegex] once trimmed. *)
Lemma validateDomain_None_regex (d : jsstring) :
  validateDomain d = None -> test domainRegex (trim d) = true.
Proof.
  unfold validateDomain.
  destruct (is_empty (trim d)); [discriminate|].
  destruct (253 <? length (trim d))%nat; [discriminate|].
  destruct (has_invalid_char (trim d)); [discriminate|].
  destruct (negb (includes (str ".") (trim d))); [discriminate|].
  destruct (existsb (fun label => (length label =? 0)%nat) (split (ch ".") (trim d)));
    [discriminate|].
  destruct (check_labels (split (ch ".") (trim d))); [discriminate|].
  destruct (test numericRegex (last (split (ch ".") (trim d)) [])); [discriminate|].
  destruct (test domainRegex (trim d)); [reflexivity | discriminate].
Qed.

(** The code units the manual normalization keeps. *)
Lemma keep_char_cases (c : N) :
  keep_char c = true ->
  domain_char c = true /\ ascii_lower c = c /\ is_whitespace c = false.
Proof.
  unfold keep_char, is_lower, is_digit, in_range.
  change (ch "0") with 48; change (ch "9") with 57; change (ch "a") with 97;
    change (ch "z") with 122; change (ch ".") with 46; change (ch "-") with 45.
  rewrite !orb_true_iff, !andb_true_iff, !N.leb_le, !N.eqb_eq.
  intros H. repeat split; decide_units.
Qed.

Lemma trim_kept (y : jsstring) : forallb keep_char y = true -> trim y = y.
Proof.
  intros H. rewrite forallb_forall in H.
  assert (Forall (fun c => is_whitespace c = false) y) as Hws
    by (apply Forall_forall; intros c Hc; now apply keep_char_cases, H).
  unfold trim.
  assert (trimStart y = y) as ->
    by (destruct Hws as [|c r Hc Hr]; cbn [trimStart]; [|rewrite Hc]; reflexivity).
  rewrite <- (app_nil_r y) at 1. rewrite (trimEnd_app [] Hws). apply app_nil_r.
Qed.

(** A normalized domain in lower case with no [www.] prefix and no label
    that starts with [xn--] is a plain host. *)
Lemma normalized_plain_host (y : jsstring) :
  validateDomain y = None ->
  forallb keep_char y = true ->
  has_punycode_label y = false ->
  startsWith (str "www.") y = false ->
  plain_host y = true /\ map ascii_lower y = y.
Proof.
  intros Hv Hk Hp Hw.
  pose proof (validateDomain_None_regex y Hv) as Hre.
  rewrite (trim_kept y Hk) in Hre.
  assert (map ascii_lower y = y) as Hlow.
  { rewrite forallb_forall in Hk. clear - Hk.
    induction y as [|c y IH]; [reflexivity|]. cbn [map]. f_equal.
    - apply keep_char_cases, Hk. now left.
    - apply IH. intros x Hx. apply Hk. now right. }
  split; [|exact Hlow].
  unfold plain_host. rewrite Hlow, Hp, Hw, (domainRegex_last_label y Hre).
  rewrite !andb_true_r. apply forallb_forall. intros c Hc.
  rewrite forallb_forall in Hk. now apply keep_char_cases, Hk.
Qed.

(** An already normalized domain is a fixed point of the sanitizer: when
    [validateDomain] accepts a string of code units of [[a-z0-9.-]] that has
    no [www.] at its start and no label that starts with [xn--],
    [sanitizeDomain] returns it unchanged. *)
Theorem sanitizeDomain_fixes_normalized (P : Platform) (y : jsstring) :
  validateDomain y = None ->
  forallb keep_char y = true ->
  has_punycode_label y = false ->
  startsWith (str "www.") y = false ->
  sanitizeDomain (new_URL P) y = Returns y.
Proof.
  intros Hv Hk Hp Hw.
  destruct (normalized_plain_host y Hv Hk Hp Hw) as [Hplain Hlow].
  pose proof (@sanitizeDomain_decomposed P [] [] y [] eq_refl eq_refl Hplain eq_refl) as H.
  cbn [app] in H. rewrite app_nil_r in H. now rewrite H, Hlow.
Qed.

Lemma sanitizeDomain_fixes_normalized_witness :
  sanitizeDomain (new_URL ascii_platform) (str "sub.example.com")
  = Returns (str "sub.example.com").
Proof.
  exact (@sanitizeDomain_fixes_normalized ascii_platform (str "sub.example.com")
           eq_refl eq_refl eq_refl eq_refl).
Defined.

End NormalizedDomains.

(* ================================================================== *)
(** * The selection of the dashboard and the favorites *)
(* ================================================================== *)

Section SelectionFacts.

Import Types Selection.

Lemma Set_has_In (s : list jsstring) (x : jsstring) : Set_has s x = true <-> In x s.
Proof.
  unfold Set_has. rewrite existsb_exists. split.
  - intros [y [Hy E]]. apply eqb_eq in E. now subst.
  - intros H. exists x. split; [assumption | now apply eqb_eq].
Qed.

Lemma Set_has_false (s : list jsstring) (x : jsstring) : Set_has s x = false <-> ~ In x s.
Proof. rewrite <- Set_has_In. now destruct (Set_has s x). Qed.

Lemma array_includes_In (l : list jsstring) (x : jsstring) :
  Shell.array_includes l x = true <-> In x l.
Proof. apply Set_has_In. Qed.

Lemma eqb_neq (a b : jsstring) : JS.eqb a b = false <-> a <> b.
Proof. rewrite <- (eqb_eq a b). now destruct (JS.eqb a b). Qed.

Lemma Set_add_In (s : list jsstring) (x y : jsstring) :
  In y (Set_add s x) <-> In y s \/ y = x.
Proof.
  unfold Set_add. destruct (Set_has s x) eqn:E.
  - apply Set_has_In in E. split; [now left | intros [H| ->]; assumption].
  - rewrite in_app_iff. cbn [In]. intuition congruence.
Qed.

Lemma Set_add_NoDup (s : list jsstring) (x : jsstring) : NoDup s -> NoDup (Set_add s x).
Proof.
  intros H. unfold Set_add. destruct (Set_has s x) eqn:E; [assumption|].
  apply Set_has_false in E.
  apply NoDup_app; [assumption | repeat constructor; intros [] | ].
  intros y Hy [<-|[]]. contradiction.
Qed.

Lemma fold_Set_add (l acc : list jsstring) :
  NoDup acc ->
  NoDup (fold_left Set_add l acc)
  /\ forall y, In y (fold_left Set_add l acc) <-> In y acc \/ In y l.
Proof.
  revert acc. induction l as [|x l IH]; intros acc H; cbn [fold_left].
  - split; [assumption|]. intros y. cbn [In]. tauto.
  - destruct (IH (Set_add acc x) (Set_add_NoDup x H)) as [Hn Hi]. split; [assumption|].
    intros y. rewrite Hi, Set_add_In. cbn [In]. intuition congruence.
Qed.

Lemma new_Set_NoDup (l : list jsstring) : NoDup (new_Set l).
Proof. apply fold_Set_add. constructor. Qed.

Lemma new_Set_In (l : list jsstring) (y : jsstring) : In y (new_Set l) <-> In y l.
Proof.
  unfold new_Set. destruct (@fold_Set_add l [] (NoDup_nil _)) as [_ H].
  rewrite H. cbn [In]. tauto.
Qed.

(** A list without duplicates is the set of its elements, in its order. *)
Lemma fold_Set_add_NoDup (l acc : list jsstring) :
  NoDup (acc ++ l) -> fold_left Set_add l acc = acc ++ l.
Proof.
  revert acc. induction l as [|x l IH]; intros acc H; cbn [fold_left].
  - now rewrite app_nil_r.
  - assert (Set_add acc x = acc ++ [x]) as ->.
    { unfold Set_add. apply NoDup_remove_2 in H.
      assert (Set_has acc x = false) as ->; [|reflexivity].
      apply Set_has_false. intros Hin. apply H. apply in_or_app. now left. }
    rewrite IH; rewrite <- app_assoc; [reflexivity | exact H].
Qed.

Lemma new_Set_NoDup_id (l : list jsstring) : NoDup l -> new_Set l = l.
Proof. intros H. apply (@fold_Set_add_NoDup l []). exact H. Qed.

Section View.

Variable TOOLS : list Tool.
Variable activeTab : jsstring.
Variable favorites : list jsstring.

Lemma areAllSelected_spec (st : DashboardState) :
  areAllSelected TOOLS activeTab favorites st = true
  <-> (filteredTools TOOLS activeTab favorites) <> [] /\ forall tool, In tool (filteredTools TOOLS activeTab favorites) -> In (id tool) (selectedTools st).
Proof.
  unfold areAllSelected.
  rewrite andb_true_iff, forallb_forall, Nat.ltb_lt, length_map. split.
  - intros [Hl H]. split; [intros E; rewrite E in Hl; cbn in Hl; lia|].
    intros tool Ht. apply new_Set_In, Set_has_In, H, in_map, Ht.
  - intros [Hl H]. split; [destruct (filteredTools TOOLS activeTab favorites); [contradiction | cbn; lia]|].
    intros x Hx. apply in_map_iff in Hx as [tool [<- Ht]].
    apply Set_has_In, new_Set_In, H, Ht.
Qed.

Lemma handleSelectAll_In (st : DashboardState) (x : jsstring) :
  In x (selectedTools (handleSelectAll TOOLS activeTab favorites st))
  <-> In x (selectedTools st) \/ In x (map id (filteredTools TOOLS activeTab favorites)).
Proof.
  unfold handleSelectAll. cbn [selectedTools].
  now rewrite new_Set_In, in_app_iff.
Qed.

Lemma handleDeselectAll_In (st : DashboardState) (x : jsstring) :
  In x (selectedTools (handleDeselectAll TOOLS activeTab favorites st))
  <-> In x (selectedTools st) /\ ~ In x (map id (filteredTools TOOLS activeTab favorites)).
Proof.
  unfold handleDeselectAll. cbn [selectedTools].
  rewrite filter_In, negb_true_iff, Set_has_false, new_Set_In. tauto.
Qed.


(** The button that selects or deselects all: after a click on it the (filteredTools TOOLS activeTab favorites)
    is entirely selected exactly when it was not before, the tools outside
    the (filteredTools TOOLS activeTab favorites) keep their selection, and the mode is not changed. The button
    is rendered for a view that is not empty. *)
Theorem handleToggleSelectAll_flips (st : DashboardState) :
  (filteredTools TOOLS activeTab favorites) <> [] ->
  areAllSelected TOOLS activeTab favorites
    (handleToggleSelectAll TOOLS activeTab favorites st)
  = negb (areAllSelected TOOLS activeTab favorites st)
  /\ (forall x,
         ~ In x (map id (filteredTools TOOLS activeTab favorites)) ->
         (In x (selectedTools (handleToggleSelectAll TOOLS activeTab favorites st))
          <-> In x (selectedTools st)))
  /\ isMultiOpen (handleToggleSelectAll TOOLS activeTab favorites st) = isMultiOpen st.
Proof.
  intros Hne. unfold handleToggleSelectAll.
  destruct (areAllSelected TOOLS activeTab favorites st) eqn:E; cbn [negb].
  - split; [|split; [|reflexivity]].
    + destruct (areAllSelected TOOLS activeTab favorites
                  (handleDeselectAll TOOLS activeTab favorites st)) eqn:E'; [|reflexivity].
      apply areAllSelected_spec in E' as [_ H].
      destruct (filteredTools TOOLS activeTab favorites) as [|tool rest] eqn:Ev;
        [contradiction|].
      specialize (H tool (or_introl eq_refl)).
      apply handleDeselectAll_In in H as [_ H]. exfalso. apply H.
      rewrite Ev. now left.
    + intros x Hx. rewrite handleDeselectAll_In. tauto.
  - split; [|split; [|reflexivity]].
    + apply areAllSelected_spec. split; [assumption|].
      intros tool Ht. apply handleSelectAll_In. right. now apply in_map.
    + intros x Hx. rewrite handleSelectAll_In. tauto.
Qed.

(** Selecting all: the selection becomes the earlier selection and the
    tools of the view, each once, whatever the state of their cards. *)
Theorem handleSelectAll_selects_view (st : DashboardState) :
  NoDup (selectedTools (handleSelectAll TOOLS activeTab favorites st))
  /\ (forall x,
         In x (selectedTools (handleSelectAll TOOLS activeTab favorites st))
         <-> In x (selectedTools st)
             \/ In x (map id (filteredTools TOOLS activeTab favorites)))
  /\ (NoDup (selectedTools st) ->
      exists added,
        selectedTools (handleSelectAll TOOLS activeTab favorites st)
        = selectedTools st ++ added).
Proof.
  split; [apply new_Set_NoDup | split].
  - intros x. apply handleSelectAll_In.
  - intros Hn. unfold handleSelectAll. cbn [selectedTools]. unfold new_Set.
    rewrite fold_left_app.
    rewrite (@fold_Set_add_NoDup (selectedTools st) []) by exact Hn. cbn [app].
    generalize (map id (filteredTools TOOLS activeTab favorites)) as l.
    generalize (selectedTools st) as acc.
    intros acc l. revert acc. induction l as [|x l IH]; intros acc; cbn [fold_left].
    + exists []. now rewrite app_nil_r.
    + destruct (IH (Set_add acc x)) as [added E]. rewrite E. unfold Set_add.
      destruct (Set_has acc x); [now exists added|].
      exists (x :: added). now rewrite <- app_assoc.
Qed.


Lemma filteredTools_incl (tool : Tool) :
  In tool (filteredTools TOOLS activeTab favorites) -> In tool TOOLS.
Proof.
  unfold filteredTools.
  destruct (JS.eqb activeTab (str "All")); [easy|].
  destruct (JS.eqb activeTab (str "Favorites")); intros H; now apply filter_In in H.
Qed.

Lemma NoDup_map_filter (f : Tool -> bool) (l : list Tool) :
  NoDup (map id l) -> NoDup (map id (filter f l)).
Proof.
  induction l as [|t l IH]; intros H; [constructor|].
  cbn [map] in H. apply NoDup_cons_iff in H as [Hn H]. cbn [filter].
  destruct (f t); [|now apply IH].
  cbn [map]. constructor; [|now apply IH].
  intros Hin. apply Hn. apply in_map_iff in Hin as [u [E Hu]].
  apply filter_In in Hu as [Hu _]. rewrite <- E. now apply in_map.
Qed.

Lemma filteredTools_NoDup :
  NoDup (map id TOOLS) -> NoDup (map id (filteredTools TOOLS activeTab favorites)).
Proof.
  intros H. unfold filteredTools.
  destruct (JS.eqb activeTab (str "All")); [assumption|].
  destruct (JS.eqb activeTab (str "Favorites")); now apply NoDup_map_filter.
Qed.

End View.

Lemma find_tool_unique (TOOLS : list Tool) (tool : Tool) :
  NoDup (map id TOOLS) -> In tool TOOLS ->
  Dashboard.find_tool TOOLS (id tool) = Some tool.
Proof.
  unfold Dashboard.find_tool.
  induction TOOLS as [|t l IH]; intros Hn Hin; [contradiction|].
  cbn [map] in Hn. apply NoDup_cons_iff in Hn as [Hn Hl]. cbn [find].
  destruct (JS.eqb (id t) (id tool)) eqn:E.
  - apply eqb_eq in E. destruct Hin as [->|Hin]; [reflexivity|].
    exfalso. apply Hn. rewrite E. now apply in_map.
  - destruct Hin as [->|Hin]; [|now apply IH].
    apply eqb_neq in E. now contradiction E.
Qed.

(** The URLs opened from any earlier effects on. *)
Lemma fold_open_one_opened
  (TOOLS : list Tool) (window_open : jsstring -> result unit)
  (d : jsstring) (ids : list jsstring) (w : Dashboard.Effects) :
  Dashboard.opened (fold_left (Dashboard.open_one TOOLS window_open d) ids w)
  = Dashboard.opened w
      ++ flat_map (fun toolId =>
                     match Dashboard.find_tool TOOLS toolId with
                     | Some tool =>
                         match window_open (Dashboard.batch_url tool d) with
                         | Returns _ => [Dashboard.batch_url tool d]
                         | Throws => []
                         end
                     | None => []
                     end) ids.
Proof.
  revert w. induction ids as [|toolId rest IH]; intros w; cbn [fold_left flat_map].
  - now rewrite app_nil_r.
  - rewrite IH, open_one_opened. now rewrite <- app_assoc.
Qed.

(** Selecting all and then opening the selection, in a catalog whose ids
    are unique and from an empty selection: [window.open] is called for
    every tool of the view, in the order of the view, and the URLs opened
    are those it does not reject. The state of the cards plays no part: a
    tool whose card is in the error state is opened with the others. *)
Theorem select_all_then_open
  (TOOLS : list Tool) (activeTab : jsstring) (favorites : list jsstring)
  (window_open : jsstring -> result unit) (d : jsstring) (st : DashboardState) :
  NoDup (map id TOOLS) ->
  selectedTools st = [] ->
  selectedTools (handleSelectAll TOOLS activeTab favorites st)
  = map id (filteredTools TOOLS activeTab favorites)
  /\ Dashboard.opened
       (Dashboard.handleOpenSelected TOOLS window_open
          (selectedTools (handleSelectAll TOOLS activeTab favorites st)) d)
     = flat_map (fun tool =>
                   match window_open (Dashboard.batch_url tool d) with
                   | Returns _ => [Dashboard.batch_url tool d]
                   | Throws => []
                   end) (filteredTools TOOLS activeTab favorites).
Proof.
  intros Hn Hs.
  assert (selectedTools (handleSelectAll TOOLS activeTab favorites st)
          = map id (filteredTools TOOLS activeTab favorites)) as E.
  { unfold handleSelectAll. cbn [selectedTools]. rewrite Hs. cbn [app].
    apply new_Set_NoDup_id. now apply filteredTools_NoDup. }
  split; [exact E|]. rewrite E. unfold Dashboard.handleOpenSelected.
  rewrite fold_open_one_opened. cbn [Dashboard.opened Dashboard.no_effects app].
  assert (forall tool, In tool (filteredTools TOOLS activeTab favorites) -> In tool TOOLS)
    as Hincl by apply filteredTools_incl.
  clear E.
  induction (filteredTools TOOLS activeTab favorites) as [|tool rest IH];
    [reflexivity|].
  cbn [map flat_map].
  rewrite (@find_tool_unique TOOLS tool Hn) by (apply Hincl; now left).
  f_equal. apply IH. intros u Hu. apply Hincl. now right.
Qed.

Lemma select_all_then_open_witness :
  Dashboard.opened
    (Dashboard.handleOpenSelected
       [ {| id := str "whois"; title := str "Who.is"; description := [];
            urlTemplate := str "https://who.is/whois/{{DOMAIN}}";
            urlType := Some domain; category := WHOIS |};
         {| id := str "bare"; title := str "Bare"; description := [];
            urlTemplate := str "{{DOMAIN}}/whois"; urlType := None; category := WHOIS |} ]
       (fun _ => Returns tt)
       (selectedTools
          (handleSelectAll
             [ {| id := str "whois"; title := str "Who.is"; description := [];
                  urlTemplate := str "https://who.is/whois/{{DOMAIN}}";
                  urlType := Some domain; category := WHOIS |};
               {| id := str "bare"; title := str "Bare"; description := [];
                  urlTemplate := str "{{DOMAIN}}/whois"; urlType := None;
                  category := WHOIS |} ]
             (str "WHOIS") [] {| isMultiOpen := true; selectedTools := [] |}))
       (str "example.com"))
  = [str "https://who.is/whois/example.com"; str "example.com/whois"].
Proof.
  refine (eq_trans
            (proj2 (@select_all_then_open _ (str "WHOIS") [] (fun _ => Returns tt)
                      (str "example.com") {| isMultiOpen := true; selectedTools := [] |}
                      _ eq_refl)) _).
  - repeat constructor; cbn; intuition discriminate.
  - vm_compute. reflexivity.
Defined.

Lemma handleToggleSelectAll_flips_witness :
  areAllSelected
    [ {| id := str "whois"; title := str "Who.is"; description := [];
         urlTemplate := str "https://who.is/whois/{{DOMAIN}}";
         urlType := Some domain; category := WHOIS |} ]
    (str "All") []
    (handleToggleSelectAll
       [ {| id := str "whois"; title := str "Who.is"; description := [];
            urlTemplate := str "https://who.is/whois/{{DOMAIN}}";
            urlType := Some domain; category := WHOIS |} ]
       (str "All") [] {| isMultiOpen := true; selectedTools := [] |})
  = true.
Proof.
  refine (eq_trans
            (proj1 (@handleToggleSelectAll_flips _ (str "All") []
                      {| isMultiOpen := true; selectedTools := [] |} _)) _).
  - vm_compute. discriminate.
  - vm_compute. reflexivity.
Defined.

(** ** Toggling one id *)

Lemma filter_all (A : Type) (f : A -> bool) (l : list A) :
  (forall x, In x l -> f x = true) -> filter f l = l.
Proof.
  induction l as [|a l IH]; intros H; [reflexivity|]. cbn [filter].
  rewrite (H a (or_introl eq_refl)). f_equal. apply IH. intros x Hx. apply H. now right.
Qed.

Lemma toggle_In (toolId x : jsstring) (prev : list jsstring) :
  In x (Shell.handleToggleFavorite toolId prev)
  <-> (x = toolId /\ ~ In toolId prev) \/ (x <> toolId /\ In x prev).
Proof.
  unfold Shell.handleToggleFavorite.
  destruct (Shell.array_includes prev toolId) eqn:E.
  - apply array_includes_In in E.
    rewrite filter_In, negb_true_iff, eqb_neq. intuition congruence.
  - apply Set_has_false in E. rewrite in_app_iff. cbn [In].
    destruct (eqb_eq x toolId) as [_ H].
    destruct (JS.eqb x toolId) eqn:Ex.
    + apply eqb_eq in Ex. subst x. intuition congruence.
    + apply eqb_neq in Ex. intuition congruence.
Qed.

(** A click on the star of a card, and a click on a card in multi-open
    mode, toggle one id: the id is in the list afterwards exactly when it
    was not before, no other id comes or goes, a list without duplicates
    stays so, and adding an id and taking it away again gives the list back.
    The two handlers do the same to their lists. *)
Theorem handleToggleFavorite_toggles (toolId : jsstring) (prev : list jsstring) :
  (In toolId (Shell.handleToggleFavorite toolId prev) <-> ~ In toolId prev)
  /\ (forall x,
         x <> toolId ->
         (In x (Shell.handleToggleFavorite toolId prev) <-> In x prev))
  /\ (NoDup prev -> NoDup (Shell.handleToggleFavorite toolId prev))
  /\ (~ In toolId prev ->
      Shell.handleToggleFavorite toolId (Shell.handleToggleFavorite toolId prev) = prev)
  /\ (forall st,
         selectedTools (handleSelectTool toolId st)
         = Shell.handleToggleFavorite toolId (selectedTools st)).
Proof.
  split; [|split; [|split; [|split]]].
  - rewrite toggle_In. intuition congruence.
  - intros x Hx. rewrite toggle_In. intuition congruence.
  - intros Hn. unfold Shell.handleToggleFavorite.
    destruct (Shell.array_includes prev toolId) eqn:E; [now apply NoDup_filter|].
    apply Set_has_false in E.
    apply NoDup_app; [assumption | repeat constructor; intros [] |].
    intros y Hy [<-|[]]. contradiction.
  - intros Hn. unfold Shell.handleToggleFavorite at 2.
    assert (Shell.array_includes prev toolId = false) as -> by now apply Set_has_false.
    unfold Shell.handleToggleFavorite.
    assert (Shell.array_includes (prev ++ [toolId]) toolId = true) as ->.
    { apply array_includes_In, in_or_app. right. now left. }
    rewrite filter_app. cbn [filter].
    assert (JS.eqb toolId toolId = true) as -> by now apply eqb_eq.
    cbn [negb]. rewrite app_nil_r. apply filter_all.
    intros x Hx. apply negb_true_iff, eqb_neq. intros ->. contradiction.
  - intros st. reflexivity.
Qed.

End SelectionFacts.

(* ================================================================== *)
(** * The states the dashboard can reach, and the clicks on a card *)
(* ================================================================== *)

Section DashboardInvariant.

Import Types Selection DashboardEvents.

Lemma toggle_NoDup (toolId : jsstring) (prev : list jsstring) :
  NoDup prev -> NoDup (Shell.handleToggleFavorite toolId prev).
Proof.
  intros Hn. unfold Shell.handleToggleFavorite.
  destruct (Shell.array_includes prev toolId) eqn:E; [now apply NoDup_filter|].
  apply Set_has_false in E.
  apply NoDup_app; [assumption | repeat constructor; intros [] |].
  intros y Hy [<-|[]]. contradiction.
Qed.

Lemma handleCardClick_calls (tool : Tool) (m : bool) (card : ToolCard.CardState) :
  CardEvents.selected (CardEvents.handleCardClick tool m true card) = []
  \/ (m = true
      /\ CardEvents.selected (CardEvents.handleCardClick tool m true card) = [id tool]).
Proof.
  unfold CardEvents.handleCardClick.
  destruct (CardEvents.is_error (ToolCard.status card)); [now left|].
  destruct m; [now right|].
  destruct (is_empty (ToolCard.finalUrl card) || JS.eqb (ToolCard.finalUrl card) (str "#"));
    now left.
Qed.

Lemma find_tool_In (TOOLS : list Tool) (tool : Tool) :
  In tool TOOLS ->
  exists found,
    Dashboard.find_tool TOOLS (id tool) = Some found
    /\ id found = id tool /\ In found TOOLS.
Proof.
  intros Hin. unfold Dashboard.find_tool.
  destruct (find (fun t => JS.eqb (id t) (id tool)) TOOLS) as [found|] eqn:E.
  - apply find_some in E as [Hf E]. apply eqb_eq in E. now exists found.
  - apply (find_none _ _ E) in Hin. apply eqb_neq in Hin. now contradiction Hin.
Qed.

Lemma handleSelectTool_ok (TOOLS : list Tool) (tool : Tool) (st : DashboardState) :
  In tool TOOLS -> isMultiOpen st = true ->
  selection_ok TOOLS st -> selection_ok TOOLS (handleSelectTool (id tool) st).
Proof.
  intros Hin Hm [_ [Hn Hf]]. split; [|split].
  - cbn [handleSelectTool isMultiOpen]. congruence.
  - apply (toggle_NoDup (id tool) Hn).
  - intros x Hx.
    change (selectedTools (handleSelectTool (id tool) st))
      with (Shell.handleToggleFavorite (id tool) (selectedTools st)) in Hx.
    apply toggle_In in Hx as [[-> _]|[_ Hx]]; [|now apply Hf].
    destruct (@find_tool_In TOOLS tool Hin) as [found [E [Ei Hfound]]]. now exists found.
Qed.

Lemma step_ok (TOOLS : list Tool) (st st' : DashboardState) :
  step TOOLS st st' -> selection_ok TOOLS st -> selection_ok TOOLS st'.
Proof.
  intros Hstep Hok.
  destruct Hstep as [st|st activeTab favorites tool card Hin
                    |st activeTab favorites tool card Hm Hin
                    |st activeTab favorites Hm Hne].
  - destruct Hok as [He [Hn Hf]]. unfold handleToggleMultiOpen.
    destruct (isMultiOpen st) eqn:Em; cbn [negb].
    + split; [reflexivity | split; [constructor | intros x []]].
    + rewrite (He eq_refl). split; [discriminate | split; [constructor | intros x []]].
  - apply filteredTools_incl in Hin.
    destruct (handleCardClick_calls tool (isMultiOpen st) card) as [E|[Hm E]]; rewrite E.
    + exact Hok.
    + cbn [select_calls fold_left]. now apply handleSelectTool_ok.
  - apply filteredTools_incl in Hin. unfold CardEvents.handleCheckboxChange.
    destruct (negb (CardEvents.is_error (ToolCard.status card)));
      cbn [CardEvents.call_onSelectTool select_calls fold_left];
      [now apply handleSelectTool_ok | exact Hok].
  - destruct Hok as [_ [Hn Hf]]. unfold handleToggleSelectAll.
    destruct (areAllSelected TOOLS activeTab favorites st).
    + split; [cbn [handleDeselectAll isMultiOpen]; congruence | split].
      * unfold handleDeselectAll. cbn [selectedTools]. now apply NoDup_filter.
      * intros x Hx. apply handleDeselectAll_In in Hx as [Hx _]. now apply Hf.
    + split; [cbn [handleSelectAll isMultiOpen]; congruence | split].
      * apply new_Set_NoDup.
      * intros x Hx. apply handleSelectAll_In in Hx as [Hx|Hx]; [now apply Hf|].
        apply in_map_iff in Hx as [tool [<- Ht]]. apply filteredTools_incl in Ht.
        destruct (@find_tool_In TOOLS tool Ht) as [found [E [Ei Hfound]]]. now exists found.
Qed.

(** In every state the dashboard can reach, the selection is empty unless
    multi-open mode is on, it holds no id twice, and every id in it is
    found in the catalog: the handler that opens the selection never meets
    an id it has to skip. *)
Theorem reachable_selection (TOOLS : list Tool) (st : DashboardState) :
  reachable TOOLS st ->
  (isMultiOpen st = false -> selectedTools st = [])
  /\ NoDup (selectedTools st)
  /\ forall x,
       In x (selectedTools st) ->
       exists tool,
         Dashboard.find_tool TOOLS x = Some tool /\ id tool = x /\ In tool TOOLS.
Proof.
  intros H. change (selection_ok TOOLS st).
  induction H as [|st st' _ IH Hstep].
  - split; [reflexivity | split; [constructor | intros x []]].
  - exact (step_ok Hstep IH).
Qed.

Lemma reachable_selection_witness :
  NoDup (selectedTools
           (handleToggleSelectAll
              [ {| id := str "whois"; title := str "Who.is"; description := [];
                   urlTemplate := str "https://who.is/whois/{{DOMAIN}}";
                   urlType := Some domain; category := WHOIS |} ]
              (str "All") [] (handleToggleMultiOpen initial))).
Proof.
  refine (proj1 (proj2 (@reachable_selection
                          [ {| id := str "whois"; title := str "Who.is"; description := [];
                               urlTemplate := str "https://who.is/whois/{{DOMAIN}}";
                               urlType := Some domain; category := WHOIS |} ] _ _))).
  refine (reachable_step (reachable_step (reachable_initial _) (step_switch _ initial)) _).
  apply step_select_all; [reflexivity | vm_compute; discriminate].
Defined.

(** A click on a card. It opens the link only outside multi-open mode, on
    a card that is not in the error state and whose URL is neither empty
    nor the placeholder, and then it selects nothing. A card whose URL the
    platform rejected does nothing on a click and nothing on its checkbox,
    in either mode. On any other card, in multi-open mode, the click and
    the checkbox make the same call. *)
Theorem handleCardClick_guards (tool : Tool) :
  (forall card m given,
      CardEvents.prevented (CardEvents.handleCardClick tool m given card) = false ->
      m = false
      /\ ToolCard.status card <> ToolCard.error
      /\ ToolCard.finalUrl card <> []
      /\ ToolCard.finalUrl card <> str "#"
      /\ CardEvents.handleCardClick tool m given card
         = {| CardEvents.prevented := false; CardEvents.selected := [];
              CardEvents.next_status := ToolCard.loading;
              CardEvents.timer_started := true |})
  /\ (forall new_URL d m given,
         new_URL (ToolCard.card_url tool d) = Throws ->
         exists card,
           ToolCard.generate new_URL tool d = Returns card
           /\ CardEvents.handleCardClick tool m given card
              = {| CardEvents.prevented := true; CardEvents.selected := [];
                   CardEvents.next_status := ToolCard.error;
                   CardEvents.timer_started := false |}
           /\ CardEvents.handleCheckboxChange tool given card = [])
  /\ (forall card given,
         ToolCard.status card <> ToolCard.error ->
         CardEvents.selected (CardEvents.handleCardClick tool true given card)
         = CardEvents.handleCheckboxChange tool given card).
Proof.
  split; [|split].
  - intros card m given. unfold CardEvents.handleCardClick.
    destruct (ToolCard.status card) eqn:Es; cbn [CardEvents.is_error];
      try (cbn [CardEvents.prevented]; discriminate);
      (destruct m; [cbn [CardEvents.prevented]; discriminate|]);
      (destruct (is_empty (ToolCard.finalUrl card)) eqn:Ee; cbn [orb];
       [cbn [CardEvents.prevented]; discriminate|]);
      (destruct (JS.eqb (ToolCard.finalUrl card) (str "#")) eqn:Eh;
       [cbn [CardEvents.prevented]; discriminate|]);
      intros _; apply eqb_neq in Eh;
      (repeat split; [discriminate | | assumption]);
      intros E; rewrite E in Ee; discriminate.
  - intros new_URL d m given H.
    exists {| ToolCard.status := ToolCard.error; ToolCard.finalUrl := str "#" |}.
    split; [|split; reflexivity].
    unfold ToolCard.generate. cbv zeta. now rewrite H.
  - intros card given Hs. unfold CardEvents.handleCardClick, CardEvents.handleCheckboxChange.
    destruct (ToolCard.status card); cbn [CardEvents.is_error negb];
      [reflexivity | reflexivity | contradiction].
Qed.

End DashboardInvariant.

(* ================================================================== *)
(** * The search form *)
(* ================================================================== *)

Section FormFacts.

Import HeaderForm.
Local Open Scope N_scope.

Lemma check_labels_message (labels : list jsstring) (m : jsstring) :
  check_labels labels = Some m -> m <> [].
Proof.
  induction labels as [|label rest IH]; cbn [check_labels]; [discriminate|].
  destruct (63 <? length label)%nat.
  - intros H. injection H as <-. intros E.
    pose proof (msg_label_too_long_head label) as Hh. rewrite E in Hh. discriminate.
  - destruct (startsWith (str "-") label || endsWith (str "-") label); [|exact IH].
    intros H. injection H as <-. vm_compute. discriminate.
Qed.

(** Every message of the validator is a non-empty string, so the form
    takes it as an error. *)
Lemma validateDomain_message (d m : jsstring) : validateDomain d = Some m -> m <> [].
Proof.
  unfold validateDomain. cbv zeta.
  destruct (is_empty (trim d)); [intros H; injection H as <-; vm_compute; discriminate|].
  destruct (253 <? length (trim d))%nat;
    [intros H; injection H as <-; vm_compute; discriminate|].
  destruct (has_invalid_char (trim d));
    [intros H; injection H as <-; vm_compute; discriminate|].
  destruct (negb (includes (str ".") (trim d)));
    [intros H; injection H as <-; vm_compute; discriminate|].
  destruct (existsb (fun label => (length label =? 0)%nat) (split (ch ".") (trim d)));
    [intros H; injection H as <-; vm_compute; discriminate|].
  destruct (check_labels (split (ch ".") (trim d))) as [message|] eqn:Ec.
  - intros H. injection H as <-. exact (check_labels_message _ Ec).
  - destruct (test numericRegex (last (split (ch ".") (trim d)) []));
      [intros H; injection H as <-; vm_compute; discriminate|].
    destruct (negb (test domainRegex (trim d)));
      [intros H; injection H as <-; vm_compute; discriminate | discriminate].
Qed.

Lemma sanitizeDomain_returns (new_URL : jsstring -> result URL_object) (d : jsstring) :
  exists s, sanitizeDomain new_URL d = Returns s.
Proof.
  unfold sanitizeDomain. destruct (is_empty d); [now exists []|].
  destruct (new_URL (if includes (str "://") d then d else str "https://" ++ d)) as [url|];
    cbn [bind try_catch]; eauto.
Qed.

Section Handlers.

Variable new_URL : jsstring -> result URL_object.

(** A submission of the form never throws. When the validator accepts the
    sanitized input, the sanitized input is handed to [onDomainSubmit] and
    the error is cleared; when it does not, its message, which is not
    empty, becomes the error and nothing is handed on. The input is left
    as typed in both cases. *)
Theorem handleSearchClick_outcome (st : FormState) :
  exists s,
    sanitizeDomain new_URL (inputValue st) = Returns s
    /\ match validateDomain s with
       | None =>
           handleSearchClick new_URL st
           = Returns ({| inputValue := inputValue st; error := [] |}, [s])
       | Some m =>
           m <> []
           /\ handleSearchClick new_URL st
              = Returns ({| inputValue := inputValue st; error := m |}, [])
       end.
Proof.
  destruct (sanitizeDomain_returns new_URL (inputValue st)) as [s Hs].
  exists s. split; [exact Hs|]. unfold handleSearchClick. rewrite Hs. cbn [bind].
  destruct (validateDomain s) as [m|] eqn:Ev; [|reflexivity].
  pose proof (validateDomain_message _ Ev) as Hm. split; [exact Hm|].
  destruct m; [contradiction | reflexivity].
Qed.

Lemma handleSearchClick_calls (st : FormState) :
  exists st' calls,
    handleSearchClick new_URL st = Returns (st', calls)
    /\ Forall (fun d => d = [] \/ validateDomain d = None) calls.
Proof.
  destruct (sanitizeDomain_returns new_URL (inputValue st)) as [s Hs].
  unfold handleSearchClick. rewrite Hs. cbn [bind].
  destruct (validateDomain s) as [m|] eqn:Ev.
  - destruct (is_empty m) eqn:Em.
    + destruct m; [|discriminate]. now contradiction (validateDomain_message _ Ev).
    + eexists. eexists. split; [reflexivity | constructor].
  - eexists. eexists. split; [reflexivity|]. constructor; [now right | constructor].
Qed.

Lemma handle_calls (e : Event) (st : FormState) :
  exists st' calls,
    handle new_URL e st = Returns (st', calls)
    /\ Forall (fun d => d = [] \/ validateDomain d = None) calls.
Proof.
  destruct e as [newValue| |]; cbn [handle].
  - eexists. eexists. split; [reflexivity|]. unfold handleInputChange. cbn [snd].
    destruct (is_empty newValue); repeat constructor.
  - apply handleSearchClick_calls.
  - destruct (is_empty (inputValue st)); eexists; eexists; (split; [reflexivity|]);
      repeat constructor.
Qed.

Lemma run_calls (events : list Event) (st : FormState) :
  exists st' calls,
    run new_URL events st = Returns (st', calls)
    /\ Forall (fun d => d = [] \/ validateDomain d = None) calls.
Proof.
  revert st. induction events as [|e rest IH]; intros st; cbn [run].
  - eexists. eexists. split; [reflexivity | constructor].
  - destruct (handle_calls e st) as [st1 [calls1 [E1 H1]]]. rewrite E1. cbn [bind fst snd].
    destruct (IH st1) as [st2 [calls2 [E2 H2]]]. rewrite E2. cbn [bind fst snd].
    eexists. eexists. split; [reflexivity|]. apply Forall_app. now split.
Qed.

Lemma last_cons_default (A : Type) (rest : list A) (d a : A) :
  last (d :: rest) a = last rest d.
Proof.
  revert d a. induction rest as [|e r IH]; intros d a; [reflexivity|].
  change (last (d :: e :: r) a) with (last (e :: r) a). now rewrite !IH.
Qed.

Lemma fold_handleDomainSubmit (calls : list jsstring) (shell : Shell.ShellState) :
  Shell.researchedDomain (fold_left Shell.handleDomainSubmit calls shell)
  = last calls (Shell.researchedDomain shell).
Proof.
  revert shell. induction calls as [|d rest IH]; intros shell; [reflexivity|].
  cbn [fold_left]. rewrite IH. cbn [Shell.handleDomainSubmit Shell.researchedDomain].
  symmetry. apply last_cons_default.
Qed.

(** Whatever the user does to the form, typing, submitting and clearing in
    any order, no handler throws, and every domain handed to the shell is
    the empty string or one the validator accepts. So the researched domain
    of the shell, which starts empty and is only written by these calls, is
    always empty (the dashboard then shows no card) or accepted by the
    validator, and it holds no dollar sign. *)
Theorem form_submits_validated (events : list Event) (st : FormState) :
  exists st' calls,
    run new_URL events st = Returns (st', calls)
    /\ Forall (fun d => d = [] \/ validateDomain d = None) calls
    /\ (let shell := fold_left Shell.handleDomainSubmit calls Shell.initial in
        (Shell.researchedDomain shell = []
         \/ validateDomain (Shell.researchedDomain shell) = None)
        /\ ~ In (ch "$") (Shell.researchedDomain shell)).
Proof.
  destruct (run_calls events st) as [st' [calls [E H]]].
  exists st', calls. split; [exact E|]. split; [exact H|]. cbv zeta.
  rewrite fold_handleDomainSubmit. cbn [Shell.initial Shell.researchedDomain].
  assert (last calls [] = [] \/ validateDomain (last calls []) = None) as Hl.
  { clear E. induction H as [|d rest Hd Hrest IH]; [now left|].
    destruct rest as [|d' rest']; [exact Hd | exact IH]. }
  split; [exact Hl|].
  destruct Hl as [->|Hv]; [intros [] | now apply validated_no_dollar].
Qed.

End Handlers.

(** ** An input of spaces and control characters *)

Lemma trimStart_Forall (q : N -> Prop) (s : jsstring) : Forall q s -> Forall q (trimStart s).
Proof.
  induction 1 as [|c s Hc Hs IH]; cbn [trimStart]; [constructor|].
  destruct (is_whitespace c); [exact IH | now constructor].
Qed.

Lemma trimEnd_Forall (q : N -> Prop) (s : jsstring) : Forall q s -> Forall q (trimEnd s).
Proof.
  induction 1 as [|c s Hc Hs IH]; [constructor|]. rewrite trimEnd_cons.
  destruct (trimEnd s); [destruct (is_whitespace c); repeat constructor; assumption|].
  now constructor.
Qed.

Lemma firstn_Forall (q : N -> Prop) (n : nat) (s : jsstring) :
  Forall q s -> Forall q (firstn n s).
Proof.
  intros H. rewrite <- (firstn_skipn n s) in H. now apply Forall_app in H.
Qed.

Lemma toLowerCase_blank (s : jsstring) : Forall (fun c => c <= 32) s -> toLowerCase s = s.
Proof.
  induction 1 as [|c s Hc Hs IH]; [reflexivity|].
  unfold toLowerCase in *. cbn [flat_map]. rewrite IH.
  assert (lower_unit c = [c]) as -> by decide_units. reflexivity.
Qed.

Lemma drop_invalid_blank (s : jsstring) : Forall (fun c => c <= 32) s -> drop_invalid s = [].
Proof.
  induction 1 as [|c s Hc Hs IH]; [reflexivity|].
  unfold drop_invalid in *. cbn [filter]. rewrite IH.
  assert (keep_char c = false) as -> by decide_units. reflexivity.
Qed.

Lemma manual_sanitize_blank (s : jsstring) :
  Forall (fun c => c <= 32) s -> manual_sanitize s = [].
Proof.
  intros H. unfold manual_sanitize. cbv zeta.
  apply trimStart_Forall, trimEnd_Forall in H. fold (trim s) in H.
  rewrite (toLowerCase_blank H). apply drop_invalid_blank.
  assert (Forall (fun c => c <= 32) (strip_www (strip_http (trim s)))) as H'.
  { unfold strip_www, strip_http.
    repeat match goal with
           | |- context [if ?b then _ else _] => destruct b
           end; repeat apply Forall_skipn_units; exact H. }
  destruct (-1 <? indexOf (str "/") (strip_www (strip_http (trim s))))%Z;
    [now apply firstn_Forall | exact H'].
Qed.

Lemma strip_trailing_blank (s : jsstring) :
  Forall (fun c => c <= 32) s -> strip_trailing s = [].
Proof.
  induction 1 as [|c s Hc Hs IH]; [reflexivity|].
  unfold strip_trailing in *. cbn [fold_right]. rewrite IH.
  assert (is_c0_or_space c = true) as -> by decide_units. reflexivity.
Qed.

Lemma includes_scheme_mark_blank (s : jsstring) :
  Forall (fun c => c <= 32) s -> includes (str "://") s = false.
Proof.
  intros H. unfold includes, indexOf.
  assert (forall i, indexOf_from (str "://") s i = (-1)%Z) as ->; [|reflexivity].
  induction H as [|c s Hc Hs IH]; intros i; [reflexivity|].
  cbn [indexOf_from].
  assert (startsWith (str "://") (c :: s) = false) as ->.
  { change (startsWith (str "://") (c :: s))
      with ((ch ":" =? c) && startsWith (str "//") s).
    assert ((ch ":" =? c) = false) as -> by decide_units. reflexivity. }
  apply IH.
Qed.

(** An input of spaces and control characters only (code units up to
    U+0020), the empty input among them, is never handed on: the form shows
    the message that asks for a domain name. *)
Theorem blank_input_rejected (P : Platform) (st : FormState) :
  Forall (fun c => c <= 32) (inputValue st) ->
  sanitizeDomain (new_URL P) (inputValue st) = Returns []
  /\ handleSearchClick (new_URL P) st
     = Returns ({| inputValue := inputValue st; error := msg_missing |}, []).
Proof.
  intros H.
  assert (sanitizeDomain (new_URL P) (inputValue st) = Returns []) as Hs.
  { unfold sanitizeDomain. destruct (inputValue st) as [|c r] eqn:Ei; [reflexivity|].
    cbn [is_empty]. rewrite (includes_scheme_mark_blank H).
    assert (new_URL P (str "https://" ++ c :: r) = Throws) as ->.
    { unfold new_URL, basic_URL_parse.
      change (str "https://" ++ c :: r) with ((ch "h" :: str "ttps://") ++ c :: r).
      rewrite (@preprocess_clean_prefix (ch "h") (str "ttps://") (c :: r))
        by (vm_compute; repeat constructor).
      unfold cleaned. rewrite (strip_trailing_blank H). reflexivity. }
    cbn [bind try_catch]. now rewrite (manual_sanitize_blank H). }
  split; [exact Hs|]. unfold handleSearchClick. rewrite Hs. reflexivity.
Qed.

Lemma blank_input_rejected_witness :
  handleSearchClick (new_URL ascii_platform) {| inputValue := str "   "; error := [] |}
  = Returns ({| inputValue := str "   "; error := msg_missing |}, []).
Proof.
  refine (proj2 (@blank_input_rejected ascii_platform
                   {| inputValue := str "   "; error := [] |} _)).
  cbn. repeat constructor; discriminate.
Defined.

End FormFacts.

(* ================================================================== *)
(** * Saving and loading the favorites *)
(* ================================================================== *)

Section FavoritesFacts.

Local Open Scope N_scope.

Lemma hex_value_lower_hex (d : N) : d < 16 -> hex_value (Shell.lower_hex d) = Some d.
Proof.
  intros H. unfold Shell.lower_hex.
  destruct (N.ltb_spec d 10).
  - assert (is_digit (48 + d) = true) as E by decide_units.
    unfold hex_value. rewrite E. f_equal. lia.
  - assert (is_digit (87 + d) = false) as E1 by decide_units.
    assert (in_range (ch "A") (ch "F") (87 + d) = false) as E2 by decide_units.
    assert (in_range (ch "a") (ch "f") (87 + d) = true) as E3 by decide_units.
    unfold hex_value. rewrite E1, E2, E3. f_equal. lia.
Qed.

Lemma hex4_UnicodeEscape (c : N) :
  c < 65536 ->
  App.hex4 (Shell.lower_hex (c / 4096)) (Shell.lower_hex ((c / 256) mod 16))
    (Shell.lower_hex ((c / 16) mod 16)) (Shell.lower_hex (c mod 16))
  = Some c.
Proof.
  intros H. unfold App.hex4.
  rewrite !hex_value_lower_hex;
    try (apply N.mod_lt; discriminate);
    [|apply N.Div0.div_lt_upper_bound; exact H].
  f_equal.
  pose proof (N.div_mod c 16) as E1.
  pose proof (N.div_mod (c / 16) 16) as E2.
  pose proof (N.div_mod (c / 256) 16) as E3.
  rewrite N.Div0.div_div in E2.
  rewrite N.Div0.div_div in E3.
  change (16 * 16) with 256 in E2. change (256 * 16) with 4096 in E3.
  specialize (E1 ltac:(discriminate)). specialize (E2 ltac:(discriminate)).
  specialize (E3 ltac:(discriminate)). lia.
Qed.

Lemma psc_plain (c : N) (r : jsstring) :
  c <> dquote -> c <> ch "\" -> 32 <= c ->
  App.parse_string_chars (c :: r) = App.cons_fst c (App.parse_string_chars r).
Proof.
  intros H1 H2 H3. cbn [App.parse_string_chars].
  destruct (N.eqb_spec c dquote); [contradiction|].
  destruct (N.eqb_spec c (ch "\")); [contradiction|].
  destruct (N.ltb_spec c 32); [lia | reflexivity].
Qed.

Lemma psc_short (c e : N) (r : jsstring) :
  Shell.short_escape c = Some e ->
  App.parse_string_chars (ch "\" :: e :: r) = App.cons_fst c (App.parse_string_chars r).
Proof.
  unfold Shell.short_escape.
  repeat match goal with
         | |- context [N.eqb c ?k] => destruct (N.eqb_spec c k); [subst c|]
         end; intros E; try discriminate; injection E as <-; reflexivity.
Qed.

Lemma short_escape_None (c : N) :
  Shell.short_escape c = None -> c <> dquote /\ c <> ch "\".
Proof.
  unfold Shell.short_escape.
  repeat match goal with
         | |- context [N.eqb c ?k] => destruct (N.eqb_spec c k)
         end; intros E; try discriminate. now split.
Qed.

Lemma psc_unicode (c : N) (r : jsstring) :
  c < 65536 ->
  App.parse_string_chars (Shell.UnicodeEscape c ++ r)
  = App.cons_fst c (App.parse_string_chars r).
Proof.
  intros H. unfold Shell.UnicodeEscape.
  change (str "\u" ++ ?l) with (ch "\" :: ch "u" :: l).
  cbn [app App.parse_string_chars].
  change (ch "\" =? dquote) with false. change (ch "\" =? ch "\") with true.
  change (ch "u" =? ch "u") with true. cbv iota.
  now rewrite (hex4_UnicodeEscape H).
Qed.

Lemma surrogate_bounds (c : N) :
  is_lead_surrogate c = true \/ is_trail_surrogate c = true -> 55296 <= c < 65536.
Proof.
  unfold is_lead_surrogate, is_trail_surrogate, in_range.
  rewrite !andb_true_iff, !N.leb_le. lia.
Qed.

Lemma psc_surrogate (c : N) (r : jsstring) :
  is_lead_surrogate c = true \/ is_trail_surrogate c = true ->
  App.parse_string_chars (c :: r) = App.cons_fst c (App.parse_string_chars r).
Proof.
  intros H. apply surrogate_bounds in H.
  apply psc_plain; unfold dquote; change (ch "\") with 92; lia.
Qed.

(** Reading back a quoted string. *)
Lemma parse_quote_units (n : nat) (s rest : jsstring) :
  (length s <= n)%nat ->
  App.parse_string_chars (Shell.quote_units s ++ dquote :: rest) = Some (s, rest).
Proof.
  revert s. induction n as [|n IH]; intros s Hn.
  - destruct s; [reflexivity | cbn in Hn; lia].
  - destruct s as [|c r]; [reflexivity|]. cbn [length] in Hn.
    cbn [Shell.quote_units].
    destruct (Shell.short_escape c) as [e|] eqn:Es.
    + cbn [app]. rewrite (@psc_short c e _ Es), IH by lia. reflexivity.
    + apply short_escape_None in Es as [Hq Hb].
      destruct (N.ltb_spec c 32) as [Hlow|Hhigh].
      * rewrite <- app_assoc, psc_unicode, IH by lia. reflexivity.
      * destruct (is_lead_surrogate c) eqn:El.
        -- pose proof (@surrogate_bounds c (or_introl El)) as Hc.
           destruct r as [|d r'].
           ++ rewrite psc_unicode by lia. reflexivity.
           ++ destruct (is_trail_surrogate d) eqn:Et.
              ** cbn [app]. rewrite psc_surrogate by now left.
                 rewrite psc_surrogate by now right.
                 rewrite IH by (cbn [length] in Hn; lia). reflexivity.
              ** rewrite <- app_assoc, psc_unicode, IH by lia. reflexivity.
        -- destruct (is_trail_surrogate c) eqn:Et.
           ++ pose proof (@surrogate_bounds c (or_intror Et)) as Hc.
              rewrite <- app_assoc, psc_unicode, IH by lia. reflexivity.
           ++ cbn [app]. rewrite psc_plain, IH by (assumption || lia). reflexivity.
Qed.

Lemma parse_value_string (fuel : nat) (s rest : jsstring) :
  App.parse_value (S fuel) (Shell.QuoteJSONString s ++ rest) = Some (App.JString s, rest).
Proof.
  unfold Shell.QuoteJSONString. cbn [app]. rewrite <- app_assoc. cbn [app].
  change (App.parse_value (S fuel) (dquote :: ?r))
    with (option_map (fun p => (App.JString (fst p), snd p)) (App.parse_string_chars r)).
  now rewrite (@parse_quote_units (length s) s rest (le_n _)).
Qed.

Lemma parse_elements_step (fuel : nat) (s : jsstring) :
  App.parse_elements (S fuel) s
  = match App.parse_value fuel s with
    | None => None
    | Some (v, r) =>
        match App.skip_ws r with
        | c :: r' =>
            if c =? ch "," then App.cons_fst v (App.parse_elements fuel r')
            else if c =? ch "]" then Some ([v], r')
            else None
        | [] => None
        end
    end.
Proof. reflexivity. Qed.

Lemma parse_elements_strings (favorites : list jsstring) (fuel : nat) (x rest : jsstring) :
  (length favorites + 2 <= fuel)%nat ->
  App.parse_elements fuel
    (join (ch ",") (map Shell.QuoteJSONString (x :: favorites)) ++ ch "]" :: rest)
  = Some (map App.JString (x :: favorites), rest).
Proof.
  revert fuel x. induction favorites as [|y l IH]; intros fuel x Hf.
  - destruct fuel as [|[|fuel]]; [cbn in Hf; lia ..|].
    cbn [map join]. rewrite parse_elements_step, parse_value_string. reflexivity.
  - destruct fuel as [|[|fuel]]; [cbn in Hf; lia ..|].
    change (join (ch ",") (map Shell.QuoteJSONString (x :: y :: l)))
      with (Shell.QuoteJSONString x
              ++ ch "," :: join (ch ",") (map Shell.QuoteJSONString (y :: l))).
    rewrite <- app_assoc. rewrite parse_elements_step, parse_value_string.
    cbn [app]. change (App.skip_ws (ch "," :: ?r)) with (ch "," :: r).
    change (ch "," =? ch ",") with true. cbv iota.
    rewrite IH by (cbn [length] in Hf; lia). reflexivity.
Qed.

Lemma length_join_quoted (favorites : list jsstring) :
  (length favorites
   <= length (join (ch ",") (map Shell.QuoteJSONString favorites)))%nat.
Proof.
  induction favorites as [|x l IH]; [cbn; lia|].
  destruct l as [|y l].
  - cbn [map join length Shell.QuoteJSONString]. lia.
  - change (join (ch ",") (map Shell.QuoteJSONString (x :: y :: l)))
      with (Shell.QuoteJSONString x
              ++ ch "," :: join (ch ",") (map Shell.QuoteJSONString (y :: l))).
    rewrite length_app. cbn [length] in *. lia.
Qed.

Lemma parse_value_array (fuel : nat) (t : jsstring) :
  App.parse_value (S fuel) (ch "[" :: dquote :: t)
  = option_map (fun p => (App.JArray (fst p), snd p))
      (App.parse_elements fuel (dquote :: t)).
Proof. reflexivity. Qed.

Lemma JSON_parse_stringify (favorites : list jsstring) :
  App.JSON_parse (Shell.JSON_stringify favorites)
  = Returns (App.JArray (map App.JString favorites)).
Proof.
  unfold App.JSON_parse, Shell.JSON_stringify.
  destruct favorites as [|x l]; [reflexivity|].
  change (str "[" ++ ?b ++ str "]") with (ch "[" :: b ++ [ch "]"]).
  pose proof (length_join_quoted (x :: l)) as Hl.
  assert (exists fuel,
             (2 * length (ch "[" :: join (ch ",") (map Shell.QuoteJSONString (x :: l))
                            ++ [ch "]"]) + 2 = S fuel)%nat
             /\ (length l + 2 <= fuel)%nat) as [fuel [-> Hf]].
  { eexists. split; [cbn [length]; rewrite length_app; cbn [length Nat.mul Nat.add];
                     rewrite Nat.add_succ_r; reflexivity|].
    cbn [length] in Hl. lia. }
  assert (exists t, join (ch ",") (map Shell.QuoteJSONString (x :: l)) ++ [ch "]"]
                    = dquote :: t) as [t Et].
  { destruct l; eexists; reflexivity. }
  rewrite Et, parse_value_array, <- Et.
  rewrite (@parse_elements_strings l fuel x [] Hf). reflexivity.
Qed.

(** The favorites survive a reload: the text the shell writes for a list
    of ids, whatever code units the ids hold, is read back as the same
    list. *)
Theorem favorites_round_trip (favorites : list jsstring) :
  App.load_favorites (Returns (Some (Shell.save_favorites favorites)))
  = App.JArray (map App.JString favorites).
Proof.
  unfold App.load_favorites, Shell.save_favorites. cbn [bind].
  assert (is_empty (Shell.JSON_stringify favorites) = false) as -> by reflexivity.
  rewrite JSON_parse_stringify. reflexivity.
Qed.

End FavoritesFacts.

(* ================================================================== *)
(** * The domains the validator accepts *)
(* ================================================================== *)

Section AcceptedDomains.

Import Shape.
Local Open Scope N_scope.

(** ** Pieces of a split string *)

Lemma split_length_In (sep : N) (s : jsstring) :
  (2 <= length (split sep s))%nat <-> In sep s.
Proof.
  induction s as [|c s IH]; cbn [split In length].
  - split; [lia | intros []].
  - destruct (N.eqb_spec c sep) as [->|Hne].
    + split; [now left|]. intros _. cbn [length].
      pose proof (@split_nonempty sep s). destruct (split sep s); [contradiction|].
      cbn [length]. lia.
    + pose proof (@split_nonempty sep s) as Hs.
      destruct (split sep s) as [|l ls]; [contradiction|].
      cbn [length] in *. rewrite IH. intuition congruence.
Qed.

Lemma split_pieces (sep : N) (s : jsstring) :
  Forall (fun l => ~ In sep l /\ forall c, In c l -> In c s) (split sep s).
Proof.
  induction s as [|c s IH]; cbn [split].
  - constructor; [split; [intros [] | intros x []] | constructor].
  - destruct (N.eqb_spec c sep) as [->|Hne].
    + constructor; [split; [intros [] | intros x []]|].
      eapply Forall_impl; [|exact IH]. cbn beta. intros l [H1 H2].
      split; [exact H1|]. intros x Hx. right. now apply H2.
    + pose proof (@split_nonempty sep s) as Hs.
      destruct (split sep s) as [|l ls]; [contradiction|].
      apply Forall_cons_iff in IH as [[H1 H2] IH]. constructor.
      * split; [intros [E|Hin]; [congruence | contradiction]|].
        intros x [<-|Hx]; [now left | right; now apply H2].
      * eapply Forall_impl; [|exact IH]. cbn beta. intros l' [H1' H2'].
        split; [exact H1'|]. intros x Hx. right. now apply H2'.
Qed.

Lemma join_Forall (q : N -> Prop) (sep : N) (pieces : list jsstring) :
  q sep -> Forall (Forall q) pieces -> Forall q (join sep pieces).
Proof.
  intros Hsep H. induction H as [|p ps Hp Hps IH]; [constructor|].
  destruct ps as [|p' ps']; [exact Hp|].
  change (join sep (p :: p' :: ps')) with (p ++ sep :: join sep (p' :: ps')).
  apply Forall_app. split; [exact Hp | now constructor].
Qed.

Lemma join_snoc (sep : N) (front : list jsstring) (l : jsstring) :
  join sep (front ++ [l]) = concat (map (fun p => p ++ [sep]) front) ++ l.
Proof.
  induction front as [|p ps IH]; [reflexivity|].
  cbn [app map concat]. rewrite <- !app_assoc. cbn [app]. rewrite <- IH.
  destruct ps; reflexivity.
Qed.

(** ** Hyphens at the ends of a label *)

Lemma startsWith_unit (x : N) (l : jsstring) :
  l <> [] -> startsWith [x] l = (x =? hd 0 l).
Proof.
  destruct l as [|c r]; [contradiction|]. intros _. cbn [startsWith hd].
  now rewrite andb_true_r.
Qed.

Lemma endsWith_unit (x : N) (l : jsstring) :
  l <> [] -> endsWith [x] l = (x =? last l 0).
Proof.
  intros H. destruct (exists_last H) as [l' [e ->]].
  unfold endsWith. rewrite rev_app_distr, last_last. cbn [rev app startsWith].
  now rewrite andb_true_r.
Qed.

(** ** Building a match of the pattern *)

Lemma matches_star_of_class (p : N -> bool) (w : jsstring) :
  Forall (fun c => p c = true) w -> matches (Star (Class p)) w.
Proof.
  induction 1 as [|c w Hc Hw IH]; [constructor|].
  change (c :: w) with ([c] ++ w). constructor; [now constructor | exact IH].
Qed.

Lemma matches_UpTo_class (p : N -> bool) (n : nat) (w : jsstring) :
  Forall (fun c => p c = true) w -> (length w <= n)%nat ->
  matches (UpTo n (Class p)) w.
Proof.
  revert w. induction n as [|n IH]; intros w Hw Hn.
  - destruct w; [constructor | cbn in Hn; lia].
  - cbn [UpTo]. unfold Opt. destruct w as [|c w]; [apply matches_alt_l; constructor|].
    apply matches_alt_r. apply Forall_cons_iff in Hw as [Hc Hw].
    change (c :: w) with ([c] ++ w). constructor; [now constructor|].
    apply IH; [exact Hw | cbn [length] in Hn; lia].
Qed.

Lemma matches_star_concat (a : regex) (ws : list jsstring) :
  Forall (matches a) ws -> matches (Star a) (concat ws).
Proof.
  induction 1 as [|w ws Hw Hws IH]; [constructor|].
  cbn [concat]. now constructor.
Qed.

Lemma alnum_or_hyphen_alnum (c : N) :
  alnum_or_hyphen c = true -> c <> ch "-" -> is_alnum c = true.
Proof.
  unfold alnum_or_hyphen. intros H Hne. apply orb_true_iff in H as [H|H]; [exact H|].
  apply N.eqb_eq in H. contradiction.
Qed.

(** A label and its period match the group of the pattern. *)
Lemma label_matches (l : jsstring) :
  label_ok l ->
  matches (Seq (Class is_alnum)
             (Seq (Opt (Seq (UpTo 61 (Class alnum_or_hyphen)) (Class is_alnum)))
                (Class (N.eqb (ch "."))))) (l ++ [ch "."]).
Proof.
  intros [Hne [Hlen [Hall [Hhd Hlast]]]].
  destruct l as [|c m]; [contradiction|]. cbn [hd] in Hhd.
  apply Forall_cons_iff in Hall as [Hc Hm].
  change ((c :: m) ++ [ch "."]) with ([c] ++ m ++ [ch "."]).
  constructor; [constructor; now apply alnum_or_hyphen_alnum|].
  constructor; [|constructor; apply N.eqb_refl].
  unfold Opt. destruct m as [|d m'] eqn:Em; [apply matches_alt_l; constructor|].
  apply matches_alt_r. rewrite <- Em in *.
  assert (m <> []) as Hm' by (rewrite Em; discriminate).
  destruct (exists_last Hm') as [body [e Eb]]. rewrite Eb in *.
  change (c :: body ++ [e]) with ((c :: body) ++ [e]) in Hlast, Hlen.
  rewrite last_last in Hlast. apply Forall_app in Hm as [Hbody He].
  apply Forall_cons_iff in He as [He _].
  constructor.
  - apply matches_UpTo_class; [exact Hbody|].
    rewrite length_app in Hlen. cbn [length] in Hlen. lia.
  - constructor. now apply alnum_or_hyphen_alnum.
Qed.

(** ** What the pattern asks of the last label *)

Lemma domainRegex_tld (t : jsstring) :
  test domainRegex t = true ->
  exists front c c1 rest,
    t = front ++ ch "." :: c :: c1 :: rest
    /\ is_alpha c = true
    /\ Forall (fun x => alnum_or_hyphen x = true) (c1 :: rest).
Proof.
  intros H. apply test_matches in H. unfold domainRegex, Plus in H.
  apply matches_seq_inv in H as [groups [tld [-> [Hg Ht]]]].
  apply matches_seq_inv in Ht as [a [rest [-> [Ha Hrest]]]].
  apply matches_class_inv in Ha as [c [-> Hc]].
  apply matches_seq_inv in Hrest as [r1 [r2 [-> [Hr1 Hr2]]]].
  apply matches_class_inv in Hr1 as [c1 [-> Hc1]].
  apply matches_star_class in Hr2.
  assert (forall v,
             matches (Seq (Class is_alnum)
                        (Seq (Opt (Seq (UpTo 61 (Class alnum_or_hyphen)) (Class is_alnum)))
                           (Class (N.eqb (ch "."))))) v ->
             exists v', v = v' ++ [ch "."]) as Hgroup.
  { intros v Hv.
    apply matches_seq_inv in Hv as [v1 [v2 [-> [_ Hv2]]]].
    apply matches_seq_inv in Hv2 as [v3 [v4 [-> [_ Hv4]]]].
    apply matches_class_inv in Hv4 as [d [-> Hd]].
    apply N.eqb_eq in Hd. subst d.
    exists (v1 ++ v3). now rewrite <- app_assoc. }
  assert (exists front, groups = front ++ [ch "."]) as [front ->].
  { apply matches_seq_inv in Hg as [g1 [g2 [-> [Hg1 Hg2]]]].
    apply Hgroup in Hg1 as [g1' ->].
    apply (matches_star_ends Hgroup) in Hg2 as [->|[g2' ->]].
    - exists g1'. now rewrite app_nil_r.
    - exists ((g1' ++ [ch "."]) ++ g2'). now rewrite app_assoc. }
  exists front, c, c1, r2. repeat split.
  - now rewrite <- app_assoc.
  - assumption.
  - constructor; assumption.
Qed.

Lemma alnum_or_hyphen_not_period (c : N) : alnum_or_hyphen c = true -> c <> ch ".".
Proof. intros H ->. vm_compute in H. discriminate. Qed.

Lemma alnum_or_hyphen_domain_char (c : N) : alnum_or_hyphen c = true -> domain_char c = true.
Proof.
  unfold alnum_or_hyphen, domain_char. intros H.
  apply orb_true_iff in H as [-> | ->]; [reflexivity | now rewrite !orb_true_r].
Qed.

Lemma domain_char_label (c : N) :
  domain_char c = true -> c <> ch "." -> alnum_or_hyphen c = true.
Proof.
  unfold alnum_or_hyphen, domain_char. intros H Hne.
  destruct (is_alnum c); [reflexivity|]. cbn [orb] in *.
  apply orb_true_iff in H as [H|H]; [apply N.eqb_eq in H; contradiction | exact H].
Qed.

(** ** The checks of the validator *)

Lemma validateDomain_None_checks (d : jsstring) :
  validateDomain d = None
  <-> is_empty (trim d) = false
      /\ (253 <? length (trim d))%nat = false
      /\ has_invalid_char (trim d) = false
      /\ includes (str ".") (trim d) = true
      /\ existsb (fun label => (length label =? 0)%nat) (split (ch ".") (trim d)) = false
      /\ check_labels (split (ch ".") (trim d)) = None
      /\ test numericRegex (last (split (ch ".") (trim d)) []) = false
      /\ test domainRegex (trim d) = true.
Proof.
  unfold validateDomain. cbv zeta.
  destruct (is_empty (trim d)); [split; [discriminate | intros [H _]; discriminate]|].
  destruct (253 <? length (trim d))%nat;
    [split; [discriminate | intros [_ [H _]]; discriminate]|].
  destruct (has_invalid_char (trim d));
    [split; [discriminate | intros [_ [_ [H _]]]; discriminate]|].
  destruct (includes (str ".") (trim d)); cbn [negb];
    [|split; [discriminate | intros [_ [_ [_ [H _]]]]; discriminate]].
  destruct (existsb (fun label => (length label =? 0)%nat) (split (ch ".") (trim d)));
    [split; [discriminate | intros [_ [_ [_ [_ [H _]]]]]; discriminate]|].
  destruct (check_labels (split (ch ".") (trim d)));
    [split; [discriminate | intros [_ [_ [_ [_ [_ [H _]]]]]]; discriminate]|].
  destruct (test numericRegex (last (split (ch ".") (trim d)) []));
    [split; [discriminate | intros [_ [_ [_ [_ [_ [_ [H _]]]]]]]; discriminate]|].
  destruct (test domainRegex (trim d)); cbn [negb];
    [|split; [discriminate | intros [_ [_ [_ [_ [_ [_ [_ H]]]]]]]; discriminate]].
  split; [intros _; repeat split | reflexivity].
Qed.

Lemma check_labels_ok (labels : list jsstring) :
  Forall label_ok labels -> check_labels labels = None.
Proof.
  induction 1 as [|l ls [Hne [Hlen [_ [Hhd Hlast]]]] _ IH]; [reflexivity|].
  cbn [check_labels].
  destruct (Nat.ltb_spec 63 (length l)); [lia|].
  change (str "-") with [ch "-"].
  rewrite (startsWith_unit _ Hne), (endsWith_unit _ Hne).
  destruct (N.eqb_spec (ch "-") (hd 0 l)); [congruence|].
  destruct (N.eqb_spec (ch "-") (last l 0)); [congruence|]. exact IH.
Qed.

Lemma numericRegex_letter (c : N) (r : jsstring) :
  is_alpha c = true -> test numericRegex (c :: r) = false.
Proof.
  intros Hc. destruct (test numericRegex (c :: r)) eqn:E; [|reflexivity].
  apply test_matches in E. unfold numericRegex, Plus in E.
  apply matches_seq_inv in E as [s [t [Es [Hs _]]]].
  apply matches_class_inv in Hs as [x [-> Hx]].
  injection Es as <- _. exfalso. revert Hc Hx. clear.
  intros Hc Hx. apply is_alpha_cases in Hc.
  assert (is_digit c = false) as E by (destruct Hc; decide_units).
  congruence.
Qed.

(** The validator accepts a text exactly when the text, with the white
    space around it taken away, is a domain name: at most 253 code units,
    two labels or more between periods, each label of one to sixty-three
    letters, digits and hyphens with no hyphen at either end, and a last
    label that starts with a letter and has a second code unit. *)
Theorem validateDomain_accepts_iff (d : jsstring) :
  validateDomain d = None <-> domain_ok (trim d).
Proof.
  rewrite validateDomain_None_checks. set (t := trim d). split.
  - intros [_ [Hlen [Hchars [Hdot [Hempty [Hlabels [_ Hre]]]]]]].
    apply has_invalid_char_false in Hchars. apply no_empty_label in Hempty.
    apply check_labels_None in Hlabels.
    change (str ".") with [ch "."] in Hdot. apply includes_unit in Hdot.
    destruct (domainRegex_tld _ Hre) as [front [c [c1 [rest [Et [Hc Hrest]]]]]].
    split; [destruct (Nat.ltb_spec 253 (length t)); [discriminate | lia]|].
    split; [now apply split_length_In|]. split.
    + pose proof (split_pieces (ch ".") t) as Hp.
      rewrite Forall_forall in *. intros l Hl.
      specialize (Hp l Hl) as [Hnodot Hincl]. specialize (Hempty l Hl).
      specialize (Hlabels l Hl) as [Hl63 [Hs He]].
      change (str "-") with [ch "-"] in Hs, He.
      rewrite (startsWith_unit _ Hempty) in Hs. rewrite (endsWith_unit _ Hempty) in He.
      apply N.eqb_neq in Hs, He.
      repeat split; try assumption; try congruence.
      apply Forall_forall. intros x Hx.
      apply domain_char_label; [apply Hchars, Hincl, Hx|].
      intros ->. contradiction.
    + rewrite Et, last_split_app.
      * exists c, (c1 :: rest). repeat split; [assumption | discriminate].
      * intros [E|Hin]; [rewrite E in Hc; vm_compute in Hc; discriminate|].
        rewrite Forall_forall in Hrest.
        now apply (alnum_or_hyphen_not_period (Hrest _ Hin)).
  - intros [Hlen [Htwo [Hlabels [c [r [Etld [Hc Hr]]]]]]].
    assert (Forall (fun x => domain_char x = true) t) as Hchars.
    { rewrite <- (join_split (ch ".") t). apply join_Forall; [reflexivity|].
      eapply Forall_impl; [|exact Hlabels]. cbn beta.
      intros l [_ [_ [Hall _]]]. eapply Forall_impl; [|exact Hall].
      apply alnum_or_hyphen_domain_char. }
    repeat split.
    + destruct t; [cbn in Htwo; lia | reflexivity].
    + destruct (Nat.ltb_spec 253 (length t)); [lia | reflexivity].
    + unfold has_invalid_char. apply not_true_is_false. intros E.
      apply existsb_exists in E as [x [Hx E]]. rewrite Forall_forall in Hchars.
      rewrite (Hchars x Hx) in E. discriminate.
    + change (str ".") with [ch "."]. apply includes_unit. now apply split_length_In.
    + apply not_true_is_false. intros E. apply existsb_exists in E as [l [Hl E]].
      rewrite Forall_forall in Hlabels. destruct (Hlabels l Hl) as [Hne _].
      apply Nat.eqb_eq in E. destruct l; [contradiction | discriminate].
    + now apply check_labels_ok.
    + rewrite Etld. now apply numericRegex_letter.
    + apply test_matches. rewrite <- (join_split (ch ".") t).
      pose proof (@split_nonempty (ch ".") t) as Hne.
      destruct (exists_last Hne) as [front [tld Es]].
      rewrite Es in Hlabels, Htwo, Etld |- *. rewrite last_last in Etld. subst tld.
      assert (front <> []) as Hfront.
      { intros E. rewrite E in Htwo. cbn in Htwo. lia. }
      apply Forall_app in Hlabels as [Hfl Htl].
      apply Forall_cons_iff in Htl as [[_ [_ [Hall _]]] _].
      apply Forall_cons_iff in Hall as [_ Hall].
      rewrite join_snoc. unfold domainRegex. constructor.
      * destruct front as [|l ls]; [contradiction|].
        apply Forall_cons_iff in Hfl as [Hl Hls]. cbn [map concat].
        unfold Plus. constructor; [now apply label_matches|].
        apply matches_star_concat. apply Forall_map.
        eapply Forall_impl; [|exact Hls]. apply label_matches.
      * change (c :: r) with ([c] ++ r). constructor; [now constructor|].
        unfold Plus. destruct r as [|c1 r']; [contradiction|].
        apply Forall_cons_iff in Hall as [Hc1 Hr'].
        change (c1 :: r') with ([c1] ++ r').
        constructor; [now constructor | now apply matches_star_of_class].
Qed.

End AcceptedDomains.

(* ================================================================== *)
(** * The navigation bar *)
(* ================================================================== *)

Section NavbarFacts.

Import Navbar.
Local Open Scope Z_scope.

Lemma width_before_S (tabRefs : list (option Z)) (k : nat) :
  width_before tabRefs (S k)
  = width_before tabRefs k + match tab_at tabRefs k with Some w => w | None => 0 end.
Proof.
  unfold width_before. rewrite seq_S, fold_right_app. cbn [Nat.add fold_right].
  generalize (seq 0 k) as l. intros l.
  induction l as [|i l IH]; cbn [fold_right].
  - destruct (tab_at tabRefs k); lia.
  - rewrite IH. destruct (tab_at tabRefs i), (tab_at tabRefs k); lia.
Qed.

Lemma visible_loop_fits (containerWidth : Z) (n : nat) (tabRefs : list (option Z))
  (steps i : nat) (currentWidth : Z) (newVisibleCount : nat) :
  (i + steps = n)%nat ->
  (newVisibleCount <= i)%nat ->
  currentWidth = width_before tabRefs i ->
  currentWidth = width_before tabRefs newVisibleCount ->
  ((0 < newVisibleCount)%nat ->
   currentWidth + (if (newVisibleCount <? n)%nat then moreButtonWidth else 0)
   <= containerWidth) ->
  let k := visible_loop containerWidth n tabRefs steps i currentWidth newVisibleCount in
  (k <= n)%nat
  /\ ((0 < k)%nat ->
      width_before tabRefs k + (if (k <? n)%nat then moreButtonWidth else 0)
      <= containerWidth).
Proof.
  revert i currentWidth newVisibleCount.
  induction steps as [|steps IH]; intros i cur nvc Hi Hle Hcur Hnvc Hfit; cbn [visible_loop].
  - cbv zeta. split; [lia|]. intros Hk. rewrite <- Hnvc. now apply Hfit.
  - destruct (tab_at tabRefs i) as [tabWidth|] eqn:Et.
    + cbv zeta.
      destruct (Z.leb_spec
                  (cur + tabWidth
                   + (if Z.of_nat i <? Z.of_nat n - 1 then moreButtonWidth else 0))
                  containerWidth) as [Hfits|Hno].
      * apply IH; try lia.
        -- rewrite width_before_S, Et. lia.
        -- rewrite width_before_S, Et. lia.
        -- intros _. destruct (Nat.ltb_spec (S i) n), (Z.ltb_spec (Z.of_nat i) (Z.of_nat n - 1));
             lia.
      * split; [lia|]. intros Hk. rewrite <- Hnvc. now apply Hfit.
    + apply IH; try lia. rewrite width_before_S, Et. lia.
Qed.

(** The count the navigation bar sets is at most the number of tabs. The
    tabs are split in that many shown tabs and the tabs of the dropdown,
    whose button is rendered when the dropdown is not empty; and when a tab
    is shown, the measured tabs that are shown fit the container together
    with the width kept for that button when it is rendered. *)
Theorem calculateVisibleTabs_fits (containerWidth : Z) (categories : list jsstring)
  (tabRefs : list (option Z)) (prevCount : nat) :
  let n := length categories in
  let k := calculateVisibleTabs (Some containerWidth) n tabRefs prevCount in
  (k <= n)%nat
  /\ length (visible_tabs categories k) = k
  /\ visible_tabs categories k ++ dropdownCategories categories k = categories
  /\ ((0 < k)%nat ->
      width_before tabRefs k
      + match dropdownCategories categories k with
        | [] => 0
        | _ :: _ => moreButtonWidth
        end
      <= containerWidth).
Proof.
  cbv zeta. unfold calculateVisibleTabs, visible_tabs, dropdownCategories.
  assert (0 = width_before tabRefs 0) as E0 by reflexivity.
  destruct (@visible_loop_fits containerWidth (length categories) tabRefs
              (length categories) 0 0 0 eq_refl (le_n 0) E0 E0) as [H1 H2]; [lia|].
  split; [exact H1|]. split; [rewrite length_firstn; lia|].
  split; [apply firstn_skipn|]. intros Hk. specialize (H2 Hk).
  revert H1 H2.
  generalize (visible_loop containerWidth (length categories) tabRefs
                (length categories) 0 0 0) as k.
  intros k H1 H2. pose proof (length_skipn k categories) as Hl.
  destruct (Nat.ltb_spec k (length categories));
    destruct (skipn k categories); cbn [length] in Hl; (exact H2 || lia).
Qed.

Lemma visible_loop_stops (containerWidth : Z) (n : nat) (tabRefs : list (option Z))
  (steps i : nat) (currentWidth : Z) :
  (forall j, (j < n)%nat -> tab_at tabRefs j <> None) ->
  (i + steps = n)%nat ->
  currentWidth = width_before tabRefs i ->
  let k := visible_loop containerWidth n tabRefs steps i currentWidth i in
  (k < n)%nat ->
  containerWidth
  < width_before tabRefs (S k) + (if (S k <? n)%nat then moreButtonWidth else 0).
Proof.
  intros Hall. revert i currentWidth.
  induction steps as [|steps IH]; intros i cur Hi Hcur; cbn [visible_loop].
  - cbv zeta. lia.
  - destruct (tab_at tabRefs i) as [tabWidth|] eqn:Et;
      [|exfalso; apply (Hall i); [lia | assumption]].
    cbv zeta.
    destruct (Z.leb_spec
                (cur + tabWidth
                 + (if Z.of_nat i <? Z.of_nat n - 1 then moreButtonWidth else 0))
                containerWidth) as [Hfits|Hno].
    + apply IH; [lia|]. rewrite width_before_S, Et. lia.
    + intros _. rewrite width_before_S, Et.
      destruct (Nat.ltb_spec (S i) n), (Z.ltb_spec (Z.of_nat i) (Z.of_nat n - 1)); lia.
Qed.

(** When every tab is measured, the loop stops at the first tab that does
    not fit: if a tab is hidden, the tabs shown and the first hidden one do
    not fit the container together with the button that the hidden tabs
    after it would need. *)
Theorem calculateVisibleTabs_stops (containerWidth : Z) (n : nat)
  (tabRefs : list (option Z)) (prevCount : nat) :
  (forall j, (j < n)%nat -> tab_at tabRefs j <> None) ->
  let k := calculateVisibleTabs (Some containerWidth) n tabRefs prevCount in
  (k < n)%nat ->
  containerWidth
  < width_before tabRefs (S k) + (if (S k <? n)%nat then moreButtonWidth else 0).
Proof.
  intros Hall. unfold calculateVisibleTabs.
  apply (@visible_loop_stops containerWidth n tabRefs n 0 0 Hall); reflexivity.
Qed.

Lemma calculateVisibleTabs_stops_witness :
  calculateVisibleTabs (Some 290) 3 [Some 100; Some 100; Some 100] 3 = 2%nat
  /\ 290 < width_before [Some 100; Some 100; Some 100] 3.
Proof.
  split; [reflexivity|].
  refine (@calculateVisibleTabs_stops 290 3 [Some 100; Some 100; Some 100] 3 _ _).
  - intros [|[|[|j]]] Hj; cbn; try discriminate; lia.
  - cbn. lia.
Defined.

End NavbarFacts.

(* ================================================================== *)
(** * From the form to the cards *)
(* ================================================================== *)

Section FormToCards.

Import Types ToolCard HeaderForm.
Local Open Scope N_scope.

(** A URL typed into the form, with or without a web scheme and a [www.]
    prefix, whose host is a domain name the validator accepts in lower
    case: a submission hands the host in lower case to the shell, and
    clears the error. *)
Theorem search_submits_bare_host
  (P : Platform) (scheme www host suffix : jsstring) (st : FormState) :
  inputValue st = scheme ++ www ++ host ++ suffix ->
  is_scheme_prefix scheme = true ->
  is_www_prefix www = true ->
  plain_host host = true ->
  suffix_ok scheme suffix = true ->
  validateDomain (map ascii_lower host) = None ->
  handleSearchClick (new_URL P) st
  = Returns ({| inputValue := inputValue st; error := [] |}, [map ascii_lower host]).
Proof.
  intros Ei Hs Hw Hh Hf Hv. unfold handleSearchClick.
  rewrite Ei at 1.
  rewrite (sanitizeDomain_decomposed P scheme www host suffix Hs Hw Hh Hf).
  cbn [bind]. now rewrite Hv.
Qed.

Lemma search_submits_bare_host_witness :
  handleSearchClick (new_URL ascii_platform)
    {| inputValue := str "https://WWW.Example.com/path?x=1"; error := [] |}
  = Returns ({| inputValue := str "https://WWW.Example.com/path?x=1"; error := [] |},
             [str "example.com"]).
Proof.
  refine (@search_submits_bare_host ascii_platform (str "https://") (str "WWW.")
            (str "Example.com") (str "/path?x=1")
            {| inputValue := str "https://WWW.Example.com/path?x=1"; error := [] |}
            eq_refl _ _ _ _ _); vm_compute; reflexivity.
Defined.

Lemma replace_absent (token text s : jsstring) :
  includes token s = false -> replace token text s = s.
Proof.
  unfold includes, replace. cbv zeta. intros H.
  destruct (Z.ltb_spec (indexOf token s) 0); [reflexivity|].
  apply Z.leb_gt in H. lia.
Qed.

(** A template that holds neither placeholder is not detected: the link
    of the card and the URL of the batch are the template itself for every
    domain, and when the platform parses the template the card is idle,
    not in the error state. *)
Theorem card_url_no_token (tool : Tool) :
  includes (str "{{DOMAIN}}") (urlTemplate tool) = false ->
  includes (str "{{DOMAIN_NAME}}") (urlTemplate tool) = false ->
  (forall d,
      card_url tool d = urlTemplate tool
      /\ Dashboard.batch_url tool d = urlTemplate tool)
  /\ (forall new_URL d u,
         new_URL (urlTemplate tool) = Returns u ->
         generate new_URL tool d
         = Returns {| status := idle; finalUrl := urlTemplate tool |}).
Proof.
  intros H1 H2.
  assert (forall d, card_url tool d = urlTemplate tool) as Hc.
  { intros d. unfold card_url. cbv zeta.
    rewrite (@replace_absent _ _ _ H1). apply (@replace_absent _ _ _ H2). }
  split.
  - intros d. split; [apply Hc|]. unfold Dashboard.batch_url. cbv zeta.
    rewrite (@replace_absent _ _ _ H1). apply (@replace_absent _ _ _ H2).
  - intros new_URL d u Hu. unfold generate. cbv zeta. rewrite Hc, Hu. reflexivity.
Qed.

Lemma card_url_no_token_witness :
  generate (new_URL ascii_platform)
    {| id := str "home"; title := str "Who.is"; description := [];
       urlTemplate := str "https://who.is/"; urlType := None; category := WHOIS |}
    (str "example.com")
  = Returns {| status := idle; finalUrl := str "https://who.is/" |}.
Proof.
  refine (proj2 (@card_url_no_token
                   {| id := str "home"; title := str "Who.is"; description := [];
                      urlTemplate := str "https://who.is/"; urlType := None;
                      category := WHOIS |} _ _)
            (new_URL ascii_platform) (str "example.com")
            {| hostname := str "who.is" |} _); vm_compute; reflexivity.
Defined.

End FormToCards.

(* ================================================================== *)
(** * Templates that never fail, and the account of a batch *)
(* ================================================================== *)

Section TemplateFacts.

Import Types ToolCard.
Local Open Scope N_scope.

Lemma indexOf_from_after (c : N) (p a s : jsstring) (i : Z) :
  ~ In c a -> (0 <= i)%Z ->
  (indexOf_from (c :: p) (a ++ s) i < 0)%Z
  \/ (i + Z.of_nat (length a) <= indexOf_from (c :: p) (a ++ s) i)%Z.
Proof.
  revert i. induction a as [|x a IH]; intros i Ha Hi.
  - cbn [app length]. clear Ha. revert i Hi.
    induction s as [|y s IHs]; intros i Hi; cbn [indexOf_from startsWith].
    + left. lia.
    + destruct ((c =? y) && startsWith p s); [right; lia|].
      destruct (IHs (i + 1)%Z ltac:(lia)); [now left | right; lia].
  - cbn [app indexOf_from startsWith].
    destruct (N.eqb_spec c x) as [->|Hn]; [exfalso; apply Ha; now left|].
    cbn [andb length].
    destruct (IH (i + 1)%Z (fun H => Ha (or_intror H)) ltac:(lia)); [now left | right; lia].
Qed.

(** A replacement leaves in place a prefix that does not hold the first
    code unit of what is searched. *)
Lemma replace_after_prefix (c : N) (p text a s : jsstring) :
  ~ In c a -> exists rest, replace (c :: p) text (a ++ s) = a ++ rest.
Proof.
  intros Ha. unfold replace, indexOf. cbv zeta.
  destruct (@indexOf_from_after c p a s 0%Z Ha (Z.le_refl 0)) as [Hneg|Hpos].
  - apply Z.ltb_lt in Hneg. rewrite Hneg. now exists s.
  - assert ((indexOf_from (c :: p) (a ++ s) 0 <? 0)%Z = false) as -> by lia.
    rewrite firstn_app. rewrite firstn_all2 by lia. rewrite <- app_assoc. eauto.
Qed.

Lemma web_scheme_letters (name : jsstring) :
  In (map ascii_lower name) web_schemes -> Forall (fun c => is_alpha c = true) name.
Proof.
  intros H.
  assert (Forall (fun c => is_alpha c = true) (map ascii_lower name)) as Hl.
  { unfold web_schemes in H. cbn [In] in H.
    destruct H as [<-|[<-|[<-|[<-|[<-|[]]]]]]; repeat constructor. }
  clear H. induction name as [|c name IH]; [constructor|].
  cbn [map] in Hl. apply Forall_cons_iff in Hl as [Hc Hl].
  constructor; [now apply ascii_lower_alpha | now apply IH].
Qed.

(** A template that starts with a web scheme, a host name that ends in a
    label starting with a letter and has no punycode label, and a slash
    never puts the card in the error state: for every domain, validated or
    not, the platform parses the substituted template, and the link keeps
    the scheme, the host and the slash of the template. *)
Theorem generate_fixed_origin
  (P : Platform) (tool : Tool) (name host path d : jsstring) :
  urlTemplate tool = name ++ str "://" ++ host ++ ch "/" :: path ->
  In (map ascii_lower name) web_schemes ->
  parsable host ->
  generate (new_URL P) tool d
  = Returns {| status := idle; finalUrl := card_url tool d |}
  /\ exists rest, card_url tool d = name ++ str "://" ++ host ++ ch "/" :: rest.
Proof.
  intros Et Hname Hhost.
  assert (~ In (ch "{") ((name ++ str "://" ++ host) ++ [ch "/"])) as Hpre.
  { rewrite !in_app_iff. intros [[Hn|[Hs|Hh]]|Hs].
    - apply web_scheme_letters in Hname. rewrite Forall_forall in Hname.
      specialize (Hname _ Hn). vm_compute in Hname. discriminate.
    - cbn in Hs. intuition discriminate.
    - destruct Hhost as [Hchars _]. rewrite Forall_forall in Hchars.
      specialize (Hchars _ Hh). vm_compute in Hchars. discriminate.
    - cbn in Hs. intuition discriminate. }
  assert (exists rest, card_url tool d = name ++ str "://" ++ host ++ ch "/" :: rest)
    as [rest Er].
  { unfold card_url. cbv zeta. rewrite Et.
    replace (name ++ str "://" ++ host ++ ch "/" :: path)
      with (((name ++ str "://" ++ host) ++ [ch "/"]) ++ path)
      by (rewrite <- !app_assoc; reflexivity).
    change (str "{{DOMAIN}}") with (ch "{" :: str "{DOMAIN}}").
    change (str "{{DOMAIN_NAME}}") with (ch "{" :: str "{DOMAIN_NAME}}").
    destruct (@replace_after_prefix (ch "{") (str "{DOMAIN}}") d _ path Hpre) as [r1 ->].
    destruct (@replace_after_prefix (ch "{") (str "{DOMAIN_NAME}}")
                (getDomainPart d (urlType tool)) _ r1 Hpre) as [r2 ->].
    exists r2. rewrite <- !app_assoc. reflexivity. }
  split; [|now exists rest].
  unfold generate. cbv zeta. rewrite Er. unfold new_URL.
  rewrite (@basic_URL_parse_plain P name host (ch "/" :: rest) Hname Hhost)
    by reflexivity.
  reflexivity.
Qed.

Lemma generate_fixed_origin_witness :
  generate (new_URL ascii_platform)
    {| id := str "whois"; title := str "Who.is"; description := [];
       urlTemplate := str "https://who.is/whois/{{DOMAIN}}";
       urlType := Some domain; category := WHOIS |}
    (str "not a domain")
  = Returns {| status := idle; finalUrl := str "https://who.is/whois/not a domain" |}.
Proof.
  refine (proj1 (@generate_fixed_origin ascii_platform
                   {| id := str "whois"; title := str "Who.is"; description := [];
                      urlTemplate := str "https://who.is/whois/{{DOMAIN}}";
                      urlType := Some domain; category := WHOIS |}
                   (str "https") (str "who.is") (str "whois/{{DOMAIN}}")
                   (str "not a domain") eq_refl _ _)).
  - right. left. reflexivity.
  - repeat split; [repeat constructor | vm_compute; reflexivity ..].
Defined.

(** ** The account of a batch *)

Lemma open_one_logged
  (TOOLS : list Tool) (window_open : jsstring -> result unit)
  (d : jsstring) (w : Dashboard.Effects) (toolId : jsstring) :
  Dashboard.logged (Dashboard.open_one TOOLS window_open d w toolId)
  = Dashboard.logged w
      ++ match Dashboard.find_tool TOOLS toolId with
         | Some tool =>
             match window_open (Dashboard.batch_url tool d) with
             | Returns _ => []
             | Throws => [title tool]
             end
         | None => []
         end.
Proof.
  unfold Dashboard.open_one.
  destruct (Dashboard.find_tool TOOLS toolId) as [tool|]; [|now rewrite app_nil_r].
  destruct (window_open (Dashboard.batch_url tool d)); cbn [Dashboard.logged];
    [now rewrite app_nil_r | reflexivity].
Qed.

(** No selected tool is dropped in silence: the titles logged are those of
    the selected tools of the catalog whose URL [window.open] rejects, in
    the order of the selection, and the URLs opened and the titles logged
    are together as many as the selected ids the catalog holds. *)
Theorem handleOpenSelected_accounts
  (TOOLS : list Tool) (window_open : jsstring -> result unit)
  (selectedTools : list jsstring) (d : jsstring) :
  Dashboard.logged (Dashboard.handleOpenSelected TOOLS window_open selectedTools d)
  = flat_map (fun toolId =>
                match Dashboard.find_tool TOOLS toolId with
                | Some tool =>
                    match window_open (Dashboard.batch_url tool d) with
                    | Returns _ => []
                    | Throws => [title tool]
                    end
                | None => []
                end) selectedTools
  /\ (length (Dashboard.opened
                (Dashboard.handleOpenSelected TOOLS window_open selectedTools d))
      + length (Dashboard.logged
                  (Dashboard.handleOpenSelected TOOLS window_open selectedTools d))
      = length (filter (fun toolId =>
                          match Dashboard.find_tool TOOLS toolId with
                          | Some _ => true
                          | None => false
                          end) selectedTools))%nat.
Proof.
  unfold Dashboard.handleOpenSelected.
  assert (forall w,
             Dashboard.logged
               (fold_left (Dashboard.open_one TOOLS window_open d) selectedTools w)
             = Dashboard.logged w
                 ++ flat_map (fun toolId =>
                                match Dashboard.find_tool TOOLS toolId with
                                | Some tool =>
                                    match window_open (Dashboard.batch_url tool d) with
                                    | Returns _ => []
                                    | Throws => [title tool]
                                    end
                                | None => []
                                end) selectedTools) as Hl.
  { induction selectedTools as [|toolId rest IH]; intros w; cbn [fold_left flat_map].
    - now rewrite app_nil_r.
    - rewrite IH, open_one_logged. now rewrite <- app_assoc. }
  split; [apply Hl|].
  rewrite Hl, fold_open_one_opened. cbn [Dashboard.no_effects Dashboard.opened
                                          Dashboard.logged app].
  clear Hl. induction selectedTools as [|toolId rest IH]; [reflexivity|].
  cbn [flat_map filter]. rewrite !length_app.
  destruct (Dashboard.find_tool TOOLS toolId) as [tool|]; [|cbn [length]; lia].
  destruct (window_open (Dashboard.batch_url tool d)); cbn [length]; lia.
Qed.

End TemplateFacts.
